(** * Device registry and concurrent reachability probing (app.py)

    A shallow embedding of [app.py]: the storage helpers ([load_devices],
    [save_devices]), the prober ([ping_host]), the probe coordinator
    ([bulk_status]), the routes ([get_devices], [add_device],
    [delete_device], [all_status]) and the start-up block, followed by the
    properties of the specification that concern them and by further
    properties of the code.

    Conventions of the embedding.
    - A Python [str] is a [string]; each character stands for one code point
      below 256.  [str.lower] and [str.strip] are given on that range.
    - A Python [int] is a [Z]; a Python [float] is a binary64 value of the
      standard library's [spec_float].
    - A computation that may raise returns a [result]; [try ... except
      Exception] is [try_except].
    - The file [devices.json] and the supply of [uuid4] values are explicit
      state, threaded by the state monad [M].
    - The outside world is a parameter: [platform_system] for
      [platform.system()], [subprocess_run] for the outcome of
      [subprocess.run], [uuid4] for the values of [uuid.uuid4()].

    [bulk_status] is given twice.  As a function, it takes the order in
    which the futures complete as a schedule and returns the report.  As a
    concurrent system, it is a step relation over the main thread, the
    executor's queue and its worker threads.  The two agree: the reports a
    round can return are the values of the function over all schedules
    ([round_reports]), and every round returns ([round_returns]). *)

From Stdlib Require Import ZArith List String Ascii Bool Arith Lia.
From Stdlib Require Import Permutation Sorted OrderedTypeEx DecimalString.
From Stdlib Require Import Floats.SpecFloat.
From Stdlib Require DecimalZ DecimalPos.
Import ListNotations.
Local Open Scope string_scope.

Set Implicit Arguments.

(* ===================================================================== *)
(** * Python strings *)
(* ===================================================================== *)

Module PyStr.

(** Code points below 256 that [str.lower] changes: A-Z, and the Latin-1
    capitals U+00C0..U+00DE except the multiplication sign U+00D7. *)
Definition is_upper (c : ascii) : bool :=
  let n := nat_of_ascii c in
  (((65 <=? n) && (n <=? 90)) ||
   ((192 <=? n) && (n <=? 222) && negb (n =? 215)))%nat.

Definition lower_char (c : ascii) : ascii :=
  if is_upper c then ascii_of_nat (nat_of_ascii c + 32) else c.

(** [s.lower()] *)
Fixpoint lower (s : string) : string :=
  match s with
  | EmptyString => EmptyString
  | String c s' => String (lower_char c) (lower s')
  end.

(** Code points below 256 on which [str.isspace] holds: U+0009..U+000D,
    U+001C..U+0020, U+0085 and U+00A0.  These are what [str.strip]
    without argument removes. *)
Definition is_space (c : ascii) : bool :=
  let n := nat_of_ascii c in
  (((9 <=? n) && (n <=? 13)) || ((28 <=? n) && (n <=? 32)) ||
   (n =? 133) || (n =? 160))%nat.

(** [s.lstrip()] *)
Fixpoint lstrip (s : string) : string :=
  match s with
  | EmptyString => EmptyString
  | String c s' => if is_space c then lstrip s' else s
  end.

(** [s.rstrip()]: a character is dropped when it is a space and
    everything after it has been dropped. *)
Fixpoint rstrip (s : string) : string :=
  match s with
  | EmptyString => EmptyString
  | String c s' =>
      match rstrip s' with
      | EmptyString => if is_space c then EmptyString else String c EmptyString
      | r => String c r
      end
  end.

(** [s.strip()] *)
Definition strip (s : string) : string := rstrip (lstrip s).

(** Truth value of a string: [not s] is [is_empty s]. *)
Definition is_empty (s : string) : bool :=
  match s with EmptyString => true | _ => false end.

(** [str(n)] for an [int]: its decimal digits, with a sign when negative.
    (The interpreter's limit on the number of digits is not modelled.) *)
Definition str (n : Z) : string := NilZero.string_of_int (Z.to_int n).

(** Every character of [s] is a space. *)
Fixpoint all_space (s : string) : bool :=
  match s with
  | EmptyString => true
  | String c s' => is_space c && all_space s'
  end.

Definition first_char (s : string) : option ascii :=
  match s with EmptyString => None | String c _ => Some c end.

Fixpoint last_char (s : string) : option ascii :=
  match s with
  | EmptyString => None
  | String c EmptyString => Some c
  | String _ s' => last_char s'
  end.

End PyStr.

(* ===================================================================== *)
(** * Exceptions and results *)
(* ===================================================================== *)

(** The exceptions the modelled code can meet.  All of them derive from
    [Exception], so [except Exception] catches each one.  ([subprocess.run]
    raises [OSError] and its subclasses when the tool cannot be started and
    [ValueError] on an argument with an embedded NUL.) *)
Inductive exn : Type :=
| FileNotFoundError
| PermissionError
| OSError
| ValueError
| OverflowError
| ZeroDivisionError.

Inductive result (A : Type) : Type :=
| Ok (a : A)
| Raise (e : exn).

Arguments Ok {A} a.
Arguments Raise {A} e.

Definition rbind {A B} (c : result A) (k : A -> result B) : result B :=
  match c with
  | Ok a => k a
  | Raise e => Raise e
  end.

(** [try: c  except Exception: h] *)
Definition try_except {A} (c : result A) (h : exn -> result A) : result A :=
  match c with
  | Ok a => Ok a
  | Raise e => h e
  end.

Declare Scope result_scope.
Delimit Scope result_scope with result.
Notation "x <- c ;; k" := (rbind c (fun x => k))
  (at level 61, c at next level, right associativity) : result_scope.

(* ===================================================================== *)
(** * Python numbers: true division and [round] *)
(* ===================================================================== *)

Module PyNum.

Definition prec : Z := 53.
Definition emax : Z := 1024.

(** An [int] as an exact (unrounded) mantissa with exponent 0. *)
Definition of_int_exact (a : Z) : spec_float :=
  match a with
  | Z0 => S754_zero false
  | Zpos p => S754_finite false p 0
  | Zneg p => S754_finite true p 0
  end.

(** [a / b] on two [int]s: the binary64 value nearest to the exact
    quotient (ties to even); [ZeroDivisionError] on a zero divisor and
    [OverflowError] when the quotient is too large for a float. *)
Definition truediv (a b : Z) : result spec_float :=
  if (b =? 0)%Z then Raise ZeroDivisionError
  else
    match SFdiv prec emax (of_int_exact a) (of_int_exact b) with
    | S754_infinity _ => Raise OverflowError
    | x => Ok x
    end.

(** Nearest integer to [m / 2^k], ties to even. *)
Definition round_half_even_shift (m : Z) (k : Z) : Z :=
  let d := (2 ^ k)%Z in
  let q := (m / d)%Z in
  let r := (m mod d)%Z in
  if (2 * r <? d)%Z then q
  else if (d <? 2 * r)%Z then (q + 1)%Z
  else if Z.even q then q else (q + 1)%Z.

(** [round(x)] on a [float], without [ndigits]: the nearest [int], ties to
    even; [OverflowError] on an infinity and [ValueError] on a NaN. *)
Definition round (x : spec_float) : result Z :=
  match x with
  | S754_zero _ => Ok 0%Z
  | S754_infinity _ => Raise OverflowError
  | S754_nan => Raise ValueError
  | S754_finite s m e =>
      let mag := if (0 <=? e)%Z then (Zpos m * 2 ^ e)%Z
                 else round_half_even_shift (Zpos m) (- e) in
      Ok (if s then (- mag)%Z else mag)
  end.

(** Nearest integer to the exact quotient [a / b] ([0 < b]), ties to even:
    the value [round(a / b)] has when no float rounding interferes. *)
Definition round_half_even_div (a b : Z) : Z :=
  let q := (a / b)%Z in
  let r := (a mod b)%Z in
  if (2 * r <? b)%Z then q
  else if (b <? 2 * r)%Z then (q + 1)%Z
  else if Z.even q then q else (q + 1)%Z.

End PyNum.

(* ===================================================================== *)
(** * The prober: [ping_host] *)
(* ===================================================================== *)

Section Prober.

Local Open Scope result_scope.

(** [platform.system()], e.g. ["Linux"], ["Windows"], ["Darwin"]. *)
Variable platform_system : string.

(** [subprocess.run(cmd, stdout=DEVNULL, stderr=DEVNULL)] as seen by the
    caller: the return code of the finished process, or the exception
    raised while starting it. *)
Variable subprocess_run : list string -> result Z.

(** [secs = max(1, int(round(timeout_ms / 1000)))] *)
Definition ping_wait_secs (timeout_ms : Z) : result Z :=
  q <- PyNum.truediv timeout_ms 1000 ;;
  r <- PyNum.round q ;;
  Ok (Z.max 1 r).

(** The command line built in the [if sysname == "windows"] statement. *)
Definition ping_cmd (ip : string) (timeout_ms : Z) : result (list string) :=
  let sysname := PyStr.lower platform_system in
  if sysname =? "windows" then
    Ok ["ping"; "-n"; "1"; "-w"; PyStr.str timeout_ms; ip]
  else
    secs <- ping_wait_secs timeout_ms ;;
    Ok ["ping"; "-c"; "1"; "-W"; PyStr.str secs; ip].

Definition ping_host (ip : string) (timeout_ms : Z) : result bool :=
  try_except
    (cmd <- ping_cmd ip timeout_ms ;;
     returncode <- subprocess_run cmd ;;
     Ok (returncode =? 0)%Z)
    (fun _ => Ok false).

End Prober.

(** Default of the [timeout_ms] parameter. *)
Definition default_timeout_ms : Z := 1200.

(* ===================================================================== *)
(** * Data model *)
(* ===================================================================== *)

(** A device as [load_devices] returns it: a dict with the keys ["id"],
    ["name"] and ["ip"]. *)
Record Device : Type := mkDevice {
  id : string;
  name : string;
  ip : string
}.

(** One entry of the list [bulk_status] returns:
    [{"id": .., "name": .., "ip": .., "online": ..}]. *)
Record ProbeResult : Type := mkResult {
  r_id : string;
  r_name : string;
  r_ip : string;
  online : bool
}.

Definition Device_eq_dec (a b : Device) : {a = b} + {a <> b}.
Proof. decide equality; apply string_dec. Defined.

Definition ProbeResult_eq_dec (a b : ProbeResult) : {a = b} + {a <> b}.
Proof. decide equality; try apply string_dec; apply bool_dec. Defined.

(* ===================================================================== *)
(** * [list.sort(key=...)] *)
(* ===================================================================== *)

Module PySort.

(** [a < b] on two tuples [(str, str)]: the first components that differ
    decide; strings compare by code point. *)
Definition tuple_lt (a b : string * string) : bool :=
  if (fst a =? fst b)%string then (snd a <? snd b)%string
  else (fst a <? fst b)%string.

Section Sort.
Variables (A K : Type) (key : A -> K) (lt : K -> K -> bool).

(** Put [x], which stood before every element of the sorted [l], at its
    place: after the elements whose key is smaller, before the others. *)
Fixpoint insert (x : A) (l : list A) : list A :=
  match l with
  | [] => [x]
  | y :: l' => if lt (key y) (key x) then y :: insert x l' else x :: l
  end.

(** [l.sort(key=key)]: the list in ascending order of [key], elements
    with equal keys in their original order.  The built-in sort only
    uses [<] on the keys and is stable, which fixes its result; it is
    computed here by insertion from the right. *)
Definition sort (l : list A) : list A := fold_right insert [] l.

(** [x] does not come after [y]. *)
Definition not_after (x y : A) : Prop := lt (key y) (key x) = false.

(** The elements of [l] whose key is [k], in the order of [l]. *)
Definition with_key (keq : K -> K -> bool) (k : K) (l : list A) : list A :=
  filter (fun x => keq (key x) k) l.

End Sort.

End PySort.

(** ** The order of the report

    Strings are ordered lexicographically by code point
    ([String_as_OT.lt]); keys [(lowercased name, ip)] are ordered by their
    first component, then by their second. *)

Definition key_lt (a b : string * string) : Prop :=
  String_as_OT.lt (fst a) (fst b) \/
  (fst a = fst b /\ String_as_OT.lt (snd a) (snd b)).

Definition key_le (a b : string * string) : Prop := key_lt a b \/ a = b.

(** [a == b] on two tuples [(str, str)]. *)
Definition key_eqb (a b : string * string) : bool :=
  (fst a =? fst b)%string && (snd a =? snd b)%string.

(* ===================================================================== *)
(** * The coordinator: [bulk_status] *)
(* ===================================================================== *)

(** [min(64, max(4, len(devices)))] *)
Definition max_workers (devices : list Device) : Z :=
  Z.min 64 (Z.max 4 (Z.of_nat (List.length devices))).

(** The sort key [lambda x: (x["name"].lower(), x["ip"])]. *)
Definition sort_key (x : ProbeResult) : string * string :=
  (PyStr.lower (r_name x), r_ip x).

(** The dict appended to [out] for device [d] whose future holds
    [fut_result]: [fut.result()] under [try ... except Exception]. *)
Definition make_result (d : Device) (fut_result : result bool) : ProbeResult :=
  let online :=
    match try_except fut_result (fun _ => Ok false) with
    | Ok b => b
    | Raise _ => false
    end in
  {| r_id := id d; r_name := name d; r_ip := ip d; online := online |}.

Section Completion.
Variable A : Type.

(** Take the element at position [k] out of [l]. *)
Fixpoint extract (k : nat) (l : list A) {struct l} : option (A * list A) :=
  match l with
  | [] => None
  | x :: l' =>
      match k with
      | O => Some (x, l')
      | S k' =>
          match extract k' l' with
          | Some (y, rest) => Some (y, x :: rest)
          | None => None
          end
      end
  end.

(** [as_completed(futures)] yields every future once, in the order in
    which they finish.  That order is not fixed by the program: the
    schedule [sched] says, at each step, which of the pending futures
    finishes next (its position among them, modulo their number; a
    schedule that runs out continues with the first pending one). *)
Fixpoint as_completed_from (n : nat) (sched : list nat) (pending : list A)
  : list A :=
  match n with
  | O => []
  | S n' =>
      match extract (hd 0 sched mod List.length pending) pending with
      | Some (x, rest) => x :: as_completed_from n' (tl sched) rest
      | None => []
      end
  end.

Definition as_completed (sched : list nat) (futures : list A) : list A :=
  as_completed_from (List.length futures) sched futures.

End Completion.

Section Coordinator.

Variable platform_system : string.

(** The outcome of [subprocess.run] in the [i]-th submitted task. *)
Variable subprocess_run : nat -> list string -> result Z.

(** Completion order of the futures. *)
Variable sched : list nat.

(** [{ex.submit(ping_host, d["ip"]): d for d in devices}], task numbers
    starting at [i]: every future is a key of its own, so the dict has one
    item per device, in submission order.  A future is represented by the
    result it will hold. *)
Fixpoint submit_all (i : nat) (devices : list Device)
  : list (result bool * Device) :=
  match devices with
  | [] => []
  | d :: ds =>
      (ping_host platform_system (subprocess_run i) (ip d) default_timeout_ms, d)
      :: submit_all (S i) ds
  end.

(** The list [out] when the [with] block is left. *)
Definition collect (devices : list Device) : list ProbeResult :=
  map (fun fd => make_result (snd fd) (fst fd))
      (as_completed sched (submit_all 0 devices)).

(** The report.  The executor's width has no part in it; it bounds the
    interleavings of the concurrent system below. *)
Definition bulk_status (devices : list Device) : list ProbeResult :=
  PySort.sort sort_key PySort.tuple_lt (collect devices).

End Coordinator.

(** ** What the specification asks of a report *)

(** The device a result was made from. *)
Definition result_device (r : ProbeResult) : Device :=
  {| id := r_id r; name := r_name r; ip := r_ip r |}.

(** One result per device: read back as devices, the results are the
    devices up to order. *)
Definition one_result_per_device (devices : list Device)
    (report : list ProbeResult) : Prop :=
  Permutation (map result_device report) devices /\
  Permutation (map r_id report) (map id devices) /\
  List.length report = List.length devices.

(** Ascending order of (lowercased name, ip). *)
Definition sorted_by_key (report : list ProbeResult) : Prop :=
  StronglySorted
    (fun x y => key_le (PyStr.lower (r_name x), r_ip x)
                       (PyStr.lower (r_name y), r_ip y)) report.

(** ** Hypotheses on a pair of runs *)

(** No two devices of the list share both lowercased name and ip. *)
Definition distinct_keys (devices : list Device) : Prop :=
  forall d1 d2, In d1 devices -> In d2 devices ->
    PyStr.lower (name d1) = PyStr.lower (name d2) -> ip d1 = ip d2 ->
    d1 = d2.

(** The two runs see the same outcome for every address. *)
Definition same_outcomes (platform_system : string) (devices : list Device)
    (run1 run2 : nat -> list string -> result Z) : Prop :=
  forall i j d, In d devices ->
    ping_host platform_system (run1 i) (ip d) default_timeout_ms =
    ping_host platform_system (run2 j) (ip d) default_timeout_ms.

(* ===================================================================== *)
(** * Storage: [devices.json] *)
(* ===================================================================== *)

(** One object of the JSON array in [devices.json].  The key ["id"] may be
    missing (a file written by hand); ["name"] and ["ip"] are present. *)
Record Stored : Type := mkStored {
  s_id : option string;
  s_name : string;
  s_ip : string
}.

(** ["id" in d] *)
Definition has_id (d : Stored) : bool :=
  match s_id d with
  | Some _ => true
  | None => false
  end.

Definition to_stored (d : Device) : Stored :=
  {| s_id := Some (id d); s_name := name d; s_ip := ip d |}.

(** The state the routes act on. *)
Record Store : Type := mkStore {
  (** content of [devices.json]; [None] when the file does not exist *)
  file : option (list Stored);
  (** every list handed to [json.dump] so far, oldest first *)
  writes : list (list Stored);
  (** number of [uuid.uuid4()] calls so far *)
  uuid_calls : nat
}.

Definition M (A : Type) : Type := Store -> A * Store.

Definition ret {A} (a : A) : M A := fun st => (a, st).

Definition bind {A B} (c : M A) (k : A -> M B) : M B :=
  fun st => let (a, st') := c st in k a st'.

Declare Scope io_scope.
Delimit Scope io_scope with io.
Notation "x <- c ;; k" := (bind c (fun x => k))
  (at level 61, c at next level, right associativity) : io_scope.
Notation "c ;;; k" := (bind c (fun _ => k))
  (at level 61, right associativity) : io_scope.

(** ** Requests and responses *)

(** Body of a response. *)
Inductive Body : Type :=
| JDevice (d : Device)
| JError (msg : string)
| JOkTrue.

(** A response: body and HTTP status. *)
Definition Response : Type := (Body * Z)%type.

(** The JSON body of [POST /api/devices]: the values of the keys
    ["name"] and ["ip"], [None] for a key that is missing or null. *)
Record AddRequest : Type := mkAdd {
  req_name : option string;
  req_ip : option string
}.

(** [(v or "")] *)
Definition or_empty (v : option string) : string :=
  match v with
  | Some s => s
  | None => ""
  end.

(** [d["ip"] == ip] *)
Definition same_ip (ip0 : string) (d : Device) : bool := (ip d =? ip0)%string.

Section Registry.

Local Open Scope io_scope.

(** [str(uuid.uuid4())]: the value returned by the [n]-th call. *)
Variable uuid4 : nat -> string.

Definition new_uuid : M string :=
  fun st => (uuid4 (uuid_calls st),
             {| file := file st; writes := writes st;
                uuid_calls := S (uuid_calls st) |}).

(** [os.path.exists(DEVICES_FILE)] *)
Definition path_exists : M bool :=
  fun st => (match file st with Some _ => true | None => false end, st).

(** [json.load(f)] on the opened file. *)
Definition read_json : M (list Stored) :=
  fun st => (match file st with Some l => l | None => [] end, st).

(** [json.dump(devices, f)] on the file opened for writing. *)
Definition save_devices (devices : list Device) : M unit :=
  fun st => (tt, {| file := Some (map to_stored devices);
                    writes := writes st ++ [map to_stored devices];
                    uuid_calls := uuid_calls st |}).

(** The loop [for d in data: if "id" not in d: ...]; the flag is
    [updated]. *)
Fixpoint ensure_ids (data : list Stored) : M (list Device * bool) :=
  match data with
  | [] => ret ([], false)
  | d :: rest =>
      r <- match s_id d with
           | Some i => ret (mkDevice i (s_name d) (s_ip d), false)
           | None => i <- new_uuid ;; ret (mkDevice i (s_name d) (s_ip d), true)
           end ;;
      rs <- ensure_ids rest ;;
      ret (fst r :: fst rs, snd r || snd rs)
  end.

Definition load_devices : M (list Device) :=
  present <- path_exists ;;
  (if present then ret tt else save_devices []) ;;;
  data <- read_json ;;
  r <- ensure_ids data ;;
  (if snd r then save_devices (fst r) else ret tt) ;;;
  ret (fst r).

(** ** Routes *)

Definition add_device (data : AddRequest) : M Response :=
  let name := PyStr.strip (or_empty (req_name data)) in
  let ip := PyStr.strip (or_empty (req_ip data)) in
  if PyStr.is_empty name || PyStr.is_empty ip then
    ret (JError "name and ip are required", 400%Z)
  else
    devices <- load_devices ;;
    if existsb (same_ip ip) devices then
      ret (JError "device with this IP already exists", 409%Z)
    else
      i <- new_uuid ;;
      let new_dev := mkDevice i name ip in
      let devices := (devices ++ [new_dev])%list in
      save_devices devices ;;;
      ret (JDevice new_dev, 201%Z).

Definition delete_device (dev_id : string) : M Response :=
  devices <- load_devices ;;
  let new_list := filter (fun d => negb (id d =? dev_id)%string) devices in
  if (List.length new_list =? List.length devices)%nat then
    ret (JError "not found", 404%Z)
  else
    save_devices new_list ;;;
    ret (JOkTrue, 200%Z).

End Registry.

(* ===================================================================== *)
(** * The round as a concurrent system *)
(* ===================================================================== *)

(** What [bulk_status] leaves to the scheduler: the main thread creates the
    executor, submits one task per device and then consumes
    [as_completed]; meanwhile the pool's worker threads take tasks from the
    queue and run [ping_host].  The interleaving is a step relation. *)

(** Observable events of a round. *)
Inductive event : Type :=
| EvPool (w : Z)                      (** [ThreadPoolExecutor(max_workers=w)] *)
| EvSubmit (i : nat) (addr : string)  (** [ex.submit(ping_host, addr)] makes future [i] *)
| EvSpawn                             (** the pool starts a worker thread *)
| EvStart (i : nat) (addr : string)   (** a worker enters [ping_host(addr)] for future [i] *)
| EvDone (i : nat) (r : result bool)  (** the call is over, future [i] is finished *)
| EvYield (i : nat)                   (** [as_completed] yields future [i] *)
| EvReturn.                           (** [return out] *)

(** Where the main thread is. *)
Inductive Main : Type :=
| AtEntry
    (** before the [with] statement *)
| Submitting (i : nat) (rest : list Device) (futures : list (nat * Device))
    (** in the dict comprehension: [rest] is still to submit, the next
        future is number [i] *)
| Collecting (futures : list (nat * Device)) (waiting : list nat)
             (out : list ProbeResult)
    (** in the [for fut in as_completed(futures)] loop: the futures in
        [waiting] have not been yielded yet *)
| Returned (report : list ProbeResult).

Record Round : Type := mkRound {
  main : Main;
  (** [max_workers] of the executor *)
  width : Z;
  (** worker threads started so far *)
  threads : nat;
  (** work items waiting in the executor's queue, oldest first *)
  queue : list (nat * string);
  (** work items a worker is executing *)
  running : list (nat * string);
  (** finished futures with their outcome *)
  finished : list (nat * result bool);
  trace : list event
}.

Definition initial : Round :=
  {| main := AtEntry; width := 0; threads := 0; queue := []; running := [];
     finished := []; trace := [] |}.

(** Number of probes in flight after a trace: calls entered and not yet
    left. *)
Fixpoint in_flight (t : list event) : Z :=
  match t with
  | [] => 0
  | EvStart _ _ :: t' => in_flight t' + 1
  | EvDone _ _ :: t' => in_flight t' - 1
  | _ :: t' => in_flight t'
  end.

Definition is_probe_event (e : event) : bool :=
  match e with
  | EvSubmit _ _ | EvSpawn | EvStart _ _ | EvDone _ _ => true
  | _ => false
  end.

Definition is_pool_event (e : event) : bool :=
  match e with
  | EvPool _ => true
  | _ => false
  end.

Section Round.

Variable platform_system : string.
Variable subprocess_run : nat -> list string -> result Z.
Variable devices : list Device.

Inductive step : Round -> Round -> Prop :=
| step_create s :
    (** [with ThreadPoolExecutor(max_workers=...) as ex:] *)
    main s = AtEntry ->
    step s {| main := Submitting 0 devices [];
              width := max_workers devices;
              threads := threads s; queue := queue s;
              running := running s; finished := finished s;
              trace := (trace s ++ [EvPool (max_workers devices)])%list |}
| step_submit_spawn s i d rest fs :
    (** [ex.submit]: the work item is queued and, the pool not being
        full, a new worker thread is started *)
    main s = Submitting i (d :: rest) fs ->
    (Z.of_nat (threads s) < width s)%Z ->
    step s {| main := Submitting (S i) rest (fs ++ [(i, d)]);
              width := width s;
              threads := S (threads s);
              queue := (queue s ++ [(i, ip d)])%list;
              running := running s; finished := finished s;
              trace := (trace s ++ [EvSubmit i (ip d); EvSpawn])%list |}
| step_submit_reuse s i d rest fs :
    (** [ex.submit]: the work item is queued and no thread is started,
        the pool being full or a worker being idle *)
    main s = Submitting i (d :: rest) fs ->
    (Z.of_nat (threads s) = width s \/
     List.length (running s) < threads s) ->
    step s {| main := Submitting (S i) rest (fs ++ [(i, d)]);
              width := width s;
              threads := threads s;
              queue := (queue s ++ [(i, ip d)])%list;
              running := running s; finished := finished s;
              trace := (trace s ++ [EvSubmit i (ip d)])%list |}
| step_submitted s i fs :
    (** the dict is complete; the [for] loop begins *)
    main s = Submitting i [] fs ->
    step s {| main := Collecting fs (map fst fs) [];
              width := width s; threads := threads s; queue := queue s;
              running := running s; finished := finished s;
              trace := trace s |}
| step_start s i addr q :
    (** an idle worker takes the oldest work item *)
    queue s = (i, addr) :: q ->
    List.length (running s) < threads s ->
    step s {| main := main s; width := width s; threads := threads s;
              queue := q;
              running := (running s ++ [(i, addr)])%list;
              finished := finished s;
              trace := (trace s ++ [EvStart i addr])%list |}
| step_finish s i addr r1 r2 :
    (** some running call returns and sets its future *)
    running s = (r1 ++ (i, addr) :: r2)%list ->
    let r := ping_host platform_system (subprocess_run i) addr
                       default_timeout_ms in
    step s {| main := main s; width := width s; threads := threads s;
              queue := queue s;
              running := (r1 ++ r2)%list;
              finished := (i, r) :: finished s;
              trace := (trace s ++ [EvDone i r])%list |}
| step_yield s fs w1 i w2 out r d :
    (** [as_completed] yields a finished future; the loop body appends
        its result to [out] *)
    main s = Collecting fs (w1 ++ i :: w2) out ->
    In (i, r) (finished s) ->
    In (i, d) fs ->
    step s {| main := Collecting fs (w1 ++ w2) (out ++ [make_result d r]);
              width := width s; threads := threads s; queue := queue s;
              running := running s; finished := finished s;
              trace := (trace s ++ [EvYield i])%list |}
| step_return s fs out :
    (** every future was yielded: the [with] block ends, [out] is sorted
        and returned *)
    main s = Collecting fs [] out ->
    step s {| main := Returned (PySort.sort sort_key PySort.tuple_lt out);
              width := width s; threads := threads s; queue := queue s;
              running := running s; finished := finished s;
              trace := (trace s ++ [EvReturn])%list |}.

(** States a round can be in. *)
Inductive reachable : Round -> Prop :=
| reach_initial : reachable initial
| reach_step s s' : reachable s -> step s s' -> reachable s'.

(** Work left in a state; every step uses some of it up. *)
Definition main_measure (m : Main) : nat :=
  match m with
  | AtEntry => 3 + 5 * List.length devices
  | Submitting _ rest fs => 2 + 5 * List.length rest + List.length fs
  | Collecting _ waiting _ => 1 + List.length waiting
  | Returned _ => 0
  end.

Definition measure (s : Round) : nat :=
  main_measure (main s) + 3 * List.length (queue s)
  + 2 * List.length (running s).

(** The result future [i] gets when it calls [ping_host addr]. *)
Definition outcome (i : nat) (addr : string) : result bool :=
  ping_host platform_system (subprocess_run i) addr default_timeout_ms.

(** The dict appended to [out] for an item [(i, d)] of the futures dict. *)
Definition result_of (f : nat * Device) : ProbeResult :=
  make_result (snd f) (outcome (fst f) (ip (snd f))).

(** The futures dict once every device is submitted. *)
Definition all_futures : list (nat * Device) :=
  combine (seq 0 (List.length devices)) devices.

(** Every work item belongs to a future of the dict [fs] and probes the
    address of its device; every finished future holds the outcome of that
    probe. *)
Definition work_ok (fs : list (nat * Device)) (s : Round) : Prop :=
  (forall i a, In (i, a) (queue s ++ running s) ->
     exists d, In (i, d) fs /\ a = ip d) /\
  (forall i r, In (i, r) (finished s) ->
     exists d, In (i, d) fs /\ r = outcome i (ip d)).

(** Every future of [js] is queued, running or finished. *)
Definition accounted (js : list nat) (s : Round) : Prop :=
  forall j, In j js ->
    In j (map fst (queue s)) \/ In j (map fst (running s)) \/
    In j (map fst (finished s)).

Definition round_inv (s : Round) : Prop :=
  match main s with
  | AtEntry => queue s = [] /\ running s = [] /\ finished s = []
  | Submitting i rest fs =>
      devices = (map snd fs ++ rest)%list /\ map fst fs = seq 0 i /\
      work_ok fs s /\ accounted (map fst fs) s /\
      width s = max_workers devices /\ (fs <> [] -> 1 <= threads s)
  | Collecting fs waiting out =>
      fs = all_futures /\ work_ok fs s /\ accounted waiting s /\
      (fs <> [] -> 1 <= threads s) /\
      exists ys ws, waiting = map fst ws /\ Permutation (ys ++ ws) fs /\
                    out = map result_of ys
  | Returned report =>
      exists ys, Permutation ys all_futures /\
                 report = PySort.sort sort_key PySort.tuple_lt
                                      (map result_of ys)
  end.

(** Several steps. *)
Inductive steps : Round -> Round -> Prop :=
| steps_refl s : steps s s
| steps_step s1 s2 s3 : step s1 s2 -> steps s2 s3 -> steps s1 s3.

(** The pool never runs more calls than it has threads, nor has more
    threads than its width; the trace counts the running calls. *)
Definition pool_inv (s : Round) : Prop :=
  List.length (running s) <= threads s /\
  (Z.of_nat (threads s) <= width s)%Z /\
  (width s <= max_workers devices)%Z /\
  in_flight (trace s) = Z.of_nat (List.length (running s)).

End Round.

(** The states of a round on the empty list. *)
Definition empty_1 : Round :=
  {| main := Submitting 0 [] []; width := 4; threads := 0; queue := [];
     running := []; finished := []; trace := [EvPool 4] |}.

Definition empty_2 : Round :=
  {| main := Collecting [] [] []; width := 4; threads := 0; queue := [];
     running := []; finished := []; trace := [EvPool 4] |}.

Definition empty_3 : Round :=
  {| main := Returned []; width := 4; threads := 0; queue := [];
     running := []; finished := []; trace := [EvPool 4; EvReturn] |}.

(** ** The two seed devices *)

Definition google : Device := mkDevice "g" "Google DNS" "8.8.8.8".
Definition cloudflare : Device := mkDevice "c" "Cloudflare DNS" "1.1.1.1".

(** [ping] answers for 1.1.1.1 only. *)
Definition only_cloudflare_up (i : nat) (cmd : list string) : result Z :=
  if (last cmd "" =? "1.1.1.1")%string then Ok 0%Z else Ok 1%Z.

(** ** A round on one device *)

Definition one_device : list Device := [mkDevice "a" "Google DNS" "8.8.8.8"].

(** [ping] always exits with status 0. *)
Definition always_up (i : nat) (cmd : list string) : result Z := Ok 0%Z.

(** The moment the probe is in flight. *)
Definition probing_one : Round :=
  {| main := Submitting 1 [] [(0, mkDevice "a" "Google DNS" "8.8.8.8")];
     width := 4; threads := 1; queue := [];
     running := [(0, "8.8.8.8")]; finished := [];
     trace := [EvPool 4; EvSubmit 0 "8.8.8.8"; EvSpawn; EvStart 0 "8.8.8.8"] |}.

(** The moment the only future has been yielded. *)
Definition yielded_one : Round :=
  {| main := Collecting [(0, mkDevice "a" "Google DNS" "8.8.8.8")] []
                        [mkResult "a" "Google DNS" "8.8.8.8" true];
     width := 4; threads := 1; queue := []; running := [];
     finished := [(0, Ok true)];
     trace := [EvPool 4; EvSubmit 0 "8.8.8.8"; EvSpawn; EvStart 0 "8.8.8.8";
               EvDone 0 (Ok true); EvYield 0] |}.

(** The end of the round. *)
Definition returned_one : Round :=
  {| main := Returned [mkResult "a" "Google DNS" "8.8.8.8" true];
     width := 4; threads := 1; queue := []; running := [];
     finished := [(0, Ok true)];
     trace := [EvPool 4; EvSubmit 0 "8.8.8.8"; EvSpawn; EvStart 0 "8.8.8.8";
               EvDone 0 (Ok true); EvYield 0; EvReturn] |}.

(* ===================================================================== *)
(** * Checking a property on a range of integers *)
(* ===================================================================== *)

(** Integers [start], [start+1], ... ([n] of them). *)
Fixpoint zrange_from (start : Z) (n : nat) : list Z :=
  match n with
  | O => []
  | S n' => start :: zrange_from (start + 1) n'
  end.

Definition result_is (a : result Z) (b : Z) : bool :=
  match a with
  | Ok x => (x =? b)%Z
  | Raise _ => false
  end.

(* ===================================================================== *)
(** * The remaining routes and the start-up block *)
(* ===================================================================== *)

Section ReadRoutes.

Local Open Scope io_scope.

Variable uuid4 : nat -> string.
Variable platform_system : string.
Variable subprocess_run : nat -> list string -> result Z.
Variable sched : list nat.

(** [GET /api/devices]: [jsonify(load_devices())], with the default status
    200. *)
Definition get_devices : M (list Device * Z) :=
  devices <- load_devices uuid4 ;;
  ret (devices, 200%Z).

(** [GET /api/status]: [jsonify(bulk_status(load_devices()))]. *)
Definition all_status : M (list ProbeResult * Z) :=
  devices <- load_devices uuid4 ;;
  ret (bulk_status platform_system subprocess_run sched devices, 200%Z).

(** The block under [if __name__ == "__main__":] up to [app.run]: the two
    seed devices are written when [devices.json] is missing.  The ids are
    drawn in the order of the list literal. *)
Definition app_main : M unit :=
  present <- path_exists ;;
  if present then ret tt
  else
    i1 <- new_uuid uuid4 ;;
    i2 <- new_uuid uuid4 ;;
    save_devices [mkDevice i1 "Google DNS" "8.8.8.8";
                  mkDevice i2 "Cloudflare DNS" "1.1.1.1"].

End ReadRoutes.

(** The requests that reach the storage, one per route of the registry
    and of the status report. *)
Inductive Request : Type :=
| ReqGetDevices
| ReqAddDevice (data : AddRequest)
| ReqDeleteDevice (dev_id : string)
| ReqAllStatus (sched : list nat).

(** The two routes that only read: [GET /api/devices] and
    [GET /api/status]. *)
Definition is_read (r : Request) : bool :=
  match r with
  | ReqGetDevices | ReqAllStatus _ => true
  | ReqAddDevice _ | ReqDeleteDevice _ => false
  end.

Section Requests.

Local Open Scope io_scope.

Variable uuid4 : nat -> string.
Variable platform_system : string.
Variable subprocess_run : nat -> list string -> result Z.

(** What one request does to the storage: the route's function is run and
    its response sent. *)
Definition serve (r : Request) : M unit :=
  match r with
  | ReqGetDevices => get_devices uuid4 ;;; ret tt
  | ReqAddDevice data => add_device uuid4 data ;;; ret tt
  | ReqDeleteDevice dev_id => delete_device uuid4 dev_id ;;; ret tt
  | ReqAllStatus sched =>
      all_status uuid4 platform_system subprocess_run sched ;;; ret tt
  end.

(** Requests served one after the other. *)
Fixpoint serve_all (rs : list Request) : M unit :=
  match rs with
  | [] => ret tt
  | r :: rs' => serve r ;;; serve_all rs'
  end.

End Requests.

(** A supply of ids for examples: ["uuid-0"], ["uuid-1"], ... *)
Definition uuid_seq (n : nat) : string := "uuid-" ++ PyStr.str (Z.of_nat n).

(** The ips on disk, in file order; none when there is no file. *)
Definition stored_ips (st : Store) : list string :=
  match file st with
  | Some l => map s_ip l
  | None => []
  end.

(** The ids on disk, in file order. *)
Definition stored_ids (st : Store) : list (option string) :=
  match file st with
  | Some l => map s_id l
  | None => []
  end.

(** The file exists and every record carries an id: what [load_devices]
    leaves behind. *)
Definition id_complete (st : Store) : Prop :=
  exists ds, file st = Some (map to_stored ds).

(** The ids that the records of [data] carry, in order. *)
Definition ids_of (data : list Stored) : list string :=
  flat_map (fun d => match s_id d with Some i => [i] | None => [] end) data.

(** The ids on disk. *)
Definition known_ids (st : Store) : list string :=
  match file st with
  | Some data => ids_of data
  | None => []
  end.

(** The ids on disk differ from one another, and [uuid4] will not return
    one of them. *)
Definition ids_fresh (uuid4 : nat -> string) (st : Store) : Prop :=
  NoDup (known_ids st) /\
  forall n, uuid_calls st <= n -> ~ In (uuid4 n) (known_ids st).

(** Records of [data] without the key ["id"]. *)
Definition missing_ids (data : list Stored) : nat :=
  List.length (filter (fun d => negb (has_id d)) data).

(* ===================================================================== *)
(** * What a trace of a round shows *)
(* ===================================================================== *)

(** The probes entered, in order: future and address. *)
Fixpoint started (t : list event) : list (nat * string) :=
  match t with
  | [] => []
  | EvStart i addr :: t' => (i, addr) :: started t'
  | _ :: t' => started t'
  end.

(** The futures whose probe is over, in order. *)
Fixpoint done_ids (t : list event) : list nat :=
  match t with
  | [] => []
  | EvDone i _ :: t' => i :: done_ids t'
  | _ :: t' => done_ids t'
  end.

(** The worker threads started. *)
Fixpoint spawned (t : list event) : nat :=
  match t with
  | [] => 0
  | EvSpawn :: t' => S (spawned t')
  | _ :: t' => spawned t'
  end.

(** The work item of an item of the futures dict. *)
Definition work_item (f : nat * Device) : nat * string := (fst f, ip (snd f)).

(** A round that has made [k] steps. *)
Inductive reachable_in (platform_system : string)
    (subprocess_run : nat -> list string -> result Z)
    (devices : list Device) : nat -> Round -> Prop :=
| reach_in_initial :
    reachable_in platform_system subprocess_run devices 0 initial
| reach_in_step k s s' :
    reachable_in platform_system subprocess_run devices k s ->
    step platform_system subprocess_run devices s s' ->
    reachable_in platform_system subprocess_run devices (S k) s'.

(** Steps a round has still to make: one to create the pool, four per
    device (submit, start, finish, yield), one to begin the loop and one to
    return. *)
Definition steps_left (devices : list Device) (s : Round) : nat :=
  match main s with
  | AtEntry => 3 + 4 * List.length devices
  | Submitting _ rest fs => 2 + 4 * List.length rest + List.length fs
  | Collecting _ waiting _ => 1 + List.length waiting
  | Returned _ => 0
  end + 2 * List.length (queue s) + List.length (running s).

(** The bookkeeping of a round, read off its trace: [fs] are the futures
    submitted so far and [later] those still to submit; the probes entered
    are the first work items of [fs], in order; the probes entered are
    those finished and those running; a thread was started for some
    submissions only; and a future that is not waiting any more is
    finished. *)
Definition probe_inv (devices : list Device) (s : Round) : Prop :=
  exists fs later : list (nat * Device),
    all_futures devices = (fs ++ later)%list /\
    (started (trace s) ++ queue s)%list = map work_item fs /\
    Permutation (map fst (finished s) ++ map fst (running s))
                (map fst (started (trace s))) /\
    map fst (finished s) = rev (done_ids (trace s)) /\
    threads s <= List.length fs /\
    spawned (trace s) = threads s /\
    match main s with
    | AtEntry => fs = []
    | Submitting i rest fs' =>
        fs' = fs /\ later = combine (seq i (List.length rest)) rest
    | Collecting fs' waiting _ =>
        fs' = fs /\ later = [] /\
        forall j, In j (map fst fs) ->
                  In j waiting \/ In j (map fst (finished s))
    | Returned _ =>
        later = [] /\
        forall j, In j (map fst fs) -> In j (map fst (finished s))
    end.

(** What the loop of [load_devices] computes, in closed form: every record
    keeps its place, name, ip and id, and the records without an id take
    the values of [uuid4] from the [n]-th on, in file order. *)
Fixpoint fill_ids (uuid4 : nat -> string) (n : nat) (data : list Stored)
  : list Device :=
  match data with
  | [] => []
  | d :: rest =>
      match s_id d with
      | Some i => mkDevice i (s_name d) (s_ip d) :: fill_ids uuid4 n rest
      | None =>
          mkDevice (uuid4 n) (s_name d) (s_ip d) :: fill_ids uuid4 (S n) rest
      end
  end.

(* ===================================================================== *)
(** * Properties of the prober *)
(* ===================================================================== *)

Lemma zrange_from_In (n : nat) :
  forall start t, (start <= t < start + Z.of_nat n)%Z -> In t (zrange_from start n).
Proof.
  induction n as [|n IH]; intros start t H.
  - lia.
  - simpl. destruct (Z.eq_dec start t) as [->|Hne]; [now left|].
    right. apply IH. lia.
Qed.

Lemma forallb_zrange (P : Z -> bool) (start : Z) (n : nat) :
  forallb P (zrange_from start n) = true ->
  forall t, (start <= t < start + Z.of_nat n)%Z -> P t = true.
Proof.
  intros H t Ht. rewrite forallb_forall in H. apply H.
  now apply zrange_from_In.
Qed.

Lemma result_is_true (a : result Z) (b : Z) : result_is a b = true -> a = Ok b.
Proof.
  destruct a as [x|e]; simpl; [|discriminate].
  intros H. apply Z.eqb_eq in H. now subst.
Qed.

(** The quotient of a negative by a positive integer is not a positive
    float. *)
Lemma binary_round_aux_sign (s : bool) (m e : Z) (l : location) :
  match binary_round_aux PyNum.prec PyNum.emax s m e l with
  | S754_zero s' | S754_infinity s' | S754_finite s' _ _ => s' = s
  | S754_nan => True
  end.
Proof.
  unfold binary_round_aux.
  destruct (shr_fexp _ _ m e l) as [mrs' e'].
  destruct (shr_fexp _ _ _ e' loc_Exact) as [mrs'' e''].
  destruct (shr_m mrs''); auto.
  destruct (Z.leb _ _); auto.
Qed.

(** Rounding a mantissa that is not negative never yields a NaN. *)
Lemma iter_pos_invariant (A : Type) (f : A -> A) (P : A -> Prop) :
  (forall x, P x -> P (f x)) ->
  forall p x, P x -> P (iter_pos f p x).
Proof.
  intros Hf. induction p as [p IH|p IH|]; intros x Hx; simpl; auto.
Qed.

Lemma shr_1_nonneg (mrs : shr_record) :
  (0 <= shr_m mrs)%Z -> (0 <= shr_m (shr_1 mrs))%Z.
Proof.
  destruct mrs as [m r s]. simpl.
  destruct m as [|[p|p|]|[p|p|]]; simpl; lia.
Qed.

Lemma shr_fexp_nonneg (m e : Z) (l : location) :
  (0 <= m)%Z ->
  (0 <= shr_m (fst (shr_fexp PyNum.prec PyNum.emax m e l)))%Z.
Proof.
  intros Hm. unfold shr_fexp, shr.
  assert (H0 : (0 <= shr_m (shr_record_of_loc m l))%Z)
    by (destruct l as [|[| |]]; exact Hm).
  destruct (_ - e)%Z as [|p|p]; simpl; auto.
  apply (@iter_pos_invariant _ shr_1 (fun x => (0 <= shr_m x)%Z)); auto.
  apply shr_1_nonneg.
Qed.

Lemma binary_round_aux_not_nan (s : bool) (m e : Z) (l : location) :
  (0 <= m)%Z ->
  binary_round_aux PyNum.prec PyNum.emax s m e l <> S754_nan.
Proof.
  intros Hm. unfold binary_round_aux.
  pose proof (@shr_fexp_nonneg m e l Hm) as H1.
  destruct (shr_fexp _ _ m e l) as [mrs' e']. simpl in H1.
  assert (H2 : (0 <= round_nearest_even (shr_m mrs')
                                        (loc_of_shr_record mrs'))%Z).
  { unfold round_nearest_even.
    destruct (loc_of_shr_record mrs') as [|[| |]]; try lia.
    destruct (Z.even _); lia. }
  pose proof (@shr_fexp_nonneg _ e' loc_Exact H2) as H3.
  destruct (shr_fexp _ _ _ e' loc_Exact) as [mrs'' e'']. simpl in H3.
  destruct (shr_m mrs'') as [|p|p]; try discriminate; [|lia].
  destruct (Z.leb _ _); discriminate.
Qed.

Lemma SFdiv_core_binary_nonneg (m1 m2 : positive) (e1 e2 : Z) :
  (0 <= fst (fst (SFdiv_core_binary PyNum.prec PyNum.emax
                    (Zpos m1) e1 (Zpos m2) e2)))%Z.
Proof.
  unfold SFdiv_core_binary.
  set (s := (e1 - e2 - _)%Z).
  set (m' := match s with
             | Zpos _ => Z.shiftl (Zpos m1) s
             | Z0 => Zpos m1
             | Zneg _ => 0%Z
             end).
  assert (Hm' : (0 <= m')%Z).
  { unfold m'. destruct s; try lia. apply Z.shiftl_nonneg. lia. }
  pose proof (Z.div_pos m' (Zpos m2) Hm' ltac:(lia)) as Hq.
  unfold Z.div in Hq.
  destruct (Z.div_eucl m' (Zpos m2)) as [q r]. exact Hq.
Qed.

(** A quotient that does not overflow can be rounded to an [int]. *)
Lemma truediv_round (a b : Z) (q : spec_float) :
  PyNum.truediv a b = Ok q -> exists r, PyNum.round q = Ok r.
Proof.
  unfold PyNum.truediv.
  destruct (b =? 0)%Z eqn:Hb; [discriminate|].
  assert (Hn : SFdiv PyNum.prec PyNum.emax (PyNum.of_int_exact a)
                     (PyNum.of_int_exact b) <> S754_nan).
  { apply Z.eqb_neq in Hb.
    destruct a as [|pa|pa], b as [|pb|pb]; try lia; simpl;
      try discriminate;
      match goal with
      | |- context [SFdiv_core_binary ?p ?m ?x ?e1 ?y ?e2] =>
          pose proof (@SFdiv_core_binary_nonneg
                        (Z.to_pos x) (Z.to_pos y) e1 e2) as Hq;
          simpl Z.to_pos in Hq;
          destruct (SFdiv_core_binary p m x e1 y e2) as [[mz ez] lz]
      end; now apply binary_round_aux_not_nan. }
  destruct (SFdiv _ _ _ _) as [s|s| |s m e]; intros H;
    try discriminate; try congruence; injection H as <-; simpl; eauto.
Qed.

Lemma round_half_even_shift_nonneg (m k : Z) :
  (0 <= m)%Z -> (0 <= k)%Z -> (0 <= PyNum.round_half_even_shift m k)%Z.
Proof.
  intros Hm Hk. unfold PyNum.round_half_even_shift.
  assert (Hd : (0 < 2 ^ k)%Z) by (apply Z.pow_pos_nonneg; lia).
  assert (Hq : (0 <= m / 2 ^ k)%Z) by (apply Z.div_pos; lia).
  destruct (_ <? _)%Z; [lia|].
  destruct (_ <? _)%Z; [lia|].
  destruct (Z.even _); lia.
Qed.

Lemma round_negative (m : positive) (e r : Z) :
  PyNum.round (S754_finite true m e) = Ok r -> (r <= 0)%Z.
Proof.
  unfold PyNum.round. intros H.
  assert (Hr : r = (- (if (0 <=? e)%Z then Z.pos m * 2 ^ e
                       else PyNum.round_half_even_shift (Z.pos m) (- e)))%Z)
    by (injection H as <-; reflexivity).
  subst r. clear H.
  destruct (0 <=? e)%Z eqn:He.
  - apply Z.leb_le in He.
    assert (0 <= Z.pos m * 2 ^ e)%Z
      by (apply Z.mul_nonneg_nonneg; [lia | apply Z.pow_nonneg; lia]).
    lia.
  - apply Z.leb_gt in He.
    pose proof (@round_half_even_shift_nonneg (Zpos m) (- e)). lia.
Qed.

Lemma truediv_negative (p : positive) (x : spec_float) :
  PyNum.truediv (Zneg p) 1000 = Ok x ->
  match x with
  | S754_finite s _ _ => s = true
  | _ => True
  end.
Proof.
  unfold PyNum.truediv. simpl (_ =? _)%Z. cbv iota.
  unfold PyNum.of_int_exact, SFdiv.
  destruct (SFdiv_core_binary _ _ _ _ _ _) as [[mz ez] lz].
  pose proof (@binary_round_aux_sign (xorb true false) mz ez lz) as Hs.
  destruct (binary_round_aux _ _ _ _ _ _) as [s'|s'| |s' m e];
    intros H; try discriminate; injection H as <-; auto.
Qed.

Lemma ping_wait_secs_negative (t s : Z) :
  (t < 0)%Z -> ping_wait_secs t = Ok s -> s = 1%Z.
Proof.
  intros Ht. destruct t as [|p|p]; try lia.
  unfold ping_wait_secs.
  destruct (PyNum.truediv (Z.neg p) 1000) as [x|] eqn:Hq; cbn [rbind];
    [|discriminate].
  apply truediv_negative in Hq.
  destruct (PyNum.round x) as [r|] eqn:Hr; cbn [rbind]; [|discriminate].
  intros H. injection H as <-.
  destruct x as [s'|s'| |s' m e]; try discriminate.
  - injection Hr as <-. reflexivity.
  - subst s'. apply round_negative in Hr. lia.
Qed.

Lemma ping_wait_secs_small_check :
  forallb (fun t => result_is (ping_wait_secs t) 1) (zrange_from 0 (Z.to_nat 1500)) = true.
Proof. vm_compute. reflexivity. Qed.

Lemma ping_wait_secs_small (t : Z) :
  (0 <= t <= 1499)%Z -> ping_wait_secs t = Ok 1%Z.
Proof.
  intros Ht. apply result_is_true.
  apply (@forallb_zrange _ 0 (Z.to_nat 1500) ping_wait_secs_small_check).
  rewrite Z2Nat.id; lia.
Qed.

(** Up to ten seconds the float quotient rounds as the exact one does. *)
Lemma ping_wait_secs_exact_check :
  forallb (fun t => result_is (ping_wait_secs t)
                      (Z.max 1 (PyNum.round_half_even_div t 1000)))
          (zrange_from 0 (Z.to_nat 10001)) = true.
Proof. vm_compute. reflexivity. Qed.

Lemma ping_wait_secs_exact (t : Z) :
  (0 <= t <= 10000)%Z ->
  ping_wait_secs t = Ok (Z.max 1 (PyNum.round_half_even_div t 1000)).
Proof.
  intros Ht. apply result_is_true.
  apply (@forallb_zrange _ 0 (Z.to_nat 10001) ping_wait_secs_exact_check).
  rewrite Z2Nat.id; lia.
Qed.

(** Where the quotient by 1000 stops fitting a float: half-way between
    the largest float and [2^1024]. *)
Lemma truediv_overflow_threshold :
  PyNum.truediv (1000 * (2 ^ 1024 - 2 ^ 970)) 1000 = Raise OverflowError /\
  PyNum.truediv (1000 * (2 ^ 1024 - 2 ^ 970) - 1) 1000 =
    Ok (S754_finite false (2 ^ 53 - 1) 971) /\
  PyNum.truediv (- (1000 * (2 ^ 1024 - 2 ^ 970))) 1000 = Raise OverflowError.
Proof. vm_compute. repeat split; reflexivity. Qed.

(** [round_half_even_div] is a nearest integer of the exact quotient. *)
Lemma round_half_even_div_nearest (a b : Z) :
  (0 < b)%Z ->
  (2 * Z.abs (b * PyNum.round_half_even_div a b - a) <= b)%Z.
Proof.
  intros Hb. unfold PyNum.round_half_even_div.
  pose proof (Z.div_mod a b ltac:(lia)) as Hdm.
  pose proof (Z.mod_pos_bound a b Hb) as Hr.
  destruct (_ <? _)%Z eqn:H1; [apply Z.ltb_lt in H1; lia|].
  apply Z.ltb_ge in H1.
  destruct (_ <? _)%Z eqn:H2; [apply Z.ltb_lt in H2; lia|].
  apply Z.ltb_ge in H2.
  destruct (Z.even _); lia.
Qed.

Lemma ping_cmd_not_windows (platform_system ip : string) (timeout_ms : Z) :
  (PyStr.lower platform_system =? "windows") = false ->
  ping_cmd platform_system ip timeout_ms =
  rbind (ping_wait_secs timeout_ms)
        (fun secs => Ok ["ping"; "-c"; "1"; "-W"; PyStr.str secs; ip]).
Proof. intros H. unfold ping_cmd. now rewrite H. Qed.

Lemma ping_host_total platform_system run ip timeout_ms :
  exists b, ping_host platform_system run ip timeout_ms = Ok b.
Proof.
  unfold ping_host.
  destruct (ping_cmd platform_system ip timeout_ms) as [cmd|e]; simpl.
  - destruct (run cmd) as [rc|e]; simpl; eauto.
  - eauto.
Qed.

Lemma ping_host_spec platform_system run ip timeout_ms :
  ping_host platform_system run ip timeout_ms =
  Ok match ping_cmd platform_system ip timeout_ms with
     | Ok cmd => match run cmd with
                 | Ok rc => (rc =? 0)%Z
                 | Raise _ => false
                 end
     | Raise _ => false
     end.
Proof.
  unfold ping_host.
  destruct (ping_cmd platform_system ip timeout_ms) as [cmd|e]; simpl; auto.
  destruct (run cmd) as [rc|e]; simpl; auto.
Qed.

Lemma ping_host_ext platform_system (run1 run2 : list string -> result Z)
      ip timeout_ms :
  (forall cmd, run1 cmd = run2 cmd) ->
  ping_host platform_system run1 ip timeout_ms =
  ping_host platform_system run2 ip timeout_ms.
Proof.
  intros H. rewrite !ping_host_spec.
  destruct (ping_cmd platform_system ip timeout_ms) as [cmd|]; [|reflexivity].
  now rewrite H.
Qed.

(* ===================================================================== *)
(** * Order on strings and on sort keys *)
(* ===================================================================== *)

Lemma string_ltb_lt (a b : string) :
  (a <? b)%string = true <-> String_as_OT.lt a b.
Proof.
  unfold String.ltb. rewrite <- String_as_OT.cmp_lt. unfold String_as_OT.cmp.
  destruct (String.compare a b); split; congruence.
Qed.

Lemma string_lt_irrefl (a : string) : ~ String_as_OT.lt a a.
Proof.
  intros H. apply String_as_OT.lt_not_eq in H. apply H. reflexivity.
Qed.

Lemma string_lt_asym (a b : string) :
  String_as_OT.lt a b -> ~ String_as_OT.lt b a.
Proof.
  intros H1 H2. apply (@string_lt_irrefl a).
  eapply String_as_OT.lt_trans; eassumption.
Qed.

Lemma string_trichotomy (a b : string) :
  String_as_OT.lt a b \/ a = b \/ String_as_OT.lt b a.
Proof.
  destruct (String.compare a b) eqn:H.
  - right; left. now apply String_as_OT.cmp_eq.
  - left. now apply String_as_OT.cmp_lt.
  - right; right. apply String_as_OT.cmp_lt. unfold String_as_OT.cmp.
    rewrite String.compare_antisym, H. reflexivity.
Qed.

Lemma tuple_lt_spec (a b : string * string) :
  PySort.tuple_lt a b = true <-> key_lt a b.
Proof.
  unfold PySort.tuple_lt, key_lt.
  destruct (String.eqb_spec (fst a) (fst b)) as [E|N];
    rewrite string_ltb_lt; split; auto.
  - intros [H|[_ H]]; auto. rewrite E in H. now apply string_lt_irrefl in H.
  - intros [H|[H _]]; auto. contradiction.
Qed.

Lemma key_lt_irrefl (a : string * string) : ~ key_lt a a.
Proof.
  intros [H|[_ H]]; now apply string_lt_irrefl in H.
Qed.

Lemma key_lt_trans (a b c : string * string) :
  key_lt a b -> key_lt b c -> key_lt a c.
Proof.
  unfold key_lt. intros [H1|[E1 H1]] [H2|[E2 H2]].
  - left. eapply String_as_OT.lt_trans; eassumption.
  - left. now rewrite <- E2.
  - left. now rewrite E1.
  - right. split; [congruence|].
    eapply String_as_OT.lt_trans; eassumption.
Qed.

Lemma key_trichotomy (a b : string * string) :
  key_lt a b \/ a = b \/ key_lt b a.
Proof.
  destruct a as [a1 a2], b as [b1 b2]. unfold key_lt. simpl.
  destruct (string_trichotomy a1 b1) as [H|[H|H]]; auto.
  subst b1.
  destruct (string_trichotomy a2 b2) as [H|[H|H]]; auto.
  subst b2. auto.
Qed.

Lemma tuple_lt_false (a b : string * string) :
  PySort.tuple_lt b a = false <-> key_le a b.
Proof.
  rewrite <- Bool.not_true_iff_false, tuple_lt_spec. unfold key_le.
  split.
  - intros H. destruct (key_trichotomy a b) as [H1|[H1|H1]]; auto.
    contradiction.
  - intros [H|H] H'.
    + apply (@key_lt_irrefl a). eapply key_lt_trans; eassumption.
    + subst b. now apply key_lt_irrefl in H'.
Qed.

Lemma key_le_refl (a : string * string) : key_le a a.
Proof. now right. Qed.

Lemma key_le_trans (a b c : string * string) :
  key_le a b -> key_le b c -> key_le a c.
Proof.
  intros [H1|H1] [H2|H2]; subst; unfold key_le; auto.
  left. eapply key_lt_trans; eassumption.
Qed.

Lemma key_le_antisym (a b : string * string) :
  key_le a b -> key_le b a -> a = b.
Proof.
  intros [H1|H1] [H2|H2]; auto.
  exfalso. apply (@key_lt_irrefl a). eapply key_lt_trans; eassumption.
Qed.

Lemma tuple_lt_asym (a b : string * string) :
  PySort.tuple_lt a b = true -> PySort.tuple_lt b a = false.
Proof.
  rewrite tuple_lt_spec, tuple_lt_false. intros H. now left.
Qed.

Lemma tuple_lt_irrefl (a : string * string) : PySort.tuple_lt a a = false.
Proof. apply tuple_lt_false, key_le_refl. Qed.

(* ===================================================================== *)
(** * The sort *)
(* ===================================================================== *)

Section SortFacts.
Variables (A K : Type) (key : A -> K) (lt : K -> K -> bool).

Local Abbreviation insert := (PySort.insert key lt).
Local Abbreviation sort := (PySort.sort key lt).
Local Abbreviation not_after := (PySort.not_after key lt).

Lemma insert_perm (x : A) (l : list A) : Permutation (insert x l) (x :: l).
Proof.
  induction l as [|y l IH]; simpl; [reflexivity|].
  destruct (lt (key y) (key x)); [|reflexivity].
  rewrite IH. apply perm_swap.
Qed.

Lemma sort_perm (l : list A) : Permutation (sort l) l.
Proof.
  induction l as [|x l IH]; simpl; [reflexivity|].
  rewrite insert_perm. now constructor.
Qed.

Lemma sort_length (l : list A) : List.length (sort l) = List.length l.
Proof. apply Permutation_length, sort_perm. Qed.

Hypothesis lt_asym : forall a b, lt a b = true -> lt b a = false.

Lemma insert_sorted (x : A) (l : list A) :
  Sorted not_after l -> Sorted not_after (insert x l).
Proof.
  induction 1 as [|y l Hs IH Hd]; simpl.
  - repeat constructor.
  - destruct (lt (key y) (key x)) eqn:E.
    + constructor; [exact IH|].
      destruct Hd as [|z l Hyz]; simpl.
      * constructor. now apply lt_asym.
      * destruct (lt (key z) (key x)); constructor; auto.
        now apply lt_asym.
    + constructor; [now constructor|]. now constructor.
Qed.

Lemma sort_sorted (l : list A) : Sorted not_after (sort l).
Proof.
  induction l as [|x l IH]; simpl; [constructor|now apply insert_sorted].
Qed.

(** Stability: elements with one key keep their order. *)
Variable keq : K -> K -> bool.
Hypothesis keq_spec : forall a b, keq a b = true <-> a = b.

Lemma lt_irrefl_from_asym (a : K) : lt a a = false.
Proof.
  destruct (lt a a) eqn:E; [|reflexivity].
  now rewrite (@lt_asym _ _ E) in E.
Qed.

Lemma insert_with_key (k : K) (x : A) (l : list A) :
  PySort.with_key key keq k (insert x l) =
  PySort.with_key key keq k (x :: l).
Proof.
  unfold PySort.with_key.
  induction l as [|y l IH]; simpl; [reflexivity|].
  destruct (lt (key y) (key x)) eqn:E; [|reflexivity].
  simpl. rewrite IH. simpl.
  destruct (keq (key y) k) eqn:Ey, (keq (key x) k) eqn:Ex; try reflexivity.
  apply keq_spec in Ey, Ex. rewrite Ey, Ex in E.
  now rewrite lt_irrefl_from_asym in E.
Qed.

Lemma sort_stable (k : K) (l : list A) :
  PySort.with_key key keq k (sort l) = PySort.with_key key keq k l.
Proof.
  induction l as [|x l IH]; simpl; [reflexivity|].
  rewrite insert_with_key. unfold PySort.with_key in *. simpl.
  now rewrite IH.
Qed.

End SortFacts.

(** Two sorted arrangements of the same elements coincide when the order
    cannot tie distinct elements. *)
Lemma sorted_perm_unique (A : Type) (R : A -> A -> Prop) (l1 : list A) :
  forall l2,
    StronglySorted R l1 -> StronglySorted R l2 -> Permutation l1 l2 ->
    (forall a b, In a l1 -> In b l1 -> R a b -> R b a -> a = b) ->
    l1 = l2.
Proof.
  induction l1 as [|a l1 IH]; intros l2 S1 S2 P Hanti.
  - apply Permutation_nil in P. now subst.
  - destruct l2 as [|b l2].
    + apply Permutation_sym, Permutation_nil in P. discriminate.
    + inversion S1 as [|? ? S1' F1]; subst.
      inversion S2 as [|? ? S2' F2]; subst.
      assert (Hab : a = b).
      { assert (Ha : In a (b :: l2))
          by (eapply Permutation_in; [exact P|now left]).
        assert (Hb : In b (a :: l1))
          by (eapply Permutation_in; [apply Permutation_sym; exact P|now left]).
        destruct Ha as [->|Ha]; [reflexivity|].
        destruct Hb as [->|Hb]; [reflexivity|].
        rewrite Forall_forall in F1, F2.
        apply Hanti; [now left | now right | now apply F1 | now apply F2]. }
      subst b. f_equal.
      apply IH; auto.
      * eapply Permutation_cons_inv; exact P.
      * intros x y Hx Hy. apply Hanti; now right.
Qed.

(** The built-in sort is fixed by what it guarantees: a list that is a
    sorted rearrangement of [l] in which elements of equal key keep their
    order is [sort l]. *)
Section SortUnique.
Variables (A K : Type) (key : A -> K) (lt : K -> K -> bool).
Variable keq : K -> K -> bool.
Hypothesis keq_spec : forall a b, keq a b = true <-> a = b.
Hypothesis lt_asym : forall a b, lt a b = true -> lt b a = false.
Hypothesis lt_total : forall a b, lt a b = false -> lt b a = false -> a = b.
Hypothesis lt_trans :
  forall a b c, lt a b = true -> lt b c = true -> lt a c = true.

Local Abbreviation not_after := (PySort.not_after key lt).
Local Abbreviation with_key := (PySort.with_key key keq).

Lemma not_after_trans (x y z : A) :
  not_after x y -> not_after y z -> not_after x z.
Proof.
  unfold PySort.not_after. intros H1 H2.
  destruct (lt (key z) (key x)) eqn:E; [|reflexivity].
  destruct (lt (key y) (key z)) eqn:E'.
  - now rewrite (lt_trans E' E) in H1.
  - rewrite (lt_total H2 E') in E. congruence.
Qed.

Lemma stable_sorted_unique (l1 : list A) :
  forall l2,
    StronglySorted not_after l1 -> StronglySorted not_after l2 ->
    Permutation l1 l2 ->
    (forall k, with_key k l1 = with_key k l2) ->
    l1 = l2.
Proof.
  induction l1 as [|a l1 IH]; intros l2 S1 S2 P Hk.
  - apply Permutation_nil in P. now subst.
  - destruct l2 as [|b l2].
    + apply Permutation_sym, Permutation_nil in P. discriminate.
    + inversion S1 as [|? ? S1' F1]; subst.
      inversion S2 as [|? ? S2' F2]; subst.
      rewrite Forall_forall in F1, F2.
      assert (Hrefl : forall x : A, not_after x x).
      { intros x. unfold PySort.not_after.
        destruct (lt (key x) (key x)) eqn:E; [|reflexivity].
        now rewrite (lt_asym E) in E. }
      assert (Hab : not_after a b).
      { assert (Hb : In b (a :: l1))
          by (eapply Permutation_in; [apply Permutation_sym; exact P|now left]).
        destruct Hb as [->|Hb]; [apply Hrefl|now apply F1]. }
      assert (Hba : not_after b a).
      { assert (Ha : In a (b :: l2))
          by (eapply Permutation_in; [exact P|now left]).
        destruct Ha as [->|Ha]; [apply Hrefl|now apply F2]. }
      assert (Ekey : key a = key b) by (apply lt_total; assumption).
      pose proof (Hk (key a)) as Hka. unfold PySort.with_key in Hka.
      simpl in Hka.
      rewrite (proj2 (keq_spec (key a) (key a)) eq_refl) in Hka.
      rewrite (proj2 (keq_spec (key b) (key a)) (eq_sym Ekey)) in Hka.
      injection Hka as -> _. f_equal.
      apply IH; auto.
      * eapply Permutation_cons_inv; exact P.
      * intros k. specialize (Hk k). unfold PySort.with_key in *.
        simpl in Hk. destruct (keq (key b) k); [now injection Hk|exact Hk].
Qed.

Lemma sort_characterised (l l' : list A) :
  Permutation l' l -> Sorted not_after l' ->
  (forall k, with_key k l' = with_key k l) ->
  l' = PySort.sort key lt l.
Proof.
  intros P S Hk.
  assert (T : Relations_1.Transitive not_after)
    by (intros x y z; apply not_after_trans).
  apply stable_sorted_unique.
  - now apply Sorted_StronglySorted.
  - apply Sorted_StronglySorted; [exact T|]. now apply sort_sorted.
  - rewrite P. apply Permutation_sym, sort_perm.
  - intros k. rewrite Hk. symmetry. now apply sort_stable.
Qed.

End SortUnique.

Lemma key_eqb_spec (a b : string * string) : key_eqb a b = true <-> a = b.
Proof.
  destruct a as [a1 a2], b as [b1 b2]. unfold key_eqb. simpl.
  rewrite andb_true_iff, !String.eqb_eq. split.
  - intros [-> ->]. reflexivity.
  - intros H. injection H as -> ->. auto.
Qed.

Lemma tuple_lt_total (a b : string * string) :
  PySort.tuple_lt a b = false -> PySort.tuple_lt b a = false -> a = b.
Proof.
  rewrite !tuple_lt_false. intros H1 H2. now apply key_le_antisym.
Qed.

Lemma tuple_lt_trans (a b c : string * string) :
  PySort.tuple_lt a b = true -> PySort.tuple_lt b c = true ->
  PySort.tuple_lt a c = true.
Proof. rewrite !tuple_lt_spec. apply key_lt_trans. Qed.

(** The report is the only stable sorted rearrangement of the collected
    results. *)
Lemma report_sort_characterised (out report : list ProbeResult) :
  Permutation report out ->
  Sorted (PySort.not_after sort_key PySort.tuple_lt) report ->
  (forall k, PySort.with_key sort_key key_eqb k report =
             PySort.with_key sort_key key_eqb k out) ->
  report = PySort.sort sort_key PySort.tuple_lt out.
Proof.
  apply sort_characterised.
  - exact key_eqb_spec.
  - exact tuple_lt_asym.
  - exact tuple_lt_total.
  - exact tuple_lt_trans.
Qed.

(** The relation under which the report is sorted. *)
Lemma report_order_transitive :
  Relations_1.Transitive
    (fun x y : ProbeResult => key_le (sort_key x) (sort_key y)).
Proof. intros x y z. apply key_le_trans. Qed.

Lemma sort_by_key_sorted (l : list ProbeResult) :
  StronglySorted (fun x y => key_le (sort_key x) (sort_key y))
                 (PySort.sort sort_key PySort.tuple_lt l).
Proof.
  apply Sorted_StronglySorted; [exact report_order_transitive|].
  pose proof (@sort_sorted _ _ sort_key PySort.tuple_lt tuple_lt_asym l) as H.
  eapply Sorted_ind with (P := Sorted _) in H.
  - exact H.
  - constructor.
  - intros a l' _ IH Hd. constructor; [exact IH|].
    destruct Hd; constructor. now apply tuple_lt_false.
Qed.

(* ===================================================================== *)
(** * Completion orders *)
(* ===================================================================== *)

Section CompletionFacts.
Variable A : Type.

Lemma extract_perm (k : nat) (l : list A) :
  forall x rest, extract k l = Some (x, rest) -> Permutation l (x :: rest).
Proof.
  revert k. induction l as [|y l IH]; intros k x rest; simpl.
  - discriminate.
  - destruct k as [|k].
    + intros H. injection H as <- <-. reflexivity.
    + destruct (extract k l) as [[z r]|] eqn:E; [|discriminate].
      intros H. injection H as <- <-.
      rewrite (IH _ _ _ E). apply perm_swap.
Qed.

Lemma extract_lt (k : nat) (l : list A) :
  k < List.length l -> exists x rest, extract k l = Some (x, rest).
Proof.
  revert k. induction l as [|y l IH]; intros k; simpl; [lia|].
  destruct k as [|k]; [eauto|].
  intros H. destruct (IH k ltac:(lia)) as (x & rest & E).
  rewrite E. eauto.
Qed.

Lemma extract_In (x : A) (l : list A) :
  In x l ->
  exists k rest, k < List.length l /\ extract k l = Some (x, rest).
Proof.
  induction l as [|y l IH]; simpl; [contradiction|].
  intros [->|H].
  - exists 0, l. split; [lia|reflexivity].
  - destruct (IH H) as (k & rest & Hk & E).
    exists (S k), (y :: rest). split; [lia|]. simpl. now rewrite E.
Qed.

(** Whatever the schedule, every pending future is yielded once. *)
Lemma as_completed_from_perm (n : nat) :
  forall sched (l : list A),
    List.length l = n -> Permutation (as_completed_from n sched l) l.
Proof.
  induction n as [|n IH]; intros sched l Hl; simpl.
  - destruct l; [reflexivity|discriminate].
  - assert (Hk : hd 0 sched mod List.length l < List.length l)
      by (apply Nat.mod_upper_bound; lia).
    destruct (extract_lt _ Hk) as (x & rest & E). rewrite E.
    pose proof (extract_perm _ _ E) as P.
    rewrite P. constructor. apply IH.
    apply Permutation_length in P. simpl in P. lia.
Qed.

Lemma as_completed_perm (sched : list nat) (l : list A) :
  Permutation (as_completed sched l) l.
Proof. now apply as_completed_from_perm. Qed.

(** Conversely, every order of the futures is the completion order of
    some schedule. *)
Lemma as_completed_complete (l' : list A) :
  forall l, Permutation l l' -> exists sched, as_completed sched l = l'.
Proof.
  induction l' as [|x l' IH]; intros l P.
  - apply Permutation_sym, Permutation_nil in P. subst. now exists [].
  - assert (Hx : In x l)
      by (eapply Permutation_in; [apply Permutation_sym; exact P|now left]).
    destruct (extract_In _ _ Hx) as (k & rest & Hk & E).
    pose proof (extract_perm _ _ E) as P'.
    assert (Pr : Permutation rest l').
    { eapply Permutation_cons_inv. rewrite <- P'. exact P. }
    destruct (IH _ Pr) as (sched & Hs).
    exists (k :: sched). unfold as_completed in *.
    pose proof (Permutation_length P') as Hlen. simpl in Hlen.
    rewrite Hlen. simpl as_completed_from.
    replace (k mod List.length l) with k by (symmetry; now apply Nat.mod_small).
    rewrite E. now rewrite Hs.
Qed.

End CompletionFacts.

(* ===================================================================== *)
(** * Properties of the coordinator *)
(* ===================================================================== *)

Section CoordinatorFacts.
Variable platform_system : string.
Variable subprocess_run : nat -> list string -> result Z.

Local Abbreviation futures_from := (submit_all platform_system subprocess_run).

Lemma submit_all_devices (devices : list Device) :
  forall i, map snd (futures_from i devices) = devices.
Proof.
  induction devices as [|d ds IH]; intros i; simpl; [reflexivity|].
  now rewrite IH.
Qed.

Lemma submit_all_length (devices : list Device) :
  forall i, List.length (futures_from i devices) = List.length devices.
Proof.
  intros i. rewrite <- (submit_all_devices devices i) at 2.
  now rewrite length_map.
Qed.

Lemma submit_all_nth (devices : list Device) :
  forall i k d,
    nth_error devices k = Some d ->
    nth_error (futures_from i devices) k =
    Some (ping_host platform_system (subprocess_run (i + k)) (ip d)
                    default_timeout_ms, d).
Proof.
  induction devices as [|d0 ds IH]; intros i k d; destruct k; simpl;
    try discriminate.
  - intros H. injection H as <-. now rewrite Nat.add_0_r.
  - intros H. rewrite (IH (S i) k d H).
    now replace (S i + k) with (i + S k) by lia.
Qed.

Lemma result_device_make (d : Device) (r : result bool) :
  result_device (make_result d r) = d.
Proof. now destruct d. Qed.

Lemma collect_perm (sched : list nat) (devices : list Device) :
  Permutation (collect platform_system subprocess_run sched devices)
              (map (fun fd => make_result (snd fd) (fst fd))
                   (futures_from 0 devices)).
Proof. unfold collect. apply Permutation_map, as_completed_perm. Qed.

Lemma bulk_status_perm (sched : list nat) (devices : list Device) :
  Permutation (bulk_status platform_system subprocess_run sched devices)
              (map (fun fd => make_result (snd fd) (fst fd))
                   (futures_from 0 devices)).
Proof.
  unfold bulk_status. rewrite sort_perm. apply collect_perm.
Qed.

Lemma bulk_status_devices (sched : list nat) (devices : list Device) :
  Permutation
    (map result_device
         (bulk_status platform_system subprocess_run sched devices))
    devices.
Proof.
  rewrite (Permutation_map result_device (bulk_status_perm sched devices)).
  rewrite map_map.
  rewrite (map_ext _ snd) by (intros [r d]; apply result_device_make).
  now rewrite submit_all_devices.
Qed.

End CoordinatorFacts.

(** ** The seed registry *)

(** Whichever probe completes first, Cloudflare comes first in the
    report. *)
Example seed_report (sched : list nat) :
  sched = [0] \/ sched = [1] ->
  bulk_status "Linux" only_cloudflare_up sched [google; cloudflare] =
  [mkResult "c" "Cloudflare DNS" "1.1.1.1" true;
   mkResult "g" "Google DNS" "8.8.8.8" false].
Proof. intros [-> | ->]; vm_compute; reflexivity. Qed.

Example seed_report_windows :
  bulk_status "Windows" only_cloudflare_up [] [google; cloudflare] =
  [mkResult "c" "Cloudflare DNS" "1.1.1.1" true;
   mkResult "g" "Google DNS" "8.8.8.8" false].
Proof. vm_compute. reflexivity. Qed.

Example ping_cmd_linux :
  ping_cmd "Linux" "8.8.8.8" 1200 =
  Ok ["ping"; "-c"; "1"; "-W"; "1"; "8.8.8.8"].
Proof. vm_compute. reflexivity. Qed.

Example ping_cmd_windows :
  ping_cmd "Windows" "8.8.8.8" 1200 =
  Ok ["ping"; "-n"; "1"; "-w"; "1200"; "8.8.8.8"].
Proof. vm_compute. reflexivity. Qed.

Example ping_wait_secs_ties :
  map ping_wait_secs [500; 1500; 2500; 3500; -1500]%Z =
  [Ok 1; Ok 2; Ok 2; Ok 4; Ok 1]%Z.
Proof. vm_compute. reflexivity. Qed.

(** ** Outcomes that depend on the address only *)

Section Determinism.
Variable platform_system : string.
Variable devices : list Device.

Local Abbreviation distinct_keys := (distinct_keys devices).
Local Abbreviation same_outcomes := (same_outcomes platform_system devices).

Lemma submit_all_outcomes (run : nat -> list string -> result Z)
      (f : string -> result bool) (ds : list Device) :
  (forall i d, In d ds ->
     ping_host platform_system (run i) (ip d) default_timeout_ms = f (ip d)) ->
  forall k,
    map (fun fd => make_result (snd fd) (fst fd))
        (submit_all platform_system run k ds) =
    map (fun d => make_result d (f (ip d))) ds.
Proof.
  induction ds as [|d ds IH]; intros H k; simpl; [reflexivity|].
  rewrite (H k d) by now left.
  rewrite IH; [reflexivity|]. intros i d' Hd. apply H. now right.
Qed.

(** Devices with pairwise distinct addresses have distinct keys. *)
Lemma distinct_ips_distinct_keys : NoDup (map ip devices) -> distinct_keys.
Proof.
  intros Hnd d1 d2 H1 H2 _ Hip.
  clear platform_system. induction devices as [|d ds IH]; [contradiction|].
  simpl in Hnd. inversion Hnd as [|? ? Hni Hnd']; subst.
  destruct H1 as [->|H1], H2 as [->|H2]; auto.
  - exfalso. apply Hni. rewrite Hip. now apply in_map.
  - exfalso. apply Hni. rewrite <- Hip. now apply in_map.
Qed.

Lemma distinct_keys_no_tie (f : string -> result bool) (a b : ProbeResult) :
  distinct_keys ->
  In a (map (fun d => make_result d (f (ip d))) devices) ->
  In b (map (fun d => make_result d (f (ip d))) devices) ->
  key_le (sort_key a) (sort_key b) -> key_le (sort_key b) (sort_key a) ->
  a = b.
Proof.
  intros Hk Ha Hb H1 H2.
  apply in_map_iff in Ha, Hb.
  destruct Ha as (d1 & <- & Hd1), Hb as (d2 & <- & Hd2).
  pose proof (key_le_antisym H1 H2) as E.
  unfold sort_key in E. simpl in E. injection E as En Ei.
  now rewrite (Hk d1 d2 Hd1 Hd2 En Ei).
Qed.

End Determinism.

(* ===================================================================== *)
(** * The round as a concurrent system: invariants *)
(* ===================================================================== *)

Lemma max_workers_bounds (devices : list Device) :
  (4 <= max_workers devices <= 64)%Z.
Proof. unfold max_workers. lia. Qed.

Lemma in_flight_app (t1 t2 : list event) :
  in_flight (t1 ++ t2) = (in_flight t1 + in_flight t2)%Z.
Proof.
  induction t1 as [|e t1 IH]; simpl; [reflexivity|].
  destruct e; rewrite ?IH; lia.
Qed.

Section RoundFacts.
Variable platform_system : string.
Variable subprocess_run : nat -> list string -> result Z.
Variable devices : list Device.

Local Abbreviation step' := (step platform_system subprocess_run devices).
Local Abbreviation reachable' :=
  (reachable platform_system subprocess_run devices).
Local Abbreviation pool_inv := (pool_inv devices).

Lemma pool_inv_step (s s' : Round) :
  pool_inv s -> step' s s' -> pool_inv s'.
Proof.
  intros (H1 & H2 & H3 & H4) Hstep.
  pose proof (max_workers_bounds devices) as HW.
  destruct Hstep; unfold pool_inv; simpl;
    rewrite ?in_flight_app; simpl; repeat split; try lia.
  - rewrite length_app. simpl. lia.
  - rewrite length_app. simpl. lia.
  - rewrite H in H1. rewrite length_app in *. simpl in *. lia.
  - rewrite H in H4. rewrite length_app in *. simpl in *. lia.
Qed.

Lemma pool_inv_reachable (s : Round) : reachable' s -> pool_inv s.
Proof.
  induction 1 as [|s s' _ IH Hstep].
  - pose proof (max_workers_bounds devices).
    unfold pool_inv; simpl; repeat split; lia.
  - eapply pool_inv_step; eassumption.
Qed.

End RoundFacts.

(** ** The bound at every moment *)

Section InFlight.
Variable platform_system : string.
Variable subprocess_run : nat -> list string -> result Z.
Variable devices : list Device.

(** The bound holds at every moment of a round: for every prefix of its
    trace. *)
Lemma in_flight_prefix_bound (s : Round) :
  reachable platform_system subprocess_run devices s ->
  forall t1 t2, trace s = (t1 ++ t2)%list ->
    (0 <= in_flight t1 <= max_workers devices)%Z.
Proof.
  assert (Hsnoc : forall (t : list event) (e : event) t1 t2,
             (t ++ [e] = t1 ++ t2)%list ->
             (exists t2', t = t1 ++ t2')%list \/ t1 = (t ++ [e])%list).
  { intros t e t1 t2 H.
    destruct (List.rev t2) as [|e' r2] eqn:Er.
    - right. apply (f_equal (@List.rev _)) in Er.
      rewrite rev_involutive in Er. simpl in Er. subst t2.
      now rewrite app_nil_r in H.
    - left. apply (f_equal (@List.rev _)) in Er.
      rewrite rev_involutive in Er. simpl in Er. subst t2.
      rewrite app_assoc in H. apply app_inj_tail in H.
      destruct H as [H _]. eauto. }
  induction 1 as [|s s' Hr IH Hstep]; intros t1 t2 Ht.
  - pose proof (max_workers_bounds devices).
    simpl in Ht. symmetry in Ht. apply app_eq_nil in Ht.
    destruct Ht as [-> _]. simpl. lia.
  - pose proof (pool_inv_reachable Hr) as (I1 & I2 & I3 & I4).
    pose proof (pool_inv_reachable (reach_step Hr Hstep))
      as (J1 & J2 & J3 & J4).
    assert (Hfull : (0 <= in_flight (trace s') <= max_workers devices)%Z)
      by lia.
    assert (Hone : forall e, trace s' = (trace s ++ [e])%list ->
              (0 <= in_flight t1 <= max_workers devices)%Z).
    { intros e He. rewrite He in Ht.
      destruct (Hsnoc _ _ _ _ Ht) as [[t2' H']| ->].
      - eapply IH; eassumption.
      - now rewrite <- He. }
    destruct Hstep; simpl in *; try (eapply Hone; reflexivity).
    + (* submit with a new thread: two events *)
      change (trace s ++ [EvSubmit i (ip d); EvSpawn])%list
        with (trace s ++ [EvSubmit i (ip d)] ++ [EvSpawn])%list in Ht.
      rewrite app_assoc in Ht.
      destruct (Hsnoc _ _ _ _ Ht) as [[t2' H']| ->].
      * destruct (Hsnoc _ _ _ _ H') as [[t2'' H'']| ->].
        -- eapply IH; eassumption.
        -- rewrite in_flight_app. simpl. lia.
      * rewrite !in_flight_app. simpl. lia.
    + eapply IH; eassumption.
Qed.

End InFlight.

(** ** The round on an empty device list *)

Section EmptyRound.
Variable platform_system : string.
Variable subprocess_run : nat -> list string -> result Z.

Lemma empty_round_states (s : Round) :
  reachable platform_system subprocess_run [] s ->
  s = initial \/ s = empty_1 \/ s = empty_2 \/ s = empty_3.
Proof.
  induction 1 as [|s s' _ IH Hstep]; [now left|].
  destruct IH as [-> | [-> | [-> | ->]]]; inversion Hstep; simpl in *;
    try discriminate;
    try match goal with
        | H : [] = (?r1 ++ _ :: _)%list |- _ => destruct r1; discriminate H
        | H : Collecting _ _ _ = Collecting _ (?w1 ++ _ :: _) _ |- _ =>
            injection H as _ Hw _; destruct w1; discriminate Hw
        end;
    repeat match goal with
           | H : Submitting _ _ _ = Submitting _ _ _ |- _ =>
               injection H; clear H; intros; subst
           | H : Collecting _ _ _ = Collecting _ _ _ |- _ =>
               injection H; clear H; intros; subst
           end;
    first [ left; reflexivity | right; left; reflexivity
          | right; right; left; reflexivity
          | right; right; right; reflexivity ].
Qed.

Lemma empty_round_returns :
  reachable platform_system subprocess_run [] empty_3.
Proof.
  assert (R1 : reachable platform_system subprocess_run [] empty_1).
  { eapply reach_step; [apply reach_initial|].
    apply (@step_create platform_system subprocess_run [] initial).
    reflexivity. }
  assert (R2 : reachable platform_system subprocess_run [] empty_2).
  { eapply reach_step; [exact R1|].
    apply (@step_submitted platform_system subprocess_run [] empty_1 0 []).
    reflexivity. }
  eapply reach_step; [exact R2|].
  apply (@step_return platform_system subprocess_run [] empty_2 [] []).
  reflexivity.
Qed.

End EmptyRound.

(* ===================================================================== *)
(** * [str.strip] *)
(* ===================================================================== *)

Lemma lstrip_decomp (s : string) :
  exists pre, s = pre ++ PyStr.lstrip s /\ PyStr.all_space pre = true.
Proof.
  induction s as [|c s IH]; simpl.
  - now exists "".
  - destruct (PyStr.is_space c) eqn:E.
    + destruct IH as (pre & H1 & H2). exists (String c pre). simpl.
      rewrite E, H2. split; [now f_equal|reflexivity].
    + now exists "".
Qed.

Lemma lstrip_first (s : string) (c : ascii) :
  PyStr.first_char (PyStr.lstrip s) = Some c -> PyStr.is_space c = false.
Proof.
  induction s as [|a s IH]; simpl; [discriminate|].
  destruct (PyStr.is_space a) eqn:E; [exact IH|].
  simpl. intros H. injection H as <-. exact E.
Qed.

Lemma rstrip_decomp (s : string) :
  exists post, s = PyStr.rstrip s ++ post /\ PyStr.all_space post = true.
Proof.
  induction s as [|c s IH]; simpl.
  - now exists "".
  - destruct IH as (post & H1 & H2).
    destruct (PyStr.rstrip s) as [|a r] eqn:Er.
    + simpl in H1. subst post.
      destruct (PyStr.is_space c) eqn:E.
      * exists (String c s). simpl. now rewrite E, H2.
      * exists s. now split.
    + exists post. simpl. split; [|exact H2]. now rewrite H1 at 1.
Qed.

Lemma rstrip_last (s : string) (c : ascii) :
  PyStr.last_char (PyStr.rstrip s) = Some c -> PyStr.is_space c = false.
Proof.
  induction s as [|a s IH]; simpl; [discriminate|].
  destruct (PyStr.rstrip s) as [|b r] eqn:Er.
  - destruct (PyStr.is_space a) eqn:E; simpl; [discriminate|].
    intros H. injection H as <-. exact E.
  - exact IH.
Qed.

Lemma rstrip_first (s : string) (c : ascii) :
  PyStr.first_char (PyStr.rstrip s) = Some c -> PyStr.first_char s = Some c.
Proof.
  destruct s as [|a s]; simpl; [discriminate|].
  destruct (PyStr.rstrip s) as [|b r].
  - destruct (PyStr.is_space a); simpl; [discriminate|auto].
  - auto.
Qed.

(** [strip] removes a run of spaces at each end and nothing else, and what
    it returns neither begins nor ends with a space. *)
Lemma strip_spec (s : string) :
  (exists pre post,
      s = pre ++ PyStr.strip s ++ post /\
      PyStr.all_space pre = true /\ PyStr.all_space post = true) /\
  (forall c, PyStr.first_char (PyStr.strip s) = Some c ->
             PyStr.is_space c = false) /\
  (forall c, PyStr.last_char (PyStr.strip s) = Some c ->
             PyStr.is_space c = false).
Proof.
  unfold PyStr.strip. repeat split.
  - destruct (lstrip_decomp s) as (pre & H1 & H2).
    destruct (rstrip_decomp (PyStr.lstrip s)) as (post & H3 & H4).
    exists pre, post. repeat split; auto. now rewrite <- H3.
  - intros c H. apply rstrip_first in H. now apply lstrip_first in H.
  - intros c H. now apply rstrip_last in H.
Qed.

(* ===================================================================== *)
(** * Properties of the storage and of the routes *)
(* ===================================================================== *)

Section RegistryFacts.
Variable uuid4 : nat -> string.

Lemma ensure_ids_complete (ds : list Device) (st : Store) :
  ensure_ids uuid4 (map to_stored ds) st = ((ds, false), st).
Proof.
  induction ds as [|d ds IH]; [reflexivity|].
  simpl. unfold bind, ret. simpl. rewrite IH. simpl. now destruct d.
Qed.

Lemma has_id_to_stored (data : list Stored) :
  forallb has_id data = true ->
  exists ds, data = map to_stored ds.
Proof.
  induction data as [|d data IH]; simpl.
  - now exists [].
  - intros H. apply andb_prop in H. destruct H as [Hd Hr].
    destruct (IH Hr) as (ds & ->).
    destruct d as [[i|] n a]; [|discriminate].
    now exists (mkDevice i n a :: ds).
Qed.

(** The loop keeps length, names, addresses and the ids already there; it
    touches neither the file nor the write log. *)
Lemma ensure_ids_spec (data : list Stored) :
  forall st ds upd st',
    ensure_ids uuid4 data st = ((ds, upd), st') ->
    map name ds = map s_name data /\
    map ip ds = map s_ip data /\
    Forall2 (fun s d => forall i, s_id s = Some i -> id d = i) data ds /\
    file st' = file st /\ writes st' = writes st /\
    (upd = false -> st' = st /\ data = map to_stored ds).
Proof.
  induction data as [|d data IH]; intros st ds upd st'; simpl.
  - unfold ret. intros H. injection H as <- <- <-. repeat split; auto.
  - unfold bind, ret.
    destruct (s_id d) as [i|] eqn:Ei.
    + destruct (ensure_ids uuid4 data st) as [[ds0 u0] st0] eqn:E.
      simpl. intros H. injection H as <- <- <-.
      destruct (IH _ _ _ _ E) as (H1 & H2 & H3 & H4 & H5 & H6).
      simpl. rewrite H1, H2. repeat split; auto.
      * constructor; auto. simpl. congruence.
      * now apply H6.
      * destruct (H6 H) as [_ ->]. destruct d. simpl in *. now subst.
    + unfold new_uuid at 1.
      match goal with |- context [ensure_ids uuid4 data ?s] =>
        destruct (ensure_ids uuid4 data s) as [[ds0 u0] st0] eqn:E end.
      simpl. intros H. injection H as <- <- <-.
      destruct (IH _ _ _ _ E) as (H1 & H2 & H3 & H4 & H5 & H6).
      simpl in *. rewrite H1, H2. repeat split; auto; try discriminate.
      constructor; auto. simpl. congruence.
Qed.

Lemma load_devices_unfold (st : Store) :
  load_devices uuid4 st =
  match file st with
  | Some data =>
      let '((ds, upd), st1) := ensure_ids uuid4 data st in
      if upd then
        (ds, {| file := Some (map to_stored ds);
                writes := (writes st1 ++ [map to_stored ds])%list;
                uuid_calls := uuid_calls st1 |})
      else (ds, st1)
  | None =>
      ([], {| file := Some []; writes := (writes st ++ [[]])%list;
              uuid_calls := uuid_calls st |})
  end.
Proof.
  unfold load_devices, bind, path_exists, read_json, ret.
  destruct (file st) as [data|] eqn:Hf.
  - rewrite Hf.
    destruct (ensure_ids uuid4 data st) as [[ds upd] st1].
    simpl. now destruct upd.
  - reflexivity.
Qed.

Lemma load_devices_complete (ds : list Device) (st : Store) :
  file st = Some (map to_stored ds) ->
  load_devices uuid4 st = (ds, st).
Proof.
  intros Hf. rewrite load_devices_unfold, Hf.
  now rewrite ensure_ids_complete.
Qed.

(** What [load_devices] leaves on disk is what it returns; it keeps the
    length, names, addresses and present ids of a file that exists. *)
Lemma load_devices_file (st : Store) (ds : list Device) (st' : Store) :
  load_devices uuid4 st = (ds, st') ->
  file st' = Some (map to_stored ds) /\
  (forall data, file st = Some data ->
     map name ds = map s_name data /\ map ip ds = map s_ip data /\
     Forall2 (fun s d => forall i, s_id s = Some i -> id d = i) data ds).
Proof.
  rewrite load_devices_unfold.
  destruct (file st) as [data|] eqn:Hf.
  - destruct (ensure_ids uuid4 data st) as [[ds0 u0] st0] eqn:E.
    destruct (ensure_ids_spec _ _ E) as (H1 & H2 & H3 & H4 & H5 & H6).
    destruct u0; intros H; injection H as <- <-.
    + split; [reflexivity|].
      intros data' Hd. injection Hd as <-. auto.
    + destruct (H6 eq_refl) as [-> Hd]. split.
      * now rewrite Hf, Hd.
      * intros data' Hd'. injection Hd' as <-. auto.
  - intros H. injection H as <- <-. split; [reflexivity|].
    intros data H. discriminate.
Qed.

End RegistryFacts.

(** ** The routes on a small store *)

Example add_empty_name :
  fst (add_device (fun _ => "u") (mkAdd (Some "") (Some "1.2.3.4"))
                  (mkStore None [] 0))
  = (JError "name and ip are required", 400%Z).
Proof. reflexivity. Qed.

Example add_then_duplicate :
  let uuid4 := fun n : nat => ("uuid-" ++ PyStr.str (Z.of_nat n))%string in
  let st1 := snd (add_device uuid4 (mkAdd (Some " Printer ") (Some "10.0.0.7 "))
                             (mkStore None [] 0)) in
  file st1 = Some [mkStored (Some "uuid-0") "Printer" "10.0.0.7"] /\
  writes st1 = [[]; [mkStored (Some "uuid-0") "Printer" "10.0.0.7"]] /\
  add_device uuid4 (mkAdd (Some "X") (Some "10.0.0.7")) st1 =
    ((JError "device with this IP already exists", 409%Z), st1).
Proof. vm_compute. repeat split; reflexivity. Qed.

Example delete_twice :
  let st := mkStore (Some (map to_stored [google; cloudflare])) [] 0 in
  let st1 := snd (delete_device (fun _ => "u") "g" st) in
  file st1 = Some [to_stored cloudflare] /\
  delete_device (fun _ => "u") "g" st1 = ((JError "not found", 404%Z), st1).
Proof. vm_compute. repeat split; reflexivity. Qed.

(** ** The routes, unfolded *)

Section RouteFacts.
Variable uuid4 : nat -> string.

Lemma add_device_unfold (data : AddRequest) (st : Store) :
  add_device uuid4 data st =
  let name := PyStr.strip (or_empty (req_name data)) in
  let ip := PyStr.strip (or_empty (req_ip data)) in
  if PyStr.is_empty name || PyStr.is_empty ip then
    ((JError "name and ip are required", 400%Z), st)
  else
    let (devices, st1) := load_devices uuid4 st in
    if existsb (same_ip ip) devices then
      ((JError "device with this IP already exists", 409%Z), st1)
    else
      let new_dev := mkDevice (uuid4 (uuid_calls st1)) name ip in
      let saved := map to_stored (devices ++ [new_dev]) in
      ((JDevice new_dev, 201%Z),
       {| file := Some saved; writes := (writes st1 ++ [saved])%list;
          uuid_calls := S (uuid_calls st1) |}).
Proof.
  unfold add_device. cbv zeta.
  destruct (_ || _); [reflexivity|].
  unfold bind. destruct (load_devices uuid4 st) as [devices st1].
  destruct (existsb _ devices); reflexivity.
Qed.

Lemma delete_device_unfold (dev_id : string) (st : Store) :
  delete_device uuid4 dev_id st =
  let (devices, st1) := load_devices uuid4 st in
  let new_list := filter (fun d => negb (id d =? dev_id)%string) devices in
  if (List.length new_list =? List.length devices)%nat then
    ((JError "not found", 404%Z), st1)
  else
    ((JOkTrue, 200%Z),
     {| file := Some (map to_stored new_list);
        writes := (writes st1 ++ [map to_stored new_list])%list;
        uuid_calls := uuid_calls st1 |}).
Proof.
  unfold delete_device, bind.
  destruct (load_devices uuid4 st) as [devices st1]. cbv zeta.
  destruct (_ =? _)%nat; reflexivity.
Qed.

End RouteFacts.

Lemma filter_length_le (A : Type) (f : A -> bool) (l : list A) :
  List.length (filter f l) <= List.length l.
Proof.
  induction l as [|x l IH]; simpl; [lia|]. destruct (f x); simpl; lia.
Qed.

Lemma filter_keeps_all (A : Type) (f : A -> bool) (l : list A) :
  List.length (filter f l) = List.length l <-> forall x, In x l -> f x = true.
Proof.
  induction l as [|x l IH]; simpl.
  - split; [contradiction|reflexivity].
  - pose proof (filter_length_le f l) as Hle.
    destruct (f x) eqn:E; simpl.
    + split.
      * intros H y [<-|Hy]; [exact E|]. apply IH; [lia|exact Hy].
      * intros H. f_equal. apply IH. auto.
    + split; [lia|]. intros H. specialize (H x (or_introl eq_refl)). congruence.
Qed.

(** Removing the elements with a given id from a list without repeated ids
    takes out one element and leaves the others in place. *)
Lemma filter_removes_one (ds : list Device) (dev_id : string) :
  NoDup (map id ds) -> In dev_id (map id ds) ->
  exists l1 d l2,
    ds = (l1 ++ d :: l2)%list /\ id d = dev_id /\
    filter (fun d => negb (id d =? dev_id)%string) ds = (l1 ++ l2)%list.
Proof.
  induction ds as [|d ds IH]; simpl; [contradiction|].
  intros Hnd Hin. inversion Hnd as [|? ? Hni Hnd']; subst.
  destruct (String.eqb_spec (id d) dev_id) as [E|N]; simpl.
  - exists [], d, ds. repeat split; auto. simpl.
    assert (Hall : forall x, In x ds ->
              negb (id x =? dev_id)%string = true).
    { intros x Hx. destruct (String.eqb_spec (id x) dev_id) as [E'|]; auto.
      exfalso. apply Hni. rewrite E, <- E'. now apply in_map. }
    clear - Hall. induction ds as [|x ds IH]; simpl; [reflexivity|].
    rewrite (Hall x) by now left. f_equal. apply IH.
    intros y Hy. apply Hall. now right.
  - destruct Hin as [Hin|Hin]; [contradiction|].
    destruct (IH Hnd' Hin) as (l1 & d' & l2 & -> & Hd & Hf).
    exists (d :: l1), d', l2. repeat split; auto. simpl. now rewrite Hf.
Qed.

(* ===================================================================== *)
(** * The round as a concurrent system: what it returns *)
(* ===================================================================== *)

Lemma combine_fst_snd (A B : Type) (l : list (A * B)) :
  combine (map fst l) (map snd l) = l.
Proof.
  induction l as [|[a b] l IH]; simpl; [reflexivity|]. now rewrite IH.
Qed.

Lemma map_fst_combine (A B : Type) (l1 : list A) (l2 : list B) :
  List.length l1 = List.length l2 -> map fst (combine l1 l2) = l1.
Proof.
  revert l2. induction l1 as [|a l1 IH]; intros [|b l2] H; simpl in *;
    try discriminate; [reflexivity|]. f_equal. apply IH. lia.
Qed.

Lemma map_snd_combine (A B : Type) (l1 : list A) (l2 : list B) :
  List.length l1 = List.length l2 -> map snd (combine l1 l2) = l2.
Proof.
  revert l2. induction l1 as [|a l1 IH]; intros [|b l2] H; simpl in *;
    try discriminate; [reflexivity|]. f_equal. apply IH. lia.
Qed.

Lemma map_fst_split (A B : Type) (ws : list (A * B)) (w1 : list A) (i : A)
      (w2 : list A) :
  map fst ws = (w1 ++ i :: w2)%list ->
  exists ws1 d ws2,
    ws = (ws1 ++ (i, d) :: ws2)%list /\ map fst ws1 = w1 /\ map fst ws2 = w2.
Proof.
  revert ws. induction w1 as [|a w1 IH]; intros [|[x d] ws] H; simpl in *;
    try discriminate.
  - injection H as -> H. now exists [], d, ws.
  - injection H as -> H. destruct (IH _ H) as (ws1 & d' & ws2 & -> & <- & <-).
    now exists ((a, d) :: ws1), d', ws2.
Qed.

Lemma NoDup_fst_functional (A B : Type) (l : list (A * B)) (a : A) (b b' : B) :
  NoDup (map fst l) -> In (a, b) l -> In (a, b') l -> b = b'.
Proof.
  induction l as [|[x y] l IH]; simpl; [contradiction|].
  intros Hnd H1 H2. inversion Hnd as [|? ? Hni Hnd']; subst.
  destruct H1 as [H1|H1], H2 as [H2|H2].
  - congruence.
  - injection H1 as -> ->. exfalso. apply Hni.
    change a with (fst (a, b')). now apply in_map.
  - injection H2 as -> ->. exfalso. apply Hni.
    change a with (fst (a, b)). now apply in_map.
  - now apply IH.
Qed.

Section RoundResult.
Variable platform_system : string.
Variable subprocess_run : nat -> list string -> result Z.
Variable devices : list Device.

Local Abbreviation step' := (step platform_system subprocess_run devices).
Local Abbreviation steps' := (steps platform_system subprocess_run devices).
Local Abbreviation reachable' :=
  (reachable platform_system subprocess_run devices).
Local Abbreviation round_inv' :=
  (round_inv platform_system subprocess_run devices).
Local Abbreviation work_ok' := (work_ok platform_system subprocess_run).
Local Abbreviation result_of' := (result_of platform_system subprocess_run).
Local Abbreviation outcome' := (outcome platform_system subprocess_run).
Local Abbreviation all_futures' := (all_futures devices).

Lemma all_futures_fst : map fst all_futures' = seq 0 (List.length devices).
Proof. apply map_fst_combine. now rewrite length_seq. Qed.

Lemma all_futures_snd : map snd all_futures' = devices.
Proof. apply map_snd_combine. now rewrite length_seq. Qed.

Lemma all_futures_NoDup : NoDup (map fst all_futures').
Proof. rewrite all_futures_fst. apply seq_NoDup. Qed.

Lemma work_ok_more (fs fs' : list (nat * Device)) (s s' : Round) :
  incl fs fs' ->
  incl (queue s' ++ running s') (queue s ++ running s) ->
  finished s' = finished s ->
  work_ok' fs s -> work_ok' fs' s'.
Proof.
  intros Hfs Hq Hf (W1 & W2). split.
  - intros i a H. destruct (W1 i a (Hq _ H)) as (d & Hd & ->). eauto.
  - intros i r H. rewrite Hf in H.
    destruct (W2 i r H) as (d & Hd & ->). eauto.
Qed.

Lemma accounted_mono (js : list nat) (s s' : Round) :
  (forall j, In j (map fst (queue s)) \/ In j (map fst (running s)) \/
             In j (map fst (finished s)) ->
             In j (map fst (queue s')) \/ In j (map fst (running s')) \/
             In j (map fst (finished s'))) ->
  accounted js s -> accounted js s'.
Proof. intros H A j Hj. apply H, A, Hj. Qed.

Lemma work_ok_submit (fs : list (nat * Device)) (s s' : Round) i d :
  queue s' = (queue s ++ [(i, ip d)])%list -> running s' = running s ->
  finished s' = finished s ->
  work_ok' fs s -> work_ok' (fs ++ [(i, d)]) s'.
Proof.
  intros Hq Hr Hf (W1 & W2). split.
  - intros j a H. rewrite Hq, Hr, <- app_assoc in H.
    apply in_app_or in H. destruct H as [H|H].
    + destruct (W1 j a) as (d' & Hd & ->); [apply in_or_app; now left|].
      exists d'. split; [apply in_or_app; now left|reflexivity].
    + simpl in H. destruct H as [H|H].
      * injection H as <- <-. exists d. split; [|reflexivity].
        apply in_or_app. right. now left.
      * destruct (W1 j a) as (d' & Hd & ->); [apply in_or_app; now right|].
        exists d'. split; [apply in_or_app; now left|reflexivity].
  - intros j r H. rewrite Hf in H. destruct (W2 j r H) as (d' & Hd & ->).
    exists d'. split; [apply in_or_app; now left|reflexivity].
Qed.

Lemma accounted_submit (js : list nat) (s s' : Round) i a :
  queue s' = (queue s ++ [(i, a)])%list -> running s' = running s ->
  finished s' = finished s ->
  accounted js s -> accounted (js ++ [i]) s'.
Proof.
  intros Hq Hr Hf A j Hj. rewrite Hq, Hr, Hf, map_app, in_app_iff.
  apply in_app_or in Hj. destruct Hj as [Hj|[<-|[]]].
  - destruct (A j Hj) as [H|[H|H]]; auto.
  - left. right. now left.
Qed.

Lemma work_ok_start (fs : list (nat * Device)) (s s' : Round) i a q :
  queue s = (i, a) :: q -> queue s' = q ->
  running s' = (running s ++ [(i, a)])%list -> finished s' = finished s ->
  work_ok' fs s -> work_ok' fs s'.
Proof.
  intros Hq Hq' Hr Hf. apply work_ok_more; auto using incl_refl.
  rewrite Hq, Hq', Hr. intros x Hx.
  rewrite !in_app_iff in Hx. simpl in *. rewrite in_app_iff.
  destruct Hx as [Hx|[Hx|[Hx|[]]]]; auto.
Qed.

Lemma accounted_start (js : list nat) (s s' : Round) i a q :
  queue s = (i, a) :: q -> queue s' = q ->
  running s' = (running s ++ [(i, a)])%list -> finished s' = finished s ->
  accounted js s -> accounted js s'.
Proof.
  intros Hq Hq' Hr Hf. apply accounted_mono. intros j.
  rewrite Hq, Hq', Hr, Hf, map_app, in_app_iff. simpl. tauto.
Qed.

Lemma work_ok_finish (fs : list (nat * Device)) (s s' : Round) i a r1 r2 :
  running s = (r1 ++ (i, a) :: r2)%list -> queue s' = queue s ->
  running s' = (r1 ++ r2)%list ->
  finished s' = (i, outcome' i a) :: finished s ->
  work_ok' fs s -> work_ok' fs s'.
Proof.
  intros Hr Hq Hr' Hf (W1 & W2). split.
  - intros j b H. apply W1. rewrite Hq, Hr' in H. rewrite Hr.
    rewrite !in_app_iff in *. simpl. tauto.
  - intros j r H. rewrite Hf in H. destruct H as [H|H]; [|now apply W2].
    injection H as <- <-.
    destruct (W1 i a) as (d & Hd & ->); [|eauto].
    rewrite Hr, !in_app_iff. simpl. auto.
Qed.

Lemma accounted_finish (js : list nat) (s s' : Round) i a r r1 r2 :
  running s = (r1 ++ (i, a) :: r2)%list -> queue s' = queue s ->
  running s' = (r1 ++ r2)%list -> finished s' = (i, r) :: finished s ->
  accounted js s -> accounted js s'.
Proof.
  intros Hr Hq Hr' Hf. apply accounted_mono. intros j.
  rewrite Hq, Hr, Hr', Hf, !map_app, !in_app_iff. simpl. tauto.
Qed.

(** A step of the pool alone keeps the invariant of the main thread. *)
Lemma round_inv_pool_step (s s' : Round) :
  main s' = main s -> width s' = width s -> threads s' = threads s ->
  (forall fs, work_ok' fs s -> work_ok' fs s') ->
  (forall js, accounted js s -> accounted js s') ->
  (queue s = [] -> running s = [] -> finished s = [] ->
   queue s' = [] /\ running s' = [] /\ finished s' = []) ->
  round_inv' s -> round_inv' s'.
Proof.
  intros Hm Hw Ht HW HA H0. unfold round_inv. rewrite Hm, Hw, Ht.
  destruct (main s) as [|i rest fs|fs waiting out|report].
  - intros (Q & R & F). now apply H0.
  - intros (D & Sq & W & A & Wd & T).
    split; [|split; [|split; [|split; [|split]]]]; auto.
  - intros (E & W & A & T & X).
    split; [|split; [|split; [|split]]]; auto.
  - auto.
Qed.

Lemma round_inv_step (s s' : Round) :
  round_inv' s -> step' s s' -> round_inv' s'.
Proof.
  intros I Hstep.
  destruct Hstep as [s Hm | s i d rest fs Hm Hlt | s i d rest fs Hm Hor
                    | s i fs Hm | s i addr q Hq Hlt | s i addr r1 r2 Hr
                    | s fs w1 i w2 out r d Hm Hfin Hfs | s fs out Hm].
  - (* create *)
    unfold round_inv in *. rewrite Hm in I. destruct I as (Q & R & F).
    cbn [main width threads queue running finished trace].
    split; [|split; [|split; [|split; [|split]]]]; auto.
    + split; simpl; intros j a H.
      * rewrite Q, R in H. contradiction.
      * rewrite F in H. contradiction.
    + intros j [].
    + congruence.
  - (* submit, new thread *)
    unfold round_inv in *. rewrite Hm in I.
    destruct I as (D & Sq & W & A & Wd & T).
    cbn [main width threads queue running finished trace].
    split; [|split; [|split; [|split; [|split]]]]; auto.
    + rewrite map_app, <- app_assoc. exact D.
    + rewrite map_app, Sq, seq_S. reflexivity.
    + eapply work_ok_submit, W; reflexivity.
    + rewrite map_app. eapply accounted_submit, A; reflexivity.
    + intros _. lia.
  - (* submit, no new thread *)
    unfold round_inv in *. rewrite Hm in I.
    destruct I as (D & Sq & W & A & Wd & T).
    cbn [main width threads queue running finished trace].
    pose proof (max_workers_bounds devices).
    split; [|split; [|split; [|split; [|split]]]]; auto.
    + rewrite map_app, <- app_assoc. exact D.
    + rewrite map_app, Sq, seq_S. reflexivity.
    + eapply work_ok_submit, W; reflexivity.
    + rewrite map_app. eapply accounted_submit, A; reflexivity.
    + intros _. destruct Hor as [Hor|Hor]; lia.
  - (* the dict is complete *)
    unfold round_inv in *. rewrite Hm in I.
    destruct I as (D & Sq & W & A & Wd & T).
    cbn [main width threads queue running finished trace].
    rewrite app_nil_r in D.
    assert (E : fs = all_futures').
    { assert (Hi : List.length devices = i)
        by (rewrite D, length_map, <- (length_map fst fs), Sq;
            apply length_seq).
      rewrite <- (combine_fst_snd fs). unfold all_futures.
      now rewrite Hi, <- D, Sq. }
    split; [|split; [|split; [|split]]]; auto.
    exists [], fs. repeat split; auto.
  - (* a worker takes a work item *)
    eapply round_inv_pool_step; try eassumption; try reflexivity.
    + intros fs. eapply work_ok_start; try eassumption; reflexivity.
    + intros js. eapply accounted_start; try eassumption; reflexivity.
    + intros Q. rewrite Q in Hq. discriminate.
  - (* a call returns *)
    eapply round_inv_pool_step; try eassumption; try reflexivity.
    + intros fs. eapply work_ok_finish; try eassumption; reflexivity.
    + intros js. eapply accounted_finish; try eassumption; reflexivity.
    + intros _ R. rewrite R in Hr. destruct r1; discriminate.
  - (* as_completed yields *)
    unfold round_inv in *. rewrite Hm in I.
    destruct I as (E & W & A & T & ys & ws & Hw & P & O).
    cbn [main width threads queue running finished trace].
    destruct (map_fst_split _ _ _ _ (eq_sym Hw))
      as (ws1 & d' & ws2 & -> & <- & <-).
    assert (Hd : d' = d).
    { apply (@NoDup_fst_functional _ _ fs i); auto.
      - rewrite E. apply all_futures_NoDup.
      - eapply Permutation_in; [exact P|].
        rewrite !in_app_iff. simpl. auto. }
    subst d'.
    assert (Hr : r = outcome' i (ip d)).
    { destruct W as (_ & W2). destruct (W2 i r Hfin) as (d2 & Hd2 & ->).
      f_equal. f_equal.
      apply (@NoDup_fst_functional _ _ fs i); auto.
      rewrite E. apply all_futures_NoDup. }
    split; [|split; [|split; [|split]]]; auto.
    + intros j Hj. apply A. rewrite in_app_iff in *. simpl. tauto.
    + exists (ys ++ [(i, d)])%list, (ws1 ++ ws2)%list. repeat split.
      * now rewrite map_app.
      * rewrite <- P, <- app_assoc. apply Permutation_app_head.
        simpl. apply Permutation_middle.
      * rewrite O, map_app. simpl. unfold result_of. simpl. now rewrite Hr.
  - (* return *)
    unfold round_inv in *. rewrite Hm in I.
    destruct I as (E & W & A & T & ys & ws & Hw & P & O).
    cbn [main width threads queue running finished trace].
    destruct ws; [|discriminate]. rewrite app_nil_r in P.
    exists ys. split; [now rewrite <- E|now rewrite O].
Qed.

Lemma round_inv_reachable (s : Round) : reachable' s -> round_inv' s.
Proof.
  induction 1 as [|s s' _ IH Hstep].
  - unfold round_inv. simpl. auto.
  - eapply round_inv_step; eassumption.
Qed.

(** ** Soundness: a returned report is a report of [bulk_status] *)

Lemma submit_all_all_futures (ds : list Device) :
  forall i,
    submit_all platform_system subprocess_run i ds =
    map (fun f => (outcome' (fst f) (ip (snd f)), snd f))
        (combine (seq i (List.length ds)) ds).
Proof.
  induction ds as [|d ds IH]; intros i; simpl; [reflexivity|].
  now rewrite IH.
Qed.

Lemma round_report_sound (s : Round) (report : list ProbeResult) :
  reachable' s -> main s = Returned report ->
  exists sched,
    report = bulk_status platform_system subprocess_run sched devices.
Proof.
  intros Hr Hm. pose proof (round_inv_reachable Hr) as I.
  unfold round_inv in I. rewrite Hm in I. destruct I as (ys & P & ->).
  set (g := fun f : nat * Device => (outcome' (fst f) (ip (snd f)), snd f)).
  destruct (@as_completed_complete _ (map g ys)
              (submit_all platform_system subprocess_run 0 devices))
    as (sched & Hs).
  { rewrite submit_all_all_futures. apply Permutation_map.
    apply Permutation_sym. exact P. }
  exists sched. unfold bulk_status, collect. rewrite Hs, map_map.
  reflexivity.
Qed.

(** ** Progress and termination: every round returns *)

Lemma reachable_steps (s s' : Round) :
  reachable' s -> steps' s s' -> reachable' s'.
Proof.
  intros Hr Hs. induction Hs as [|s1 s2 s3 H12 _ IH]; [exact Hr|].
  apply IH. eapply reach_step; eassumption.
Qed.

Lemma step_measure (s s' : Round) :
  step' s s' -> measure devices s' < measure devices s.
Proof.
  intros Hstep. destruct Hstep; unfold measure; simpl;
    repeat match goal with H : main _ = _ |- _ => rewrite H; clear H end;
    repeat match goal with H : queue _ = _ |- _ => rewrite H; clear H end;
    repeat match goal with H : running _ = _ |- _ => rewrite H; clear H end;
    simpl; rewrite ?length_app, ?length_map; simpl; lia.
Qed.

Lemma round_progress (s : Round) :
  reachable' s ->
  (exists report, main s = Returned report) \/ exists s', step' s s'.
Proof.
  intros Hr.
  pose proof (pool_inv_reachable Hr) as (P1 & P2 & P3 & P4).
  pose proof (round_inv_reachable Hr) as I. unfold round_inv in I.
  destruct (main s) as [|i [|d rest] fs|fs [|j waiting] out|report] eqn:Hm.
  - right. eexists. now apply step_create.
  - right. eexists. eapply step_submitted. exact Hm.
  - right. destruct (Z.eq_dec (Z.of_nat (threads s)) (width s)) as [E|N].
    + eexists. eapply step_submit_reuse; [exact Hm|now left].
    + eexists. eapply step_submit_spawn; [exact Hm|lia].
  - right. eexists. eapply step_return. exact Hm.
  - right. destruct I as (E & W & A & T & ys & ws & Hw & P & O).
    destruct ws as [|[j' d] ws]; [discriminate|].
    simpl in Hw. injection Hw as <- Hw.
    assert (Hfs : In (j, d) fs).
    { eapply Permutation_in; [exact P|]. apply in_or_app. right. now left. }
    destruct (A j (or_introl eq_refl)) as [Hq|[Hq|Hq]].
    + (* still queued *)
      destruct (running s) as [|[k a] rs] eqn:Hrun.
      * destruct (queue s) as [|[k a] q] eqn:Hqu; [contradiction|].
        eexists. eapply step_start; [exact Hqu|].
        rewrite Hrun. simpl.
        assert (fs <> []) by (intros ->; contradiction). specialize (T H). lia.
      * eexists. eapply (@step_finish _ _ _ s k a [] rs). exact Hrun.
    + (* running *)
      destruct (running s) as [|[k a] rs] eqn:Hrun; [contradiction|].
      eexists. eapply (@step_finish _ _ _ s k a [] rs). exact Hrun.
    + (* finished *)
      apply in_map_iff in Hq. destruct Hq as ([j' r] & Hj & Hq).
      simpl in Hj. subst j'.
      eexists. eapply (@step_yield _ _ _ s fs [] j waiting out r d);
        eassumption.
  - left. eauto.
Qed.

(** From every state of a round, the round can go on until it returns; and
    since every step lowers [measure], it cannot go on for ever. *)
Lemma round_returns (s : Round) :
  reachable' s ->
  exists s' report, steps' s s' /\ main s' = Returned report.
Proof.
  remember (measure devices s) as n eqn:Hn. revert s Hn.
  induction n as [n IH] using lt_wf_ind. intros s Hn Hr.
  destruct (round_progress Hr) as [(report & Hm)|(s1 & Hstep)].
  - exists s, report. split; [constructor|exact Hm].
  - pose proof (step_measure Hstep) as Hlt.
    destruct (IH (measure devices s1) ltac:(lia) s1 eq_refl
                 (reach_step Hr Hstep)) as (s' & report & Hs & Hm).
    exists s', report. split; [|exact Hm].
    eapply steps_step; eassumption.
Qed.

(** ** Completeness: every report of [bulk_status] can be returned *)

Lemma steps_trans (s1 s2 s3 : Round) :
  steps' s1 s2 -> steps' s2 s3 -> steps' s1 s3.
Proof.
  induction 1 as [|a b c Hab _ IH]; [auto|].
  intros H. eapply steps_step; [exact Hab|auto].
Qed.

Lemma steps_one (s1 s2 : Round) : step' s1 s2 -> steps' s1 s2.
Proof. intros H. eapply steps_step; [exact H|constructor]. Qed.

(** The main thread can submit every device before any worker moves. *)
Lemma submit_phase (rest : list Device) :
  forall s i fs,
    main s = Submitting i rest fs ->
    (Z.of_nat (threads s) <= width s)%Z ->
    exists s',
      steps' s s' /\
      main s' = Submitting (i + List.length rest) []
                  (fs ++ combine (seq i (List.length rest)) rest) /\
      queue s' = (queue s ++ map (fun f => (fst f, ip (snd f)))
                                 (combine (seq i (List.length rest)) rest))%list /\
      running s' = running s /\ finished s' = finished s.
Proof.
  induction rest as [|d rest IH]; intros s i fs Hm Hw.
  - exists s. simpl. rewrite Nat.add_0_r, !app_nil_r.
    repeat split; auto. constructor.
  - assert (Hs1 : exists s1,
               step' s s1 /\
               main s1 = Submitting (S i) rest (fs ++ [(i, d)]) /\
               (Z.of_nat (threads s1) <= width s1)%Z /\
               queue s1 = (queue s ++ [(i, ip d)])%list /\
               running s1 = running s /\ finished s1 = finished s).
    { destruct (Z.eq_dec (Z.of_nat (threads s)) (width s)) as [E|N].
      - eexists. split; [eapply step_submit_reuse; [exact Hm|now left]|].
        simpl. repeat split; auto.
      - eexists. split; [eapply step_submit_spawn; [exact Hm|lia]|].
        simpl. repeat split; auto. lia. }
    destruct Hs1 as (s1 & Hstep & Hm1 & Hw1 & Hq1 & Hr1 & Hf1).
    destruct (IH s1 (S i) _ Hm1 Hw1) as (s' & Hs & Hm' & Hq' & Hr' & Hf').
    exists s'. split; [eapply steps_step; eassumption|].
    simpl. rewrite Nat.add_succ_r, Hm', Hq', Hq1, Hr', Hr1, Hf', Hf1.
    rewrite <- !app_assoc. simpl. repeat split; auto.
Qed.

(** One worker can run the queued calls one after the other. *)
Lemma drain_phase (q : list (nat * string)) :
  forall s,
    queue s = q -> running s = [] -> (q <> [] -> 1 <= threads s) ->
    exists s',
      steps' s s' /\ main s' = main s /\ queue s' = [] /\ running s' = [] /\
      finished s' =
        (List.rev (map (fun w => (fst w, outcome' (fst w) (snd w))) q)
         ++ finished s)%list.
Proof.
  induction q as [|[i a] q IH]; intros s Hq Hr Ht.
  - exists s. repeat split; auto. constructor.
  - pose (s1 := {| main := main s; width := width s; threads := threads s;
                   queue := q; running := (running s ++ [(i, a)])%list;
                   finished := finished s;
                   trace := (trace s ++ [EvStart i a])%list |}).
    assert (H1 : step' s s1).
    { apply step_start; [exact Hq|]. rewrite Hr. simpl.
      assert (1 <= threads s) by (apply Ht; discriminate). lia. }
    pose (s2 := {| main := main s1; width := width s1; threads := threads s1;
                   queue := queue s1; running := ([] ++ [])%list;
                   finished := (i, outcome' i a) :: finished s1;
                   trace := (trace s1 ++ [EvDone i (outcome' i a)])%list |}).
    assert (H2 : step' s1 s2).
    { apply (@step_finish _ _ _ s1 i a [] []). simpl. now rewrite Hr. }
    destruct (IH s2) as (s' & Hs & Hm' & Hq' & Hr' & Hf'); auto.
    { intros _. simpl. apply Ht. discriminate. }
    exists s'. split.
    + eapply steps_step; [exact H1|]. eapply steps_step; [exact H2|exact Hs].
    + rewrite Hm', Hf'. simpl. rewrite <- app_assoc. auto.
Qed.

(** [as_completed] can yield finished futures in any order. *)
Lemma yield_phase (ys : list (nat * Device)) :
  forall s fs waiting out,
    main s = Collecting fs waiting out ->
    Permutation (map fst ys) waiting ->
    (forall f, In f ys ->
       In f fs /\ In (fst f, outcome' (fst f) (ip (snd f))) (finished s)) ->
    exists s',
      steps' s s' /\
      main s' = Collecting fs [] (out ++ map result_of' ys).
Proof.
  induction ys as [|[i d] ys IH]; intros s fs waiting out Hm P Hin.
  - apply Permutation_nil in P. subst waiting.
    exists s. simpl. rewrite app_nil_r. split; [constructor|exact Hm].
  - simpl in P.
    assert (Hi : In i waiting)
      by (eapply Permutation_in; [exact P|now left]).
    apply in_split in Hi. destruct Hi as (w1 & w2 & ->).
    apply Permutation_cons_app_inv in P.
    destruct (Hin (i, d) (or_introl eq_refl)) as (Hfs & Hfin). simpl in Hfin.
    pose (s1 := {| main := Collecting fs (w1 ++ w2)
                     (out ++ [make_result d (outcome' i (ip d))]);
                   width := width s; threads := threads s; queue := queue s;
                   running := running s; finished := finished s;
                   trace := (trace s ++ [EvYield i])%list |}).
    assert (H1 : step' s s1) by (eapply step_yield; eassumption).
    destruct (IH s1 fs (w1 ++ w2)%list
                 (out ++ [make_result d (outcome' i (ip d))])%list)
      as (s' & Hs & Hm'); auto.
    { intros f Hf. apply Hin. now right. }
    exists s'. split; [eapply steps_step; eassumption|].
    rewrite Hm'. simpl. now rewrite <- app_assoc.
Qed.

Lemma extract_map (A B : Type) (g : A -> B) (l : list A) :
  forall k,
    extract k (map g l) =
    match extract k l with
    | Some (x, rest) => Some (g x, map g rest)
    | None => None
    end.
Proof.
  induction l as [|y l IH]; intros k; simpl; [reflexivity|].
  destruct k as [|k]; [reflexivity|].
  rewrite IH. now destruct (extract k l) as [[x rest]|].
Qed.

Lemma as_completed_map (A B : Type) (g : A -> B) (sched : list nat)
      (l : list A) :
  as_completed sched (map g l) = map g (as_completed sched l).
Proof.
  unfold as_completed. rewrite length_map.
  remember (List.length l) as n eqn:Hn. clear Hn.
  revert sched l. induction n as [|n IH]; intros sched l; simpl;
    [reflexivity|].
  rewrite length_map, extract_map.
  destruct (extract _ l) as [[x rest]|]; [|reflexivity].
  simpl. now rewrite IH.
Qed.

Lemma round_report_complete (sched : list nat) :
  exists s,
    reachable' s /\
    main s = Returned (bulk_status platform_system subprocess_run sched devices).
Proof.
  set (g := fun f : nat * Device => (outcome' (fst f) (ip (snd f)), snd f)).
  set (ys := as_completed sched all_futures').
  assert (Pys : Permutation ys all_futures') by apply as_completed_perm.
  (* create the executor *)
  pose (s1 := {| main := Submitting 0 devices []; width := max_workers devices;
                 threads := 0; queue := []; running := []; finished := [];
                 trace := [EvPool (max_workers devices)] |}).
  assert (R1 : reachable' s1).
  { eapply reach_step; [apply reach_initial|].
    apply (@step_create _ _ _ initial). reflexivity. }
  (* submit every device *)
  destruct (@submit_phase devices s1 0 []) as (s2 & S2 & M2 & Q2 & Ru2 & F2).
  { reflexivity. }
  { pose proof (max_workers_bounds devices). simpl. lia. }
  simpl in M2, Q2, Ru2, F2. fold all_futures' in M2, Q2.
  assert (R2 : reachable' s2) by (eapply reachable_steps; eassumption).
  pose proof (round_inv_reachable R2) as I2. unfold round_inv in I2.
  rewrite M2 in I2. destruct I2 as (_ & _ & _ & _ & _ & T2).
  (* enter the loop *)
  pose (s3 := {| main := Collecting all_futures' (map fst all_futures') [];
                 width := width s2; threads := threads s2; queue := queue s2;
                 running := running s2; finished := finished s2;
                 trace := trace s2 |}).
  assert (H3 : step' s2 s3) by (eapply step_submitted; exact M2).
  (* run every call *)
  destruct (@drain_phase (queue s3) s3) as (s4 & S4 & M4 & Q4 & Ru4 & F4); auto.
  { simpl. intros Hq. apply T2. intros E. apply Hq. rewrite Q2, E. reflexivity. }
  simpl in M4, F4. rewrite Q2, F2, app_nil_r in F4.
  (* yield in the order of the schedule *)
  destruct (@yield_phase ys s4 all_futures' (map fst all_futures') [])
    as (s5 & S5 & M5); auto.
  { now apply Permutation_map. }
  { intros f Hf.
    assert (Hfa : In f all_futures')
      by (eapply Permutation_in; [exact Pys|exact Hf]).
    split; [exact Hfa|].
    rewrite F4, <- in_rev, map_map. simpl.
    apply in_map_iff. exists f. split; [reflexivity|exact Hfa]. }
  simpl in M5.
  (* return *)
  pose (s6 := {| main := Returned (PySort.sort sort_key PySort.tuple_lt
                                     (map result_of' ys));
                 width := width s5; threads := threads s5; queue := queue s5;
                 running := running s5; finished := finished s5;
                 trace := (trace s5 ++ [EvReturn])%list |}).
  assert (H6 : step' s5 s6) by (eapply step_return; exact M5).
  exists s6. split.
  - eapply reach_step; [|exact H6].
    eapply reachable_steps; [|exact S5].
    eapply reachable_steps; [|exact S4].
    eapply reach_step; [exact R2|exact H3].
  - simpl. f_equal. unfold bulk_status, collect. f_equal.
    rewrite submit_all_all_futures. fold all_futures'. fold g.
    rewrite as_completed_map, map_map. reflexivity.
Qed.

(** The reports a round can return are exactly the values of [bulk_status]
    over all completion orders. *)
Lemma round_reports (report : list ProbeResult) :
  (exists s, reachable' s /\ main s = Returned report) <->
  (exists sched,
      report = bulk_status platform_system subprocess_run sched devices).
Proof.
  split.
  - intros (s & Hr & Hm). eapply round_report_sound; eassumption.
  - intros (sched & ->). apply round_report_complete.
Qed.

End RoundResult.

(** ** The round on one device *)

Lemma probing_one_reachable :
  reachable "Linux" always_up one_device probing_one.
Proof.
  eapply reach_step; [eapply reach_step; [eapply reach_step;
    [apply reach_initial|]|]|].
  - apply (@step_create "Linux" always_up one_device initial). reflexivity.
  - match goal with |- step _ _ _ ?s _ =>
      apply (@step_submit_spawn "Linux" always_up one_device s 0
               (mkDevice "a" "Google DNS" "8.8.8.8") [] [])
    end; [reflexivity|simpl; unfold max_workers; simpl; lia].
  - match goal with |- step _ _ _ ?s _ =>
      apply (@step_start "Linux" always_up one_device s 0 "8.8.8.8" [])
    end; [reflexivity|simpl; lia].
Qed.

Lemma yielded_one_reachable :
  reachable "Linux" always_up one_device yielded_one.
Proof.
  eapply reach_step; [eapply reach_step; [eapply reach_step;
    [apply probing_one_reachable|]|]|].
  - apply (@step_finish "Linux" always_up one_device probing_one
             0 "8.8.8.8" [] []). reflexivity.
  - match goal with |- step _ _ _ ?s _ =>
      apply (@step_submitted "Linux" always_up one_device s 1
               [(0, mkDevice "a" "Google DNS" "8.8.8.8")])
    end. reflexivity.
  - match goal with |- step _ _ _ ?s _ =>
      apply (@step_yield "Linux" always_up one_device s
               [(0, mkDevice "a" "Google DNS" "8.8.8.8")] [] 0 [] []
               (Ok true) (mkDevice "a" "Google DNS" "8.8.8.8"))
    end; [reflexivity|now left|now left].
Qed.

Lemma yielded_one_returns :
  step "Linux" always_up one_device yielded_one returned_one.
Proof.
  apply (@step_return "Linux" always_up one_device yielded_one
           [(0, mkDevice "a" "Google DNS" "8.8.8.8")]
           [mkResult "a" "Google DNS" "8.8.8.8" true]).
  reflexivity.
Qed.

Lemma returned_one_reachable :
  reachable "Linux" always_up one_device returned_one.
Proof.
  eapply reach_step; [apply yielded_one_reachable|apply yielded_one_returns].
Qed.
(* ===================================================================== *)
(** * The claims of the specification *)
(* ===================================================================== *)

(** ** The coordinator *)

(** C1.  Whatever the completion order, [bulk_status] returns exactly one
    result per input device (the list need not even be non-empty): read
    back as devices, the results are the input devices up to order, so the
    ids of the output are the ids of the input with their multiplicities
    and every result carries the name and ip of its device unchanged; its
    [online] field is the boolean the device's own probe produced.  The
    same holds of the report of every round of the concurrent system. *)
Theorem C1_one_result_per_device
    (platform_system : string) (subprocess_run : nat -> list string -> result Z)
    (devices : list Device) :
  (forall sched,
     let report := bulk_status platform_system subprocess_run sched devices in
     one_result_per_device devices report /\
     Permutation report
       (map (fun fd => make_result (snd fd) (fst fd))
            (submit_all platform_system subprocess_run 0 devices))) /\
  (forall s report,
     reachable platform_system subprocess_run devices s ->
     main s = Returned report ->
     one_result_per_device devices report).
Proof.
  assert (F : forall sched,
             one_result_per_device devices
               (bulk_status platform_system subprocess_run sched devices)).
  { intros sched.
    pose proof (bulk_status_devices platform_system subprocess_run sched
                                    devices) as P.
    split; [exact P|split].
    - apply (Permutation_map id) in P. rewrite map_map in P. exact P.
    - apply Permutation_length in P. now rewrite length_map in P. }
  split.
  - intros sched report. split; [apply F|apply bulk_status_perm].
  - intros s report Hr Hm.
    destruct (round_report_sound Hr Hm) as (sched & ->). apply F.
Qed.

Lemma C1_one_result_per_device_witness :
  one_result_per_device one_device [mkResult "a" "Google DNS" "8.8.8.8" true].
Proof.
  exact (proj2 (C1_one_result_per_device "Linux" always_up one_device)
               returned_one [mkResult "a" "Google DNS" "8.8.8.8" true]
               returned_one_reachable eq_refl).
Defined.

(** C2.  The report is in ascending order of the key (lowercased name, ip)
    and is a rearrangement of the results collected during the round: it is
    the collected list, sorted once.  In the concurrent system the sort is
    the step that returns: the report is the sorted list [out] of the state
    in which every future has been yielded. *)
Theorem C2_report_sorted
    (platform_system : string) (subprocess_run : nat -> list string -> result Z)
    (devices : list Device) :
  (forall sched,
     let out := collect platform_system subprocess_run sched devices in
     let report := bulk_status platform_system subprocess_run sched devices in
     sorted_by_key report /\ Permutation report out /\
     report = PySort.sort sort_key PySort.tuple_lt out) /\
  (forall s s' report,
     step platform_system subprocess_run devices s s' ->
     main s' = Returned report ->
     main s = Returned report \/
     exists fs out,
       main s = Collecting fs [] out /\
       report = PySort.sort sort_key PySort.tuple_lt out /\
       Permutation report out /\ sorted_by_key report).
Proof.
  split.
  - intros sched out report. repeat split.
    + apply sort_by_key_sorted.
    + apply sort_perm.
  - intros s s' report Hstep Hm.
    destruct Hstep; simpl in Hm; try discriminate; auto.
    right. injection Hm as <-. exists fs, out. repeat split; auto.
    + apply sort_perm.
    + apply sort_by_key_sorted.
Qed.

Lemma C2_report_sorted_witness :
  main yielded_one = Returned [mkResult "a" "Google DNS" "8.8.8.8" true] \/
  exists fs out,
    main yielded_one = Collecting fs [] out /\
    [mkResult "a" "Google DNS" "8.8.8.8" true] =
      PySort.sort sort_key PySort.tuple_lt out /\
    Permutation [mkResult "a" "Google DNS" "8.8.8.8" true] out /\
    sorted_by_key [mkResult "a" "Google DNS" "8.8.8.8" true].
Proof.
  exact (proj2 (C2_report_sorted "Linux" always_up one_device)
               yielded_one returned_one
               [mkResult "a" "Google DNS" "8.8.8.8" true]
               yielded_one_returns eq_refl).
Defined.

(** C3, as stated, fails: two devices whose names differ only in case and
    whose ip is the same tie under the sort key, and the stable sort leaves
    them in completion order. *)
Lemma C3_order_depends_on_completion :
  ~ (forall (platform_system : string)
            (run1 run2 : nat -> list string -> result Z)
            (sched1 sched2 : list nat) (devices : list Device),
        same_outcomes platform_system devices run1 run2 ->
        bulk_status platform_system run1 sched1 devices =
        bulk_status platform_system run2 sched2 devices).
Proof.
  intros H.
  specialize (H "Linux" always_up always_up [0] [1]
                [mkDevice "x" "A" "10.0.0.1"; mkDevice "y" "a" "10.0.0.1"]).
  assert (Hs : same_outcomes "Linux"
                 [mkDevice "x" "A" "10.0.0.1"; mkDevice "y" "a" "10.0.0.1"]
                 always_up always_up)
    by (intros i j d _; reflexivity).
  specialize (H Hs). vm_compute in H. discriminate H.
Qed.

(** C3, amended.  When no two devices of the list share both lowercased
    name and ip, two runs on that list in which the prober gives the same
    outcome for every address return the same report, position by
    position, whatever the two completion orders: for every pair of
    schedules of [bulk_status], and for every pair of rounds of the
    concurrent system. *)
Theorem C3_report_deterministic
    (platform_system : string) (run1 run2 : nat -> list string -> result Z)
    (devices : list Device) :
  distinct_keys devices ->
  same_outcomes platform_system devices run1 run2 ->
  (forall sched1 sched2,
     bulk_status platform_system run1 sched1 devices =
     bulk_status platform_system run2 sched2 devices) /\
  (forall s1 s2 report1 report2,
     reachable platform_system run1 devices s1 -> main s1 = Returned report1 ->
     reachable platform_system run2 devices s2 -> main s2 = Returned report2 ->
     report1 = report2).
Proof.
  intros Hk Hs.
  assert (F : forall sched1 sched2,
             bulk_status platform_system run1 sched1 devices =
             bulk_status platform_system run2 sched2 devices).
  { intros sched1 sched2.
    set (f := fun a => ping_host platform_system (run1 0) a default_timeout_ms).
    set (L := map (fun d => make_result d (f (ip d))) devices).
    assert (P1 : Permutation
                   (bulk_status platform_system run1 sched1 devices) L).
    { rewrite bulk_status_perm. unfold L.
      rewrite (@submit_all_outcomes platform_system run1 f devices);
        [reflexivity|].
      intros i d Hd. unfold f.
      rewrite (Hs i 0 d Hd). symmetry. apply (Hs 0 0 d Hd). }
    assert (P2 : Permutation
                   (bulk_status platform_system run2 sched2 devices) L).
    { rewrite bulk_status_perm. unfold L.
      rewrite (@submit_all_outcomes platform_system run2 f devices);
        [reflexivity|].
      intros i d Hd. unfold f. symmetry. apply (Hs 0 i d Hd). }
    apply sorted_perm_unique
      with (R := fun x y => key_le (sort_key x) (sort_key y)).
    - apply sort_by_key_sorted.
    - apply sort_by_key_sorted.
    - now rewrite P1, P2.
    - intros a b Ha Hb. apply (@distinct_keys_no_tie devices f a b Hk).
      + eapply Permutation_in; [exact P1|exact Ha].
      + eapply Permutation_in; [exact P1|exact Hb]. }
  split; [exact F|].
  intros s1 s2 report1 report2 R1 M1 R2 M2.
  destruct (round_report_sound R1 M1) as (sched1 & ->).
  destruct (round_report_sound R2 M2) as (sched2 & ->).
  apply F.
Qed.

Lemma C3_report_deterministic_witness :
  bulk_status "Linux" always_up [0]
    [mkDevice "a" "Google DNS" "8.8.8.8"; mkDevice "b" "Cloudflare DNS" "1.1.1.1"] =
  bulk_status "Linux" always_up [1]
    [mkDevice "a" "Google DNS" "8.8.8.8"; mkDevice "b" "Cloudflare DNS" "1.1.1.1"].
Proof.
  refine (proj1 (@C3_report_deterministic "Linux" always_up always_up
    [mkDevice "a" "Google DNS" "8.8.8.8"; mkDevice "b" "Cloudflare DNS" "1.1.1.1"]
    _ _) [0] [1]).
  - intros d1 d2 [<-|[<-|[]]] [<-|[<-|[]]]; simpl; intros H1 H2;
      try reflexivity; discriminate.
  - intros i j d _. reflexivity.
Defined.

(** C4.  At every moment of a round the number of probes in flight is at
    most [W = min(64, max(4, len(devices)))], that is [len(devices)]
    clamped to [4..64]: at most 64 for 200 devices, and [W = 4] for fewer
    than 4 devices. *)
Theorem C4_in_flight_bounded
    (platform_system : string) (subprocess_run : nat -> list string -> result Z)
    (devices : list Device) (s : Round) :
  reachable platform_system subprocess_run devices s ->
  let W := max_workers devices in
  let n := Z.of_nat (List.length devices) in
  (Z.of_nat (List.length (running s)) <= W)%Z /\
  (forall t1 t2, trace s = (t1 ++ t2)%list -> (in_flight t1 <= W)%Z) /\
  (4 <= W <= 64)%Z /\
  (n < 4 -> W = 4)%Z /\ (4 <= n <= 64 -> W = n)%Z /\ (64 < n -> W = 64)%Z /\
  (n = 200 -> forall t1 t2, trace s = (t1 ++ t2)%list -> in_flight t1 <= 64)%Z.
Proof.
  intros Hr W n.
  pose proof (pool_inv_reachable Hr) as (I1 & I2 & I3 & I4).
  pose proof (max_workers_bounds devices) as HW.
  assert (Hp : forall t1 t2, trace s = (t1 ++ t2)%list -> (in_flight t1 <= W)%Z).
  { intros t1 t2 Ht. now apply (in_flight_prefix_bound Hr t1 t2 Ht). }
  repeat split; try (unfold W, n, max_workers in *; lia).
  - exact Hp.
  - intros Hn t1 t2 Ht. specialize (Hp t1 t2 Ht).
    unfold W, n, max_workers in *. lia.
Qed.

Lemma C4_in_flight_bounded_witness :
  (Z.of_nat (List.length (running probing_one)) <= max_workers one_device)%Z.
Proof.
  exact (proj1 (@C4_in_flight_bounded "Linux" always_up one_device
                  probing_one probing_one_reachable)).
Defined.

(** C5, as stated, fails: on the empty list the executor is created all the
    same, before anything else. *)
Lemma C5_pool_created_for_empty_list :
  ~ (forall (platform_system : string)
            (subprocess_run : nat -> list string -> result Z) (s : Round),
        reachable platform_system subprocess_run [] s ->
        existsb is_pool_event (trace s) = false /\
        existsb is_probe_event (trace s) = false /\
        (forall r, main s = Returned r -> r = [])).
Proof.
  intros H.
  destruct (H "Linux" always_up empty_3
              (empty_round_returns "Linux" always_up))
    as (Hpool & _).
  discriminate Hpool.
Qed.

(** C5, amended.  On the empty list [bulk_status] creates the executor
    (with width 4) and then returns the empty report, without submitting a
    task, starting a worker thread or invoking the prober. *)
Theorem C5_empty_list
    (platform_system : string) (subprocess_run : nat -> list string -> result Z) :
  (forall sched, bulk_status platform_system subprocess_run sched [] = []) /\
  (exists s, reachable platform_system subprocess_run [] s /\
             main s = Returned []) /\
  (forall s, reachable platform_system subprocess_run [] s ->
     existsb is_probe_event (trace s) = false /\
     threads s = 0 /\
     (forall r, main s = Returned r ->
        r = [] /\ trace s = [EvPool 4; EvReturn])).
Proof.
  split; [reflexivity|]. split.
  - exists empty_3. split; [apply empty_round_returns|reflexivity].
  - intros s Hr.
    destruct (empty_round_states Hr) as [-> | [-> | [-> | ->]]];
      (split; [reflexivity|]); (split; [reflexivity|]);
      intros r Hm; simpl in Hm; try discriminate Hm.
    injection Hm as <-. split; reflexivity.
Qed.

Lemma C5_empty_list_witness :
  existsb is_probe_event (trace empty_3) = false /\
  threads empty_3 = 0 /\
  (forall r, main empty_3 = Returned r ->
     r = [] /\ trace empty_3 = [EvPool 4; EvReturn]).
Proof.
  exact (proj2 (proj2 (C5_empty_list "Linux" always_up))
               empty_3 (empty_round_returns "Linux" always_up)).
Defined.

(** ** The prober *)

(** C6.  [ping_host] never raises: for every address and timeout it returns
    a boolean, and that boolean is [False] whenever the command could not
    be built, [ping] could not be run or [ping] exited with a status other
    than 0.  Hence a round always returns one result per device, and the
    result of a device is the one its own probe gives, whatever happens to
    the probes of the other devices. *)
Theorem C6_prober_never_raises
    (platform_system : string) (run : list string -> result Z)
    (ip0 : string) (timeout_ms : Z) :
  (exists b, ping_host platform_system run ip0 timeout_ms = Ok b) /\
  (forall e, ping_cmd platform_system ip0 timeout_ms = Raise e ->
     ping_host platform_system run ip0 timeout_ms = Ok false) /\
  (forall cmd e, ping_cmd platform_system ip0 timeout_ms = Ok cmd ->
     run cmd = Raise e ->
     ping_host platform_system run ip0 timeout_ms = Ok false) /\
  (forall cmd rc, ping_cmd platform_system ip0 timeout_ms = Ok cmd ->
     run cmd = Ok rc -> rc <> 0%Z ->
     ping_host platform_system run ip0 timeout_ms = Ok false) /\
  (ping_host platform_system run ip0 timeout_ms = Ok true ->
     exists cmd, ping_cmd platform_system ip0 timeout_ms = Ok cmd /\
                 run cmd = Ok 0%Z) /\
  (forall (runs runs' : nat -> list string -> result Z) sched devices k d,
     nth_error devices k = Some d ->
     (forall cmd, runs' k cmd = runs k cmd) ->
     let report := bulk_status platform_system runs' sched devices in
     List.length report = List.length devices /\
     In (make_result d (ping_host platform_system (runs k) (ip d)
                                  default_timeout_ms)) report /\
     exists b, make_result d (ping_host platform_system (runs k) (ip d)
                                        default_timeout_ms)
               = mkResult (id d) (name d) (ip d) b).
Proof.
  rewrite ping_host_spec.
  split; [|split; [|split; [|split; [|split]]]].
  - eauto.
  - intros e ->. reflexivity.
  - intros cmd e -> ->. reflexivity.
  - intros cmd rc -> -> Hrc. f_equal. now apply Z.eqb_neq.
  - intros H. injection H as H.
    destruct (ping_cmd platform_system ip0 timeout_ms) as [cmd|]; [|discriminate].
    exists cmd. split; [reflexivity|].
    destruct (run cmd) as [rc|]; [|discriminate].
    apply Z.eqb_eq in H. now subst.
  - intros runs runs' sched devices k d Hk Hrun report. subst report.
    split; [|split].
    + unfold bulk_status. rewrite sort_length. unfold collect.
      rewrite length_map.
      rewrite (Permutation_length (as_completed_perm _ _)).
      apply submit_all_length.
    + eapply Permutation_in;
        [apply Permutation_sym, bulk_status_perm|].
      apply in_map_iff.
      exists (ping_host platform_system (runs' k) (ip d) default_timeout_ms, d).
      split.
      * simpl. now rewrite (ping_host_ext platform_system _ _ _ _ Hrun).
      * eapply nth_error_In.
        rewrite (submit_all_nth platform_system runs' devices 0 k Hk).
        reflexivity.
    + destruct (ping_host_total platform_system (runs k) (ip d)
                                default_timeout_ms) as [b ->].
      now exists b.
Qed.

Lemma C6_prober_never_raises_witness :
  ping_host "Linux" (fun _ => Raise FileNotFoundError) "8.8.8.8" 1200
  = Ok false.
Proof.
  exact (proj1 (proj2 (proj2
           (C6_prober_never_raises "Linux" (fun _ => Raise FileNotFoundError)
                                   "8.8.8.8" 1200)))
           ["ping"; "-c"; "1"; "-W"; "1"; "8.8.8.8"] FileNotFoundError
           eq_refl eq_refl).
Defined.

(** C10, as stated, fails: for a timeout so large that
    [timeout_ms / 1000] overflows a float the division raises, so
    [ping_host] returns [False] and [ping] is not given any wait. *)
Lemma C10_no_wait_on_overflow :
  ~ (forall timeout_ms : Z, exists r : Z,
        ping_cmd "Linux" "8.8.8.8" timeout_ms =
        Ok ["ping"; "-c"; "1"; "-W"; PyStr.str (Z.max 1 r); "8.8.8.8"]).
Proof.
  intros H. destruct (H (1000 * 2 ^ 1024)%Z) as (r & Hr).
  assert (E : ping_cmd "Linux" "8.8.8.8" (1000 * 2 ^ 1024) =
              Raise OverflowError) by (vm_compute; reflexivity).
  rewrite E in Hr. discriminate Hr.
Qed.

(** C10, amended.  Off Windows, for every [timeout_ms] whose quotient
    [timeout_ms / 1000] does not overflow a float, [ping] is given
    [-W max(1, round(timeout_ms / 1000))], [round] rounding the float
    quotient to the nearest integer, ties to even.  That wait is 1 second
    for every such timeout of 1499 ms or less, and no timeout from 0 to
    1499 ms overflows, the default 1200 among them; so a requested timeout
    below 1000 ms lets the probe wait a full second, longer than asked.
    When the quotient does overflow, [ping] is not run and the answer is
    [False]. *)
Theorem C10_ping_wait_seconds
    (platform_system : string) (run : list string -> result Z) (ip0 : string) :
  (PyStr.lower platform_system =? "windows") = false ->
  (forall timeout_ms q,
     PyNum.truediv timeout_ms 1000 = Ok q ->
     exists r,
       PyNum.round q = Ok r /\
       ping_cmd platform_system ip0 timeout_ms =
         Ok ["ping"; "-c"; "1"; "-W"; PyStr.str (Z.max 1 r); ip0] /\
       ping_host platform_system run ip0 timeout_ms =
         Ok match run ["ping"; "-c"; "1"; "-W"; PyStr.str (Z.max 1 r); ip0] with
            | Ok rc => (rc =? 0)%Z
            | Raise _ => false
            end /\
       ((timeout_ms <= 1499)%Z -> Z.max 1 r = 1%Z)) /\
  (forall timeout_ms e,
     PyNum.truediv timeout_ms 1000 = Raise e ->
     ping_host platform_system run ip0 timeout_ms = Ok false) /\
  (forall timeout_ms, (0 <= timeout_ms <= 1499)%Z ->
     ping_wait_secs timeout_ms = Ok 1%Z) /\
  ping_wait_secs default_timeout_ms = Ok 1%Z /\
  (forall timeout_ms, (0 <= timeout_ms < 1000)%Z ->
     exists secs, ping_wait_secs timeout_ms = Ok secs /\
                  (timeout_ms < 1000 * secs)%Z) /\
  (forall timeout_ms, (0 <= timeout_ms <= 10000)%Z ->
     ping_wait_secs timeout_ms =
     Ok (Z.max 1 (PyNum.round_half_even_div timeout_ms 1000))).
Proof.
  intros Hw.
  split; [|split; [|split; [|split; [|split]]]].
  - intros timeout_ms q Hq.
    destruct (truediv_round _ _ Hq) as (r & Hr). exists r.
    assert (Hs : ping_wait_secs timeout_ms = Ok (Z.max 1 r)).
    { unfold ping_wait_secs. rewrite Hq. cbn [rbind]. now rewrite Hr. }
    assert (Hc : ping_cmd platform_system ip0 timeout_ms =
                 Ok ["ping"; "-c"; "1"; "-W"; PyStr.str (Z.max 1 r); ip0])
      by now rewrite (ping_cmd_not_windows _ _ _ Hw), Hs.
    split; [exact Hr|split; [exact Hc|split]].
    + now rewrite ping_host_spec, Hc.
    + intros Ht. destruct (Z_lt_le_dec timeout_ms 0) as [Hneg|Hpos].
      * apply (ping_wait_secs_negative Hneg Hs).
      * pose proof (@ping_wait_secs_small timeout_ms ltac:(lia)) as H1.
        rewrite Hs in H1. now injection H1.
  - intros timeout_ms e He.
    rewrite ping_host_spec, (ping_cmd_not_windows _ _ _ Hw).
    unfold ping_wait_secs. now rewrite He.
  - apply ping_wait_secs_small.
  - apply ping_wait_secs_small. unfold default_timeout_ms. lia.
  - intros timeout_ms Ht. exists 1%Z. split; [|lia].
    apply ping_wait_secs_small. lia.
  - apply ping_wait_secs_exact.
Qed.

Lemma C10_ping_wait_seconds_witness :
  exists r,
    PyNum.round (S754_finite false 5404319552844595 (-52)) = Ok r /\
    ping_cmd "Linux" "8.8.8.8" 1200 =
      Ok ["ping"; "-c"; "1"; "-W"; PyStr.str (Z.max 1 r); "8.8.8.8"] /\
    ping_host "Linux" (fun _ => Ok 0%Z) "8.8.8.8" 1200 =
      Ok match (fun _ : list string => @Ok Z 0%Z)
                 ["ping"; "-c"; "1"; "-W"; PyStr.str (Z.max 1 r); "8.8.8.8"] with
         | Ok rc => (rc =? 0)%Z
         | Raise _ => false
         end /\
    ((1200 <= 1499)%Z -> Z.max 1 r = 1%Z).
Proof.
  exact (proj1 (C10_ping_wait_seconds "Linux" (fun _ => Ok 0%Z) "8.8.8.8"
                  eq_refl)
               1200%Z (S754_finite false 5404319552844595 (-52)) eq_refl).
Defined.

(** ** The registry routes *)

(** C7, as stated, fails: when a stored record lacks its id, the loader
    assigns one and rewrites the file before the duplicate is found. *)
Lemma C7_duplicate_add_may_write :
  let uuid4 := fun n : nat => ("uuid-" ++ PyStr.str (Z.of_nat n))%string in
  let st := mkStore (Some [mkStored None "Cloudflare DNS" "1.1.1.1"]) [] 0 in
  let data := mkAdd (Some "Other") (Some "1.1.1.1") in
  snd (fst (add_device uuid4 data st)) = 409%Z /\
  writes (snd (add_device uuid4 data st)) <> writes st /\
  file (snd (add_device uuid4 data st)) <> file st.
Proof.
  vm_compute. repeat split; discriminate.
Qed.

(** C7, amended.  When the request's name and ip are not empty once
    stripped and a stored device has exactly the stripped ip, [add_device]
    answers 409 and adds nothing: the stored collection keeps its length,
    names and ips; and when every stored record already carries an id, the
    store is left as it was and nothing is written. *)
Theorem C7_duplicate_ip_rejected
    (uuid4 : nat -> string) (data : AddRequest) (st : Store)
    (stored : list Stored) :
  file st = Some stored ->
  PyStr.is_empty (PyStr.strip (or_empty (req_name data))) = false ->
  PyStr.is_empty (PyStr.strip (or_empty (req_ip data))) = false ->
  In (PyStr.strip (or_empty (req_ip data))) (map s_ip stored) ->
  let resp := fst (add_device uuid4 data st) in
  let st' := snd (add_device uuid4 data st) in
  resp = (JError "device with this IP already exists", 409%Z) /\
  (exists stored', file st' = Some stored' /\
     List.length stored' = List.length stored /\
     map s_name stored' = map s_name stored /\
     map s_ip stored' = map s_ip stored) /\
  (forallb has_id stored = true -> st' = st /\ writes st' = writes st).
Proof.
  intros Hf Hn Hi Hdup resp st'. subst resp st'.
  rewrite add_device_unfold. cbv zeta. rewrite Hn, Hi. simpl orb. cbv iota.
  destruct (load_devices uuid4 st) as [devices st1] eqn:El.
  destruct (load_devices_file _ _ El) as (Hf1 & Hkeep).
  destruct (Hkeep _ Hf) as (Hnames & Hips & _).
  assert (Hex : existsb (same_ip (PyStr.strip (or_empty (req_ip data))))
                        devices = true).
  { rewrite <- Hips in Hdup. apply in_map_iff in Hdup.
    destruct Hdup as (d & Hd & Hin).
    apply existsb_exists. exists d. split; [exact Hin|].
    unfold same_ip. now apply String.eqb_eq. }
  rewrite Hex. simpl. split; [reflexivity|]. split.
  - exists (map to_stored devices). split; [exact Hf1|].
    rewrite !map_map. simpl.
    change (fun x => name x) with name. change (fun x => ip x) with ip.
    rewrite <- Hnames, <- Hips. rewrite length_map.
    repeat split; auto.
    rewrite <- (length_map name devices), Hnames. apply length_map.
  - intros Hall. destruct (has_id_to_stored _ Hall) as (ds & Hds).
    rewrite Hds in Hf. rewrite (load_devices_complete uuid4 _ _ Hf) in El.
    injection El as _ <-. auto.
Qed.

Lemma C7_duplicate_ip_rejected_witness :
  fst (add_device (fun _ => "u")
         (mkAdd (Some "Other") (Some " 1.1.1.1 "))
         (mkStore (Some [mkStored (Some "a") "Cloudflare DNS" "1.1.1.1"]) [] 0))
  = (JError "device with this IP already exists", 409%Z).
Proof.
  exact (proj1 (@C7_duplicate_ip_rejected (fun _ => "u")
           (mkAdd (Some "Other") (Some " 1.1.1.1 "))
           (mkStore (Some [mkStored (Some "a") "Cloudflare DNS" "1.1.1.1"]) [] 0)
           [mkStored (Some "a") "Cloudflare DNS" "1.1.1.1"]
           eq_refl eq_refl eq_refl (or_introl eq_refl))).
Defined.

(** C8, as stated, fails: with no [devices.json] yet, deleting an unknown
    id answers 404 but the loader has created the file. *)
Lemma C8_delete_unknown_may_write :
  let uuid4 := fun n : nat => ("uuid-" ++ PyStr.str (Z.of_nat n))%string in
  let st := mkStore None [] 0 in
  snd (fst (delete_device uuid4 "x" st)) = 404%Z /\
  writes (snd (delete_device uuid4 "x" st)) <> writes st /\
  file (snd (delete_device uuid4 "x" st)) <> file st.
Proof.
  vm_compute. repeat split; discriminate.
Qed.

(** C8, amended.  On a store whose file exists and whose records all carry
    an id: [delete_device] on an id that is not stored answers 404, writes
    nothing and leaves the store as it was; on a stored id it answers 200,
    removes the records with that id (exactly one record when ids are not
    repeated), keeps every other record unchanged and in place, and writes
    the reduced collection once. *)
Theorem C8_delete_device
    (uuid4 : nat -> string) (dev_id : string) (st : Store)
    (ds : list Device) :
  file st = Some (map to_stored ds) ->
  let kept := filter (fun d => negb (id d =? dev_id)%string) ds in
  (~ In dev_id (map id ds) ->
     delete_device uuid4 dev_id st = ((JError "not found", 404%Z), st)) /\
  (In dev_id (map id ds) ->
     delete_device uuid4 dev_id st =
     ((JOkTrue, 200%Z),
      {| file := Some (map to_stored kept);
         writes := (writes st ++ [map to_stored kept])%list;
         uuid_calls := uuid_calls st |}) /\
     ~ In dev_id (map id kept) /\
     (forall d, In d ds -> id d <> dev_id -> In d kept) /\
     (NoDup (map id ds) ->
        exists l1 d l2, ds = (l1 ++ d :: l2)%list /\ id d = dev_id /\
                        kept = (l1 ++ l2)%list)).
Proof.
  intros Hf kept.
  rewrite delete_device_unfold, (load_devices_complete uuid4 _ _ Hf).
  cbv zeta. fold kept.
  pose proof (filter_keeps_all (fun d => negb (id d =? dev_id)%string) ds)
    as Hall. fold kept in Hall.
  split.
  - intros Hni.
    assert (E : List.length kept = List.length ds).
    { apply Hall. intros x Hx.
      destruct (String.eqb_spec (id x) dev_id) as [E|]; [|reflexivity].
      exfalso. apply Hni. rewrite <- E. now apply in_map. }
    now rewrite E, Nat.eqb_refl.
  - intros Hin.
    assert (N : List.length kept <> List.length ds).
    { intros E. apply in_map_iff in Hin. destruct Hin as (d & Hd & Hin).
      pose proof (proj1 Hall E d Hin) as Hk. simpl in Hk.
      rewrite Hd, String.eqb_refl in Hk. discriminate. }
    apply Nat.eqb_neq in N. rewrite N.
    split; [reflexivity|]. split; [|split].
    + intros Hk. apply in_map_iff in Hk. destruct Hk as (d & Hd & Hk).
      unfold kept in Hk. apply filter_In in Hk. destruct Hk as [_ Hk].
      rewrite Hd, String.eqb_refl in Hk. discriminate.
    + intros d Hd Hne. unfold kept. apply filter_In. split; [exact Hd|].
      now destruct (String.eqb_spec (id d) dev_id).
    + intros Hnd. now apply filter_removes_one.
Qed.

Lemma C8_delete_device_witness :
  delete_device (fun _ => "u") "zz"
    (mkStore (Some (map to_stored [mkDevice "a" "Google DNS" "8.8.8.8"])) [] 0)
  = ((JError "not found", 404%Z),
     mkStore (Some (map to_stored [mkDevice "a" "Google DNS" "8.8.8.8"])) [] 0).
Proof.
  refine (proj1 (@C8_delete_device (fun _ => "u") "zz"
            (mkStore (Some (map to_stored [mkDevice "a" "Google DNS" "8.8.8.8"]))
                     [] 0)
            [mkDevice "a" "Google DNS" "8.8.8.8"] eq_refl) _).
  simpl. intros [H|[]]. discriminate H.
Defined.

(** C9.  On a successful add the device returned and stored has the
    request's name and ip with the spaces at both ends removed: each is the
    request's value minus a run of spaces before and after, and neither
    begins nor ends with a space.  The device is appended to the stored
    collection, which is then written. *)
Theorem C9_added_device_is_trimmed
    (uuid4 : nat -> string) (data : AddRequest) (st : Store)
    (d : Device) (code : Z) (st' : Store) :
  add_device uuid4 data st = ((JDevice d, code), st') ->
  code = 201%Z /\
  name d = PyStr.strip (or_empty (req_name data)) /\
  ip d = PyStr.strip (or_empty (req_ip data)) /\
  (exists pre post, or_empty (req_name data) = pre ++ name d ++ post /\
     PyStr.all_space pre = true /\ PyStr.all_space post = true) /\
  (exists pre post, or_empty (req_ip data) = pre ++ ip d ++ post /\
     PyStr.all_space pre = true /\ PyStr.all_space post = true) /\
  (forall c, PyStr.first_char (name d) = Some c \/
             PyStr.last_char (name d) = Some c \/
             PyStr.first_char (ip d) = Some c \/
             PyStr.last_char (ip d) = Some c -> PyStr.is_space c = false) /\
  (exists before, file st' = Some (map to_stored (before ++ [d])) /\
     fst (load_devices uuid4 st) = before /\
     last (writes st') [] = map to_stored (before ++ [d])).
Proof.
  rewrite add_device_unfold. cbv zeta.
  destruct (_ || _); [discriminate|].
  destruct (load_devices uuid4 st) as [devices st1].
  destruct (existsb _ devices); [discriminate|].
  intros H. injection H as <- <- <-. simpl.
  destruct (strip_spec (or_empty (req_name data))) as (Hn1 & Hn2 & Hn3).
  destruct (strip_spec (or_empty (req_ip data))) as (Hi1 & Hi2 & Hi3).
  repeat split; auto.
  - intros c [H|[H|[H|H]]]; auto.
  - exists devices. repeat split; auto. now rewrite last_last.
Qed.

Lemma C9_added_device_is_trimmed_witness :
  name (mkDevice "u" "Printer" "10.0.0.7")
  = PyStr.strip (or_empty (req_name (mkAdd (Some "  Printer ") (Some " 10.0.0.7")))).
Proof.
  exact (proj1 (proj2 (@C9_added_device_is_trimmed (fun _ => "u")
           (mkAdd (Some "  Printer ") (Some " 10.0.0.7"))
           (mkStore None [] 0)
           (mkDevice "u" "Printer" "10.0.0.7") 201%Z
           (snd (add_device (fun _ => "u")
                   (mkAdd (Some "  Printer ") (Some " 10.0.0.7"))
                   (mkStore None [] 0)))
           eq_refl))).
Defined.
(* ===================================================================== *)
(** * Further properties: the storage *)
(* ===================================================================== *)

Section StorageMore.
Variable uuid4 : nat -> string.

Lemma forallb_has_id_to_stored (ds : list Device) :
  forallb has_id (map to_stored ds) = true.
Proof. induction ds as [|d ds IH]; simpl; auto. Qed.

Lemma missing_ids_zero (data : list Stored) :
  missing_ids data = 0 <-> forallb has_id data = true.
Proof.
  unfold missing_ids. induction data as [|d data IH]; simpl; [tauto|].
  destruct (has_id d); simpl; [exact IH|]. split; discriminate.
Qed.

(** The loop of [load_devices] in closed form. *)
Lemma ensure_ids_closed (data : list Stored) :
  forall st,
    ensure_ids uuid4 data st =
    ((fill_ids uuid4 (uuid_calls st) data, negb (forallb has_id data)),
     {| file := file st; writes := writes st;
        uuid_calls := uuid_calls st + missing_ids data |}).
Proof.
  unfold missing_ids.
  induction data as [|d data IH]; intros st; simpl.
  - unfold ret. rewrite Nat.add_0_r. now destruct st.
  - unfold bind, ret. destruct d as [[i|] n a]; cbn [s_id s_name s_ip].
    + rewrite IH. reflexivity.
    + unfold new_uuid. rewrite IH. cbn [fst snd file writes uuid_calls].
      change (has_id {| s_id := None; s_name := n; s_ip := a |}) with false.
      cbn [negb andb orb filter List.length].
      now rewrite Nat.add_succ_r.
Qed.

Lemma fill_ids_names n (data : list Stored) :
  map name (fill_ids uuid4 n data) = map s_name data /\
  map ip (fill_ids uuid4 n data) = map s_ip data /\
  List.length (fill_ids uuid4 n data) = List.length data.
Proof.
  revert n. induction data as [|d data IH]; intros n; simpl; auto.
  destruct (s_id d); simpl; destruct (IH n) as (H1 & H2 & H3);
    destruct (IH (S n)) as (H1' & H2' & H3'); repeat split; congruence.
Qed.

Lemma fill_ids_complete n (ds : list Device) :
  fill_ids uuid4 n (map to_stored ds) = ds.
Proof.
  induction ds as [|d ds IH]; simpl; [reflexivity|].
  rewrite IH. now destruct d.
Qed.

(** [load_devices] in closed form. *)
Lemma load_devices_closed (st : Store) :
  load_devices uuid4 st =
  match file st with
  | None =>
      ([], {| file := Some []; writes := (writes st ++ [[]])%list;
              uuid_calls := uuid_calls st |})
  | Some data =>
      let ds := fill_ids uuid4 (uuid_calls st) data in
      if forallb has_id data then (ds, st)
      else (ds, {| file := Some (map to_stored ds);
                   writes := (writes st ++ [map to_stored ds])%list;
                   uuid_calls := uuid_calls st + missing_ids data |})
  end.
Proof.
  rewrite load_devices_unfold.
  destruct (file st) as [data|] eqn:Hf; [|reflexivity].
  rewrite ensure_ids_closed. cbv zeta.
  destruct (forallb has_id data) eqn:Hall; simpl; [|reflexivity].
  apply missing_ids_zero in Hall. rewrite Hall, Nat.add_0_r.
  destruct st; simpl in *. now subst.
Qed.

Lemma id_complete_iff (st : Store) :
  id_complete st <->
  exists data, file st = Some data /\ forallb has_id data = true.
Proof.
  unfold id_complete. split.
  - intros (ds & Hf). exists (map to_stored ds). split; [exact Hf|].
    apply forallb_has_id_to_stored.
  - intros (data & Hf & Hall).
    destruct (has_id_to_stored _ Hall) as (ds & ->). now exists ds.
Qed.

Lemma app_one_neq (A : Type) (l : list A) (x : A) : (l ++ [x])%list <> l.
Proof.
  intros H. apply (f_equal (@List.length A)) in H.
  rewrite length_app in H. simpl in H. lia.
Qed.

(** X1.  Loading is idempotent: once [load_devices] has run, the file
    holds exactly the devices it returned, and loading again (or
    [GET /api/devices]) returns the same devices and leaves the store as it
    is: no write, no new id. *)
Theorem X1_load_devices_idempotent (st : Store) :
  let ds := fst (load_devices uuid4 st) in
  let st1 := snd (load_devices uuid4 st) in
  file st1 = Some (map to_stored ds) /\
  load_devices uuid4 st1 = (ds, st1) /\
  get_devices uuid4 st1 = ((ds, 200%Z), st1).
Proof.
  intros ds st1.
  assert (Hf : file st1 = Some (map to_stored ds)).
  { apply (load_devices_file uuid4 st). subst ds st1.
    now destruct (load_devices uuid4 st). }
  assert (Hl : load_devices uuid4 st1 = (ds, st1))
    by now apply load_devices_complete.
  repeat split; auto.
  unfold get_devices, bind, ret. now rewrite Hl.
Qed.

(** X2.  On a file that exists, [load_devices] returns the records in file
    order with their names, ips and ids; a record without an id receives
    the next value of [uuid4], in file order.  It draws one value per such
    record, leaves the store untouched when there is none, and otherwise
    writes the repaired list once. *)
Theorem X2_load_devices_repairs (st : Store) (data : list Stored) :
  file st = Some data ->
  let ds := fst (load_devices uuid4 st) in
  let st' := snd (load_devices uuid4 st) in
  ds = fill_ids uuid4 (uuid_calls st) data /\
  List.length ds = List.length data /\
  map name ds = map s_name data /\ map ip ds = map s_ip data /\
  Forall2 (fun s d => forall i, s_id s = Some i -> id d = i) data ds /\
  uuid_calls st' = uuid_calls st + missing_ids data /\
  (missing_ids data = 0 -> st' = st) /\
  (missing_ids data <> 0 ->
     file st' = Some (map to_stored ds) /\
     writes st' = (writes st ++ [map to_stored ds])%list).
Proof.
  intros Hf ds st'.
  destruct (load_devices uuid4 st) as [ds0 st0] eqn:El.
  destruct (load_devices_file _ _ El) as (_ & Hkeep).
  destruct (Hkeep _ Hf) as (Hn & Hi & Hids).
  subst ds st'. simpl.
  rewrite load_devices_closed, Hf in El. cbv zeta in El.
  destruct (fill_ids_names (uuid_calls st) data) as (_ & _ & Hlen).
  destruct (forallb has_id data) eqn:Hall; injection El as <- <-.
  - apply missing_ids_zero in Hall.
    repeat split; auto; try lia.
  - repeat split; auto.
    intros H0. apply missing_ids_zero in H0. congruence.
Qed.

(** X3.  [load_devices] writes at most once, and what it writes is what it
    returns; it writes exactly when the file is missing or a record lacks
    its id.  On a missing file it returns the empty list. *)
Theorem X3_load_devices_writes (st : Store) :
  let ds := fst (load_devices uuid4 st) in
  let st' := snd (load_devices uuid4 st) in
  (writes st' = writes st \/
   writes st' = (writes st ++ [map to_stored ds])%list) /\
  (writes st' = writes st <-> id_complete st) /\
  (id_complete st -> st' = st) /\
  (file st = None -> ds = []).
Proof.
  intros ds st'. subst ds st'. rewrite load_devices_closed.
  destruct (file st) as [data|] eqn:Hf.
  - cbv zeta. destruct (forallb has_id data) eqn:Hall; simpl.
    + repeat split; auto.
      * intros _. apply id_complete_iff. eauto.
      * discriminate.
    + split; [now right|]. split; [split|split].
      * intros H. now apply app_one_neq in H.
      * intros Hc. apply id_complete_iff in Hc.
        destruct Hc as (data' & Hd & Hall'). congruence.
      * intros Hc. apply id_complete_iff in Hc.
        destruct Hc as (data' & Hd & Hall'). congruence.
      * discriminate.
  - simpl. split; [now right|]. split; [split|split]; auto.
    + intros H. now apply app_one_neq in H.
    + intros (ds & Hd). congruence.
    + intros (ds & Hd). congruence.
Qed.

(** X4.  What [save_devices] writes, [load_devices] reads back: after
    saving a list of devices, loading returns that list and writes
    nothing. *)
Theorem X4_save_load_round_trip (ds : list Device) (st : Store) :
  let st1 := snd (save_devices ds st) in
  load_devices uuid4 st1 = (ds, st1) /\
  writes st1 = (writes st ++ [map to_stored ds])%list /\
  uuid_calls st1 = uuid_calls st.
Proof.
  intros st1. repeat split. now apply load_devices_complete.
Qed.

End StorageMore.

(** ** Instances *)

Lemma X2_load_devices_repairs_witness :
  fst (load_devices uuid_seq
         (mkStore (Some [mkStored None "A" "1.1.1.1";
                         mkStored (Some "b") "B" "2.2.2.2";
                         mkStored None "C" "3.3.3.3"]) [] 0))
  = fill_ids uuid_seq 0
      [mkStored None "A" "1.1.1.1"; mkStored (Some "b") "B" "2.2.2.2";
       mkStored None "C" "3.3.3.3"].
Proof.
  exact (proj1 (@X2_load_devices_repairs uuid_seq
                  (mkStore (Some [mkStored None "A" "1.1.1.1";
                                  mkStored (Some "b") "B" "2.2.2.2";
                                  mkStored None "C" "3.3.3.3"]) [] 0)
                  _ eq_refl)).
Defined.

(* ===================================================================== *)
(** * Further properties: the routes *)
(* ===================================================================== *)

Lemma lstrip_cases (s : string) :
  (PyStr.all_space s = true /\ PyStr.lstrip s = "") \/
  (PyStr.all_space s = false /\
   exists c s', PyStr.lstrip s = String c s' /\ PyStr.is_space c = false).
Proof.
  induction s as [|a s IH]; simpl; [now left|].
  destruct (PyStr.is_space a) eqn:E; simpl; [exact IH|].
  right. split; [reflexivity|]. now exists a, s.
Qed.

(** A string strips to nothing exactly when it is made of spaces. *)
Lemma strip_empty_iff (s : string) :
  PyStr.is_empty (PyStr.strip s) = PyStr.all_space s.
Proof.
  unfold PyStr.strip.
  destruct (lstrip_cases s) as [(Ha & Hl)|(Ha & c & s' & Hl & Hc)];
    rewrite Ha, Hl; [reflexivity|].
  simpl. destruct (PyStr.rstrip s'); [now rewrite Hc|reflexivity].
Qed.

Lemma existsb_same_ip (ip0 : string) (ds : list Device) :
  existsb (same_ip ip0) ds = true <-> In ip0 (map ip ds).
Proof.
  rewrite existsb_exists, in_map_iff. unfold same_ip.
  split; intros (d & H1 & H2).
  - apply String.eqb_eq in H2. eauto.
  - exists d. split; [exact H2|]. now apply String.eqb_eq.
Qed.

Lemma NoDup_map_filter (A B : Type) (f : A -> B) (g : A -> bool)
      (l : list A) :
  NoDup (map f l) -> NoDup (map f (filter g l)).
Proof.
  induction l as [|x l IH]; simpl; [auto|].
  intros H. inversion H as [|? ? Hni Hnd]; subst.
  destruct (g x); simpl; [|auto].
  constructor; [|auto]. intros Hin. apply Hni.
  apply in_map_iff in Hin. destruct Hin as (y & Hy & Hin).
  apply filter_In in Hin. rewrite <- Hy. apply in_map. tauto.
Qed.

Lemma NoDup_snoc (A : Type) (l : list A) (x : A) :
  NoDup l -> ~ In x l -> NoDup (l ++ [x]).
Proof.
  intros Hnd Hni. apply NoDup_rev in Hnd.
  rewrite <- (rev_involutive (l ++ [x])). apply NoDup_rev.
  rewrite rev_app_distr. simpl. constructor; [|exact Hnd].
  now rewrite <- in_rev.
Qed.

Section RoutesMore.
Variable uuid4 : nat -> string.

(** The devices loaded have the ips of the file. *)
Lemma load_devices_ips (st : Store) :
  map ip (fst (load_devices uuid4 st)) = stored_ips st /\
  stored_ips (snd (load_devices uuid4 st)) = stored_ips st.
Proof.
  rewrite load_devices_closed. unfold stored_ips.
  destruct (file st) as [data|] eqn:Hf; [|now simpl].
  cbv zeta. destruct (fill_ids_names uuid4 (uuid_calls st) data)
    as (_ & Hi & _).
  destruct (forallb has_id data); simpl; rewrite ?Hf; split; auto.
  rewrite map_map. exact Hi.
Qed.


(** X6.  A request whose stripped name and ip are not empty is accepted
    exactly when no stored record has the stripped ip; names are not
    compared.  The new device takes the next value of [uuid4] as its id and
    is appended after the stored devices, the whole list is written, and a
    following [GET /api/devices] returns the old devices followed by the
    new one. *)
Theorem X6_add_device_accepts (data : AddRequest) (st : Store) :
  let name' := PyStr.strip (or_empty (req_name data)) in
  let ip' := PyStr.strip (or_empty (req_ip data)) in
  let before := fst (load_devices uuid4 st) in
  let st1 := snd (load_devices uuid4 st) in
  let d := mkDevice (uuid4 (uuid_calls st1)) name' ip' in
  let st' := snd (add_device uuid4 data st) in
  PyStr.is_empty name' = false -> PyStr.is_empty ip' = false ->
  (In ip' (stored_ips st) ->
     fst (add_device uuid4 data st) =
     (JError "device with this IP already exists", 409%Z)) /\
  (~ In ip' (stored_ips st) ->
     fst (add_device uuid4 data st) = (JDevice d, 201%Z) /\
     file st' = Some (map to_stored (before ++ [d])) /\
     writes st' = (writes st1 ++ [map to_stored (before ++ [d])])%list /\
     stored_ips st' = (stored_ips st ++ [ip'])%list /\
     get_devices uuid4 st' = (((before ++ [d])%list, 200%Z), st')).
Proof.
  intros name' ip' before st1 d st' Hn Hi.
  subst st'. rewrite add_device_unfold. cbv zeta.
  fold name' ip'. rewrite Hn, Hi. simpl orb. cbv iota.
  pose proof (load_devices_ips st) as (Hips & _). fold before in Hips.
  subst before st1 d.
  destruct (load_devices uuid4 st) as [devices st1] eqn:El. simpl in *.
  split.
  - intros Hin. rewrite <- Hips in Hin.
    apply existsb_same_ip in Hin. now rewrite Hin.
  - intros Hni. rewrite <- Hips in Hni.
    destruct (existsb (same_ip ip') devices) eqn:Hex.
    + apply existsb_same_ip in Hex. contradiction.
    + simpl. repeat split.
      * unfold stored_ips at 1. cbn [file].
        rewrite map_map, map_app, <- Hips. reflexivity.
      * unfold get_devices, bind, ret.
        erewrite load_devices_complete; reflexivity.
Qed.

End RoutesMore.

Section RequestsMore.
Variable uuid4 : nat -> string.
Variable platform_system : string.
Variable subprocess_run : nat -> list string -> result Z.

Local Abbreviation serve1 := (serve uuid4 platform_system subprocess_run).
Local Abbreviation serve_seq :=
  (serve_all uuid4 platform_system subprocess_run).

(** The three ways out of [add_device]. *)
Lemma add_device_cases (data : AddRequest) (st : Store) :
  let name' := PyStr.strip (or_empty (req_name data)) in
  let ip' := PyStr.strip (or_empty (req_ip data)) in
  let before := fst (load_devices uuid4 st) in
  let st1 := snd (load_devices uuid4 st) in
  let d := mkDevice (uuid4 (uuid_calls st1)) name' ip' in
  (PyStr.is_empty name' || PyStr.is_empty ip' = true /\
   add_device uuid4 data st =
   ((JError "name and ip are required", 400%Z), st)) \/
  (PyStr.is_empty name' || PyStr.is_empty ip' = false /\
   In ip' (map ip before) /\
   add_device uuid4 data st =
   ((JError "device with this IP already exists", 409%Z), st1)) \/
  (PyStr.is_empty name' || PyStr.is_empty ip' = false /\
   ~ In ip' (map ip before) /\
   add_device uuid4 data st =
   ((JDevice d, 201%Z),
    {| file := Some (map to_stored (before ++ [d]));
       writes := (writes st1 ++ [map to_stored (before ++ [d])])%list;
       uuid_calls := S (uuid_calls st1) |})).
Proof.
  intros name' ip' before st1 d. subst before st1 d.
  rewrite add_device_unfold. cbv zeta. fold name' ip'.
  destruct (PyStr.is_empty name' || PyStr.is_empty ip'); [now left|right].
  destruct (load_devices uuid4 st) as [devices st1]. cbn [fst snd].
  destruct (existsb (same_ip ip') devices) eqn:Hex.
  - left. split; [reflexivity|]. split; [|reflexivity].
    now apply existsb_same_ip.
  - right. split; [reflexivity|]. split; [|reflexivity].
    intros Hin. apply existsb_same_ip in Hin. congruence.
Qed.

(** The two ways out of [delete_device]. *)
Lemma delete_device_cases (dev_id : string) (st : Store) :
  let before := fst (load_devices uuid4 st) in
  let st1 := snd (load_devices uuid4 st) in
  let kept := filter (fun d => negb (id d =? dev_id)%string) before in
  (~ In dev_id (map id before) /\ kept = before /\
   delete_device uuid4 dev_id st = ((JError "not found", 404%Z), st1)) \/
  (In dev_id (map id before) /\
   delete_device uuid4 dev_id st =
   ((JOkTrue, 200%Z),
    {| file := Some (map to_stored kept);
       writes := (writes st1 ++ [map to_stored kept])%list;
       uuid_calls := uuid_calls st1 |})).
Proof.
  intros before st1 kept. subst before st1 kept.
  rewrite delete_device_unfold.
  destruct (load_devices uuid4 st) as [devices st1]. cbn [fst snd]. cbv zeta.
  set (keep := fun d => negb (id d =? dev_id)%string).
  pose proof (filter_keeps_all keep devices) as Hall.
  destruct (Nat.eqb_spec (List.length (filter keep devices))
                         (List.length devices)) as [E|N].
  - left. split; [|split; [|reflexivity]].
    + intros Hin. apply in_map_iff in Hin. destruct Hin as (d & Hd & Hin).
      pose proof (proj1 Hall E d Hin) as Hk. unfold keep in Hk.
      rewrite Hd, String.eqb_refl in Hk. discriminate.
    + apply forallb_filter_id. apply forallb_forall. now apply Hall.
  - right. split; [|reflexivity].
    destruct (in_dec string_dec dev_id (map id devices)) as [Hin|Hni];
      [exact Hin|].
    exfalso. apply N, Hall. intros x Hx. unfold keep.
    destruct (String.eqb_spec (id x) dev_id) as [<-|]; [|reflexivity].
    exfalso. apply Hni. now apply in_map.
Qed.

Lemma stored_ips_to_stored (ds : list Device) (w : list (list Stored))
      (n : nat) :
  stored_ips {| file := Some (map to_stored ds); writes := w;
                uuid_calls := n |} = map ip ds.
Proof. unfold stored_ips. cbn [file]. now rewrite map_map. Qed.

Lemma serve_ips_distinct (r : Request) (st : Store) :
  NoDup (stored_ips st) -> NoDup (stored_ips (snd (serve1 r st))).
Proof.
  intros Hnd.
  destruct (load_devices_ips uuid4 st) as (Hb & H1).
  destruct r as [|data|dev_id|sched]; unfold serve, bind, ret.
  - unfold get_devices, bind, ret.
    destruct (load_devices uuid4 st); cbn [fst snd] in *. congruence.
  - destruct (add_device_cases data st) as [(_ & ->)|[(_ & _ & ->)|(_ & Hni & ->)]];
      cbn [fst snd]; [exact Hnd|congruence|].
    rewrite stored_ips_to_stored, map_app. cbn [map].
    apply NoDup_snoc; [congruence|exact Hni].
  - destruct (delete_device_cases dev_id st) as [(_ & _ & ->)|(_ & ->)];
      cbn [fst snd]; [congruence|].
    rewrite stored_ips_to_stored. apply NoDup_map_filter. congruence.
  - unfold all_status, bind, ret.
    destruct (load_devices uuid4 st); cbn [fst snd] in *. congruence.
Qed.

(** X7.  No request makes two stored records share an ip: when the ips of
    [devices.json] are pairwise different (or the file is missing), they
    still are after any sequence of requests to the routes. *)
Theorem X7_distinct_ips_kept (rs : list Request) (st : Store) :
  NoDup (stored_ips st) ->
  NoDup (stored_ips (snd (serve_seq rs st))).
Proof.
  revert st. induction rs as [|r rs IH]; intros st Hnd; [exact Hnd|].
  cbn [serve_all]. unfold bind.
  pose proof (serve_ips_distinct r st Hnd) as H1.
  destruct (serve1 r st) as [[] st1]. now apply IH.
Qed.

(** What [load_devices] leaves behind. *)
Lemma load_devices_effect (st : Store) :
  let ds := fst (load_devices uuid4 st) in
  let st1 := snd (load_devices uuid4 st) in
  file st1 = Some (map to_stored ds) /\
  load_devices uuid4 st1 = (ds, st1) /\
  ((id_complete st /\ st1 = st) \/
   (~ id_complete st /\
    writes st1 = (writes st ++ [map to_stored ds])%list)).
Proof.
  intros ds st1.
  assert (Hf : file st1 = Some (map to_stored ds)).
  { apply (load_devices_file uuid4 st). subst ds st1.
    now destruct (load_devices uuid4 st). }
  split; [exact Hf|]. split; [now apply load_devices_complete|].
  subst ds st1. rewrite load_devices_closed.
  destruct (file st) as [data|] eqn:Hd.
  - cbv zeta. destruct (forallb has_id data) eqn:Hall; cbn [fst snd].
    + left. split; [|reflexivity]. apply id_complete_iff. eauto.
    + right. split; [|reflexivity]. intros Hc.
      apply id_complete_iff in Hc. destruct Hc as (data' & Hd' & Hall').
      congruence.
  - cbn [fst snd]. right. split; [|reflexivity].
    intros (ds & Hd'). congruence.
Qed.

(** X8.  The ip of a device that was just added is taken: a further
    request with the same ip once stripped, under whatever name, is
    answered 409 and leaves the store as it is. *)
Theorem X8_add_twice_rejected (data data' : AddRequest) (st : Store) :
  snd (fst (add_device uuid4 data st)) = 201%Z ->
  PyStr.strip (or_empty (req_ip data')) =
  PyStr.strip (or_empty (req_ip data)) ->
  PyStr.all_space (or_empty (req_name data')) = false ->
  let st' := snd (add_device uuid4 data st) in
  add_device uuid4 data' st' =
  ((JError "device with this IP already exists", 409%Z), st').
Proof.
  intros H201 Hip Hname st'. subst st'.
  destruct (add_device_cases data st)
    as [(_ & E)|[(_ & _ & E)|(Hb & _ & E)]];
    rewrite E in H201; cbn [fst snd] in H201; try discriminate H201.
  rewrite E. cbn [snd].
  set (d := mkDevice _ _ _) in *. set (before := fst _) in *.
  set (st' := mkStore _ _ _).
  assert (Hl : load_devices uuid4 st' = ((before ++ [d])%list, st'))
    by now apply load_devices_complete.
  apply orb_false_iff in Hb. destruct Hb as [_ Hbi].
  destruct (add_device_cases data' st')
    as [(Hb' & _)|[(_ & _ & E')|(_ & Hni & _)]].
  - exfalso. rewrite Hip, Hbi, orb_false_r, strip_empty_iff in Hb'.
    congruence.
  - rewrite E', Hl. reflexivity.
  - exfalso. apply Hni. rewrite Hl, Hip. cbn [fst].
    rewrite map_app. apply in_or_app. right. now left.
Qed.

(** X9.  Deleting a device that was just added succeeds and frees its ip:
    the same request is then accepted again.  When the id drawn for the
    device was not already stored, the deletion puts the stored devices
    back as they were before the add. *)
Theorem X9_add_then_delete (data : AddRequest) (st : Store) (d : Device) :
  fst (add_device uuid4 data st) = (JDevice d, 201%Z) ->
  let before := fst (load_devices uuid4 st) in
  let st' := snd (add_device uuid4 data st) in
  let st'' := snd (delete_device uuid4 (id d) st') in
  fst (delete_device uuid4 (id d) st') = (JOkTrue, 200%Z) /\
  snd (fst (add_device uuid4 data st'')) = 201%Z /\
  (~ In (id d) (map id before) ->
     load_devices uuid4 st'' = (before, st'')).
Proof.
  intros Hadd before st' st''. subst st'' st' before.
  destruct (add_device_cases data st)
    as [(_ & E)|[(_ & _ & E)|(Hb & Hni & E)]];
    rewrite E in Hadd; cbn [fst snd] in Hadd; try discriminate Hadd.
  injection Hadd as Hd. rewrite E. cbn [snd].
  set (before := fst (load_devices uuid4 st)) in *.
  rewrite Hd in *.
  set (st' := mkStore _ _ _).
  assert (Hl : load_devices uuid4 st' = ((before ++ [d])%list, st'))
    by now apply load_devices_complete.
  assert (Hipd : ip d = PyStr.strip (or_empty (req_ip data)))
    by now rewrite <- Hd.
  destruct (delete_device_cases (id d) st') as [(Hn & _)|(_ & E')].
  { exfalso. apply Hn. rewrite Hl. cbn [fst]. rewrite map_app.
    apply in_or_app. right. now left. }
  rewrite E', Hl. cbn [fst snd].
  set (kept := filter _ _).
  set (st'' := mkStore _ _ _).
  assert (Hl' : load_devices uuid4 st'' = (kept, st''))
    by now apply load_devices_complete.
  split; [reflexivity|]. split.
  - destruct (add_device_cases data st'')
      as [(Hb' & _)|[(_ & Hin & _)|(_ & _ & E'')]].
    + congruence.
    + exfalso. rewrite Hl' in Hin. cbn [fst] in Hin.
      apply in_map_iff in Hin. destruct Hin as (x & Hx & Hin).
      unfold kept in Hin. apply filter_In in Hin. destruct Hin as [Hin Hk].
      apply in_app_or in Hin. destruct Hin as [Hin|[<-|[]]].
      * apply Hni. rewrite <- Hx. now apply in_map.
      * rewrite String.eqb_refl in Hk. discriminate.
    + now rewrite E''.
  - intros Hfresh. rewrite Hl'. f_equal. unfold kept.
    rewrite filter_app. cbn [filter]. rewrite String.eqb_refl. cbn [negb].
    rewrite app_nil_r. apply forallb_filter_id. apply forallb_forall.
    intros x Hx. destruct (String.eqb_spec (id x) (id d)) as [Ex|];
      [|reflexivity].
    exfalso. apply Hfresh. rewrite <- Ex. now apply in_map.
Qed.

(** X10.  On any store, [delete_device] answers 404 exactly when no loaded
    device has the id and 200 otherwise; afterwards the file holds the
    loaded devices without those of that id, and a second deletion of the
    same id is answered 404 and changes nothing. *)
Theorem X10_delete_device_any_store (dev_id : string) (st : Store) :
  let before := fst (load_devices uuid4 st) in
  let kept := filter (fun d => negb (id d =? dev_id)%string) before in
  let resp := fst (delete_device uuid4 dev_id st) in
  let st' := snd (delete_device uuid4 dev_id st) in
  (resp = (JError "not found", 404%Z) <-> ~ In dev_id (map id before)) /\
  (resp = (JOkTrue, 200%Z) <-> In dev_id (map id before)) /\
  load_devices uuid4 st' = (kept, st') /\
  delete_device uuid4 dev_id st' = ((JError "not found", 404%Z), st').
Proof.
  intros before kept resp st'.
  assert (Hk : ~ In dev_id (map id kept)).
  { intros Hin. apply in_map_iff in Hin. destruct Hin as (x & Hx & Hin).
    apply filter_In in Hin. destruct Hin as [_ Hin].
    rewrite Hx, String.eqb_refl in Hin. discriminate. }
  assert (Hl : load_devices uuid4 st' = (kept, st')).
  { subst resp st'.
    destruct (load_devices_effect st) as (_ & Hl1 & _). fold before in Hl1.
    destruct (delete_device_cases dev_id st) as [(_ & Hkb & E)|(_ & E)];
      rewrite E; cbn [snd].
    - fold before kept in Hkb. now rewrite Hkb.
    - now apply load_devices_complete. }
  assert (H2 : delete_device uuid4 dev_id st' =
               ((JError "not found", 404%Z), st')).
  { destruct (delete_device_cases dev_id st') as [(_ & _ & E)|(Hin & _)].
    - rewrite E, Hl. reflexivity.
    - rewrite Hl in Hin. contradiction. }
  subst resp.
  destruct (delete_device_cases dev_id st) as [(Hn & _ & E)|(Hin & E)];
    rewrite E; cbn [fst];
    (split; [split|split; [split|split]]); auto; try discriminate;
    intros; contradiction.
Qed.

(** X11.  Every request that gets past the validation of [add_device]
    leaves a [devices.json] that exists and in which every record carries
    an id; and no request undoes that. *)
Theorem X11_requests_leave_complete_file (r : Request) (st : Store) :
  (id_complete st -> id_complete (snd (serve1 r st))) /\
  ((forall data, r = ReqAddDevice data ->
      snd (fst (add_device uuid4 data st)) <> 400%Z) ->
   id_complete (snd (serve1 r st))).
Proof.
  destruct (load_devices_effect st) as (Hf1 & _ & _).
  assert (Hc1 : id_complete (snd (load_devices uuid4 st)))
    by (eexists; exact Hf1).
  destruct r as [|data|dev_id|sched]; unfold serve, bind, ret.
  - unfold get_devices, bind, ret.
    destruct (load_devices uuid4 st); cbn [fst snd] in *. tauto.
  - destruct (add_device_cases data st)
      as [(_ & E)|[(_ & _ & E)|(_ & _ & E)]]; rewrite E; cbn [fst snd].
    + split; [tauto|]. intros H. specialize (H data eq_refl).
      rewrite E in H. now elim H.
    + tauto.
    + split; intros _; eexists; reflexivity.
  - destruct (delete_device_cases dev_id st) as [(_ & _ & E)|(_ & E)];
      rewrite E; cbn [fst snd]; [tauto|].
    split; intros _; eexists; reflexivity.
  - unfold all_status, bind, ret.
    destruct (load_devices uuid4 st); cbn [fst snd] in *. tauto.
Qed.

(** Where a request leaves the store: untouched, as loaded, or as loaded
    and then saved once. *)
Lemma serve_effect (r : Request) (st : Store) :
  let st1 := snd (load_devices uuid4 st) in
  (is_read r = false /\ snd (serve1 r st) = st) \/
  snd (serve1 r st) = st1 \/
  (is_read r = false /\
   exists saved n,
     snd (serve1 r st) =
     {| file := Some saved; writes := (writes st1 ++ [saved])%list;
        uuid_calls := n |}).
Proof.
  intros st1. subst st1.
  destruct r as [|data|dev_id|sched]; unfold serve, bind, ret.
  - right. left. unfold get_devices, bind, ret.
    now destruct (load_devices uuid4 st).
  - destruct (add_device_cases data st)
      as [(_ & E)|[(_ & _ & E)|(_ & _ & E)]]; rewrite E; cbn [fst snd].
    + left. now split.
    + right. now left.
    + right. right. split; [reflexivity|]. eauto.
  - destruct (delete_device_cases dev_id st) as [(_ & _ & E)|(_ & E)];
      rewrite E; cbn [fst snd].
    + right. now left.
    + right. right. split; [reflexivity|]. eauto.
  - right. left. unfold all_status, bind, ret.
    now destruct (load_devices uuid4 st).
Qed.

(** X12.  A request writes [devices.json] at most twice (once for the
    repair by [load_devices], once for the route's own change) and at most
    once when every record already carries an id; the two reading routes
    write only to repair.  After the request the file holds what was
    written last, and a request that wrote nothing left the store as it
    was. *)
Theorem X12_writes_per_request (r : Request) (st : Store) :
  let st' := snd (serve1 r st) in
  exists w : list (list Stored),
    writes st' = (writes st ++ w)%list /\
    List.length w <= 2 /\
    (w = [] -> st' = st) /\
    (w <> [] -> file st' = Some (last w [])) /\
    (id_complete st -> List.length w <= 1) /\
    (is_read r = true ->
     List.length w <= 1 /\ (id_complete st -> w = [])).
Proof.
  intros st'. subst st'.
  destruct (load_devices_effect st) as (Hf1 & _ & Hw).
  set (ds := fst (load_devices uuid4 st)) in *.
  set (st1 := snd (load_devices uuid4 st)) in *.
  assert (L : exists w1,
             writes st1 = (writes st ++ w1)%list /\ List.length w1 <= 1 /\
             (w1 = [] -> st1 = st) /\
             (w1 <> [] -> file st1 = Some (last w1 [])) /\
             (id_complete st -> w1 = [])).
  { destruct Hw as [(Hc & E)|(Hn & E)].
    - exists []. rewrite E, app_nil_r.
      split; [reflexivity|]. split; [simpl; lia|]. split; [auto|].
      split; [|auto]. intros H. now elim H.
    - exists [map to_stored ds].
      split; [exact E|]. split; [simpl; lia|]. split; [discriminate|].
      split; [auto|]. intros Hc. contradiction. }
  destruct L as (w1 & L1 & L2 & L3 & L4 & L5).
  destruct (serve_effect r st) as [(Hr & E)|[E|(Hr & saved & n & E)]];
    fold st1 in E; rewrite E.
  - exists []. rewrite app_nil_r.
    split; [reflexivity|]. split; [simpl; lia|]. split; [auto|].
    split; [intros H; now elim H|]. split; [simpl; lia|]. congruence.
  - exists w1.
    split; [exact L1|]. split; [lia|]. split; [exact L3|].
    split; [exact L4|]. split; [|split; [lia|exact L5]].
    intros Hc. rewrite (L5 Hc). simpl. lia.
  - exists (w1 ++ [saved])%list. cbn [writes file].
    rewrite L1, <- app_assoc, length_app. cbn [List.length].
    split; [reflexivity|]. split; [lia|]. split; [|split; [|split]].
    + intros H. now destruct w1.
    + intros _. now rewrite last_last.
    + intros Hc. rewrite (L5 Hc). simpl. lia.
    + congruence.
Qed.

End RequestsMore.

Section StatusMore.
Variable uuid4 : nat -> string.
Variable platform_system : string.
Variable subprocess_run : nat -> list string -> result Z.

Local Abbreviation status := (all_status uuid4 platform_system subprocess_run).

Lemma bulk_status_one_per_device (sched : list nat) (devices : list Device) :
  one_result_per_device devices
    (bulk_status platform_system subprocess_run sched devices).
Proof.
  pose proof (bulk_status_devices platform_system subprocess_run sched
                                  devices) as P.
  split; [exact P|split].
  - apply (Permutation_map id) in P. rewrite map_map in P. exact P.
  - apply Permutation_length in P. now rewrite length_map in P.
Qed.

Lemma all_status_unfold (sched : list nat) (st : Store) :
  status sched st =
  ((bulk_status platform_system subprocess_run sched
                (fst (load_devices uuid4 st)), 200%Z),
   snd (load_devices uuid4 st)).
Proof.
  unfold all_status, bind, ret. now destruct (load_devices uuid4 st).
Qed.

(** X13.  [GET /api/status] answers 200 with one result per stored record,
    in ascending order of (lowercased name, ip); the ips reported are the
    ips of the file, rearranged.  Its only effect on the storage is the
    repair done by [load_devices]: none when every record carries an id,
    and the creation of an empty file (with an empty report) when the file
    is missing; a following [GET /api/devices] lists the devices that were
    probed. *)
Theorem X13_all_status_report (sched : list nat) (st : Store) :
  let ds := fst (load_devices uuid4 st) in
  let report := fst (fst (status sched st)) in
  let st' := snd (status sched st) in
  snd (fst (status sched st)) = 200%Z /\
  one_result_per_device ds report /\ sorted_by_key report /\
  Permutation (map r_ip report) (stored_ips st) /\
  st' = snd (load_devices uuid4 st) /\
  (id_complete st -> st' = st) /\
  (file st = None -> report = [] /\ file st' = Some []) /\
  get_devices uuid4 st' = ((ds, 200%Z), st').
Proof.
  intros ds report st'. subst report st'. rewrite all_status_unfold.
  cbn [fst snd]. fold ds.
  pose proof (bulk_status_one_per_device sched ds) as H1.
  destruct (load_devices_effect uuid4 st) as (_ & Hl & Hw).
  fold ds in Hl, Hw.
  split; [reflexivity|]. split; [exact H1|]. split; [|split; [|split]].
  - apply sort_by_key_sorted.
  - destruct H1 as (P & _). apply (Permutation_map ip) in P.
    rewrite map_map in P. cbn [result_device ip] in P.
    rewrite P. destruct (load_devices_ips uuid4 st) as (Hi & _).
    fold ds in Hi. now rewrite Hi.
  - reflexivity.
  - split; [|split].
    + intros Hc. destruct Hw as [(_ & E)|(Hn & _)]; [exact E|contradiction].
    + intros Hnone. subst ds. rewrite load_devices_closed, Hnone.
      split; reflexivity.
    + unfold get_devices, bind, ret. now rewrite Hl.
Qed.

(** X14.  A device that was just added is probed by the next
    [GET /api/status]: the report has a result with its id, name and ip,
    and one result more than there were devices before; that status
    request changes nothing in the store. *)
Theorem X14_added_device_is_reported
    (data : AddRequest) (st : Store) (d : Device) (sched : list nat) :
  fst (add_device uuid4 data st) = (JDevice d, 201%Z) ->
  let st' := snd (add_device uuid4 data st) in
  let report := fst (fst (status sched st')) in
  (exists b, In (mkResult (id d) (name d) (ip d) b) report) /\
  List.length report = S (List.length (fst (load_devices uuid4 st))) /\
  snd (status sched st') = st'.
Proof.
  intros Hadd st' report. subst report st'.
  destruct (add_device_cases uuid4 data st)
    as [(_ & E)|[(_ & _ & E)|(Hb & Hni & E)]];
    rewrite E in Hadd; cbn [fst snd] in Hadd; try discriminate Hadd.
  injection Hadd as Hd. rewrite E. cbn [snd].
  set (before := fst (load_devices uuid4 st)) in *. rewrite Hd.
  set (st' := mkStore _ _ _).
  assert (Hl : load_devices uuid4 st' = ((before ++ [d])%list, st'))
    by now apply load_devices_complete.
  rewrite all_status_unfold, Hl. cbn [fst snd].
  destruct (bulk_status_one_per_device sched (before ++ [d])) as (P & _ & Hlen).
  split; [|split; [|reflexivity]].
  - assert (Hin : In d (map result_device
                          (bulk_status platform_system subprocess_run sched
                                       (before ++ [d])))).
    { eapply Permutation_in; [apply Permutation_sym; exact P|].
      apply in_or_app. right. now left. }
    apply in_map_iff in Hin. destruct Hin as ([i n a b] & Hr & Hin).
    exists b. unfold result_device in Hr. cbn in Hr.
    replace (mkResult (id d) (name d) (ip d) b) with (mkResult i n a b)
      by (rewrite <- Hr; reflexivity).
    exact Hin.
  - rewrite Hlen, length_app. cbn [List.length]. lia.
Qed.

Lemma app_main_unfold (st : Store) :
  app_main uuid4 st =
  match file st with
  | Some _ => (tt, st)
  | None =>
      let seed := [mkDevice (uuid4 (uuid_calls st)) "Google DNS" "8.8.8.8";
                   mkDevice (uuid4 (S (uuid_calls st))) "Cloudflare DNS"
                            "1.1.1.1"] in
      (tt, {| file := Some (map to_stored seed);
              writes := (writes st ++ [map to_stored seed])%list;
              uuid_calls := S (S (uuid_calls st)) |})
  end.
Proof.
  unfold app_main, bind, ret, path_exists, new_uuid, save_devices.
  destruct (file st); reflexivity.
Qed.

(** X15.  The start-up block never touches a [devices.json] that exists,
    whatever it holds; when the file is missing it draws two ids and
    writes the two seed devices, Google DNS before Cloudflare DNS, after
    which [load_devices] returns them without repairing anything.  So the
    block run a second time does nothing, and it seeds nothing once a
    request has gone through [load_devices], which leaves an empty
    list. *)
Theorem X15_startup_seeds (st : Store) :
  let st' := snd (app_main uuid4 st) in
  let seed := [mkDevice (uuid4 (uuid_calls st)) "Google DNS" "8.8.8.8";
               mkDevice (uuid4 (S (uuid_calls st))) "Cloudflare DNS"
                        "1.1.1.1"] in
  (file st <> None -> st' = st) /\
  (file st = None ->
     load_devices uuid4 st' = (seed, st') /\
     writes st' = (writes st ++ [map to_stored seed])%list /\
     uuid_calls st' = S (S (uuid_calls st))) /\
  app_main uuid4 st' = (tt, st') /\
  (file st = None ->
     load_devices uuid4 (snd (app_main uuid4 (snd (load_devices uuid4 st))))
     = ([], snd (load_devices uuid4 st))).
Proof.
  intros st' seed. subst st'. rewrite (app_main_unfold st).
  destruct (file st) as [data|] eqn:Hf; cbv zeta; cbn [snd].
  - split; [reflexivity|]. split; [discriminate|].
    rewrite (app_main_unfold st), Hf. split; [reflexivity|discriminate].
  - split; [intros H; now elim H|]. split; [|split].
    + intros _. split; [|split; reflexivity].
      now apply load_devices_complete.
    + now rewrite app_main_unfold.
    + intros _. rewrite (load_devices_closed uuid4 st), Hf. cbn [snd].
      rewrite app_main_unfold. cbn [file snd].
      now apply (load_devices_complete uuid4 []).
Qed.

End StatusMore.

(** ** Instances *)

Lemma X6_add_device_accepts_witness :
  fst (add_device uuid_seq (mkAdd (Some " Printer ") (Some "10.0.0.7 "))
                  (mkStore None [] 0))
  = (JDevice (mkDevice "uuid-0" "Printer" "10.0.0.7"), 201%Z).
Proof.
  exact (proj1 (proj2 (@X6_add_device_accepts uuid_seq
           (mkAdd (Some " Printer ") (Some "10.0.0.7 "))
           (mkStore None [] 0) eq_refl eq_refl) (fun H => H))).
Defined.

Lemma X7_distinct_ips_kept_witness :
  NoDup (stored_ips (snd (serve_all uuid_seq "Linux" always_up
    [ReqAddDevice (mkAdd (Some "A") (Some "10.0.0.1"));
     ReqAddDevice (mkAdd (Some "B") (Some " 10.0.0.1"));
     ReqAllStatus [0]; ReqDeleteDevice "uuid-0"]
    (mkStore None [] 0)))).
Proof.
  apply (@X7_distinct_ips_kept uuid_seq "Linux" always_up
    [ReqAddDevice (mkAdd (Some "A") (Some "10.0.0.1"));
     ReqAddDevice (mkAdd (Some "B") (Some " 10.0.0.1"));
     ReqAllStatus [0]; ReqDeleteDevice "uuid-0"]
    (mkStore None [] 0)).
  constructor.
Defined.

Lemma X8_add_twice_rejected_witness :
  let st' := snd (add_device uuid_seq (mkAdd (Some "A") (Some "10.0.0.1"))
                             (mkStore None [] 0)) in
  add_device uuid_seq (mkAdd (Some "B") (Some " 10.0.0.1")) st' =
  ((JError "device with this IP already exists", 409%Z), st').
Proof.
  exact (@X8_add_twice_rejected uuid_seq
           (mkAdd (Some "A") (Some "10.0.0.1"))
           (mkAdd (Some "B") (Some " 10.0.0.1"))
           (mkStore None [] 0) eq_refl eq_refl eq_refl).
Defined.

Lemma X9_add_then_delete_witness :
  fst (delete_device uuid_seq "uuid-0"
         (snd (add_device uuid_seq (mkAdd (Some "A") (Some "10.0.0.1"))
                          (mkStore None [] 0))))
  = (JOkTrue, 200%Z).
Proof.
  exact (proj1 (@X9_add_then_delete uuid_seq
           (mkAdd (Some "A") (Some "10.0.0.1")) (mkStore None [] 0)
           (mkDevice "uuid-0" "A" "10.0.0.1") eq_refl)).
Defined.

Lemma X14_added_device_is_reported_witness :
  List.length
    (fst (fst (all_status uuid_seq "Linux" always_up [0]
                 (snd (add_device uuid_seq
                         (mkAdd (Some "A") (Some "10.0.0.1"))
                         (mkStore None [] 0))))))
  = 1.
Proof.
  exact (proj1 (proj2 (@X14_added_device_is_reported uuid_seq "Linux"
           always_up (mkAdd (Some "A") (Some "10.0.0.1")) (mkStore None [] 0)
           (mkDevice "uuid-0" "A" "10.0.0.1") [0] eq_refl))).
Defined.

(* ===================================================================== *)
(** * Further properties: spaces and ids *)
(* ===================================================================== *)


Lemma all_space_app (s t : string) :
  PyStr.all_space (s ++ t) = PyStr.all_space s && PyStr.all_space t.
Proof.
  induction s as [|c s IH]; simpl; [reflexivity|].
  now rewrite IH, andb_assoc.
Qed.

Lemma lstrip_all_space (s : string) :
  PyStr.all_space s = true -> PyStr.lstrip s = "".
Proof.
  intros H. destruct (lstrip_cases s) as [(_ & E)|(E & _)];
    [exact E|congruence].
Qed.

Lemma lstrip_app_pre (pre s : string) :
  PyStr.all_space pre = true -> PyStr.lstrip (pre ++ s) = PyStr.lstrip s.
Proof.
  induction pre as [|c pre IH]; simpl; [reflexivity|].
  intros H. apply andb_true_iff in H. destruct H as [Hc Hp].
  rewrite Hc. now apply IH.
Qed.

Lemma lstrip_app_post (s t : string) :
  PyStr.all_space s = false -> PyStr.lstrip (s ++ t) = PyStr.lstrip s ++ t.
Proof.
  induction s as [|c s IH]; simpl; [discriminate|].
  destruct (PyStr.is_space c); simpl; [exact IH|reflexivity].
Qed.

Lemma rstrip_all_space (s : string) :
  PyStr.all_space s = true -> PyStr.rstrip s = "".
Proof.
  induction s as [|c s IH]; simpl; [reflexivity|].
  intros H. apply andb_true_iff in H. destruct H as [Hc Hs].
  now rewrite (IH Hs), Hc.
Qed.

Lemma rstrip_app_post (s post : string) :
  PyStr.all_space post = true -> PyStr.rstrip (s ++ post) = PyStr.rstrip s.
Proof.
  intros H. induction s as [|c s IH]; simpl.
  - now apply rstrip_all_space.
  - now rewrite IH.
Qed.

(** Spaces around a string do not change what [strip] returns. *)
Lemma strip_padded (pre s post : string) :
  PyStr.all_space pre = true -> PyStr.all_space post = true ->
  PyStr.strip (pre ++ s ++ post) = PyStr.strip s.
Proof.
  intros Hpre Hpost. unfold PyStr.strip. rewrite (@lstrip_app_pre pre _ Hpre).
  destruct (PyStr.all_space s) eqn:Hs.
  - rewrite (@lstrip_all_space s Hs).
    rewrite lstrip_all_space; [reflexivity|].
    now rewrite all_space_app, Hs, Hpost.
  - rewrite (@lstrip_app_post s _ Hs). now apply rstrip_app_post.
Qed.

(** X24.  Spaces around the name and the ip of a request make no
    difference: the request with the padded values gets the same response
    and leaves the same store as the request with the bare values.  In
    particular [strip] changes nothing in a value already stripped. *)
Theorem X24_add_device_ignores_padding
    (uuid4 : nat -> string) (st : Store)
    (n a pre1 post1 pre2 post2 : string) :
  PyStr.all_space pre1 = true -> PyStr.all_space post1 = true ->
  PyStr.all_space pre2 = true -> PyStr.all_space post2 = true ->
  add_device uuid4 (mkAdd (Some (pre1 ++ n ++ post1))
                          (Some (pre2 ++ a ++ post2))) st =
  add_device uuid4 (mkAdd (Some n) (Some a)) st /\
  PyStr.strip (PyStr.strip n) = PyStr.strip n.
Proof.
  intros H1 H2 H3 H4. split.
  - rewrite !add_device_unfold. cbn [req_name req_ip or_empty].
    now rewrite !strip_padded.
  - destruct (strip_spec n) as ((pre & post & E & Hp & Hq) & _).
    rewrite E at 2. symmetry. now apply strip_padded.
Qed.

Lemma str_inj (a b : Z) : PyStr.str a = PyStr.str b -> a = b.
Proof.
  unfold PyStr.str. intros H.
  assert (N : forall z, Z.to_int z <> Decimal.Pos Decimal.Nil /\
                        Z.to_int z <> Decimal.Neg Decimal.Nil).
  { intros [|p|p]; simpl; split; try discriminate;
      intros E; injection E as E;
      now apply DecimalPos.Unsigned.to_uint_nonnil in E. }
  apply (f_equal NilZero.int_of_string) in H.
  rewrite !NilZero.isi in H by apply N.
  injection H as H. apply (f_equal Z.of_int) in H.
  now rewrite !DecimalZ.of_to in H.
Qed.

Lemma uuid_seq_inj (m n : nat) : uuid_seq m = uuid_seq n -> m = n.
Proof.
  unfold uuid_seq. intros H. simpl in H. injection H as H.
  apply str_inj in H. lia.
Qed.

Section IdsMore.
Variable uuid4 : nat -> string.
Variable platform_system : string.
Variable subprocess_run : nat -> list string -> result Z.
Hypothesis uuid4_inj : forall m n, uuid4 m = uuid4 n -> m = n.

Lemma ids_of_to_stored (ds : list Device) :
  ids_of (map to_stored ds) = map id ds.
Proof.
  unfold ids_of. induction ds as [|d ds IH]; simpl; [reflexivity|].
  now rewrite IH.
Qed.

Lemma fill_ids_ids (data : list Stored) :
  forall n,
    NoDup (ids_of data) ->
    (forall m, n <= m -> ~ In (uuid4 m) (ids_of data)) ->
    NoDup (map id (fill_ids uuid4 n data)) /\
    (forall x, In x (map id (fill_ids uuid4 n data)) ->
       In x (ids_of data) \/
       exists m, n <= m < n + missing_ids data /\ x = uuid4 m).
Proof.
  unfold ids_of, missing_ids.
  induction data as [|d data IH]; intros n Hnd Hfresh; simpl.
  - split; [constructor|]. intros x [].
  - destruct d as [[i|] nm a]; cbn [s_id s_name s_ip has_id negb] in *.
    + simpl in Hnd, Hfresh. inversion Hnd as [|? ? Hni Hnd']; subst.
      destruct (IH n Hnd') as (I1 & I2).
      { intros m Hm Hin. apply (Hfresh m Hm). now right. }
      simpl. split.
      * constructor; [|exact I1]. intros Hin.
        destruct (I2 _ Hin) as [H|(m & Hm & ->)]; [contradiction|].
        apply (Hfresh m); [lia|now left].
      * intros x [<-|Hx]; [left; now left|].
        destruct (I2 _ Hx) as [H|H]; [left; now right|now right].
    + simpl in Hnd, Hfresh.
      destruct (IH (S n) Hnd) as (I1 & I2).
      { intros m Hm. apply Hfresh. lia. }
      simpl. split.
      * constructor; [|exact I1]. intros Hin.
        destruct (I2 _ Hin) as [H|(m & Hm & E)].
        -- now apply (Hfresh n (le_n n)).
        -- apply uuid4_inj in E. lia.
      * intros x [<-|Hx]; [right; exists n; split; [lia|reflexivity]|].
        destruct (I2 _ Hx) as [H|(m & Hm & ->)]; [now left|].
        right. exists m. split; [lia|reflexivity].
Qed.

Lemma known_ids_to_stored (ds : list Device) (w : list (list Stored))
      (n : nat) :
  known_ids {| file := Some (map to_stored ds); writes := w;
               uuid_calls := n |} = map id ds.
Proof. unfold known_ids. cbn [file]. apply ids_of_to_stored. Qed.

(** After loading, the ids of the devices are those on disk, they differ
    from one another and from every id still to come. *)
Lemma load_devices_ids (st : Store) :
  ids_fresh uuid4 st ->
  let ds := fst (load_devices uuid4 st) in
  let st1 := snd (load_devices uuid4 st) in
  known_ids st1 = map id ds /\ NoDup (map id ds) /\
  (forall m, uuid_calls st1 <= m -> ~ In (uuid4 m) (map id ds)).
Proof.
  intros (Hnd & Hfresh) ds st1. subst ds st1.
  rewrite load_devices_closed. unfold known_ids in *.
  destruct (file st) as [data|] eqn:Hf.
  - cbv zeta.
    destruct (@fill_ids_ids data (uuid_calls st) Hnd Hfresh) as (I1 & I2).
    assert (F : forall m, uuid_calls st + missing_ids data <= m ->
                  ~ In (uuid4 m)
                       (map id (fill_ids uuid4 (uuid_calls st) data))).
    { intros m Hm Hin. destruct (I2 _ Hin) as [H|(m' & Hm' & E)].
      - apply (Hfresh m); [lia|exact H].
      - apply uuid4_inj in E. lia. }
    destruct (forallb has_id data) eqn:Hall; cbn [fst snd].
    + apply missing_ids_zero in Hall. rewrite Hall, Nat.add_0_r in F.
      apply missing_ids_zero in Hall.
      destruct (has_id_to_stored _ Hall) as (ds' & ->).
      rewrite fill_ids_complete in *. rewrite Hf, ids_of_to_stored.
      split; [reflexivity|]. split; [exact I1|exact F].
    + cbn [file uuid_calls]. rewrite ids_of_to_stored.
      split; [reflexivity|]. split; [exact I1|exact F].
  - cbn. split; [reflexivity|]. split; [constructor|]. intros m _ [].
Qed.

Lemma ids_fresh_loaded (st : Store) :
  ids_fresh uuid4 st -> ids_fresh uuid4 (snd (load_devices uuid4 st)).
Proof.
  intros H. destruct (load_devices_ids H) as (E & Hnd & Hf).
  split; rewrite E; assumption.
Qed.

Lemma serve_ids_fresh (r : Request) (st : Store) :
  ids_fresh uuid4 st ->
  ids_fresh uuid4 (snd (serve uuid4 platform_system subprocess_run r st)).
Proof.
  intros H. pose proof (ids_fresh_loaded H) as H1.
  destruct (load_devices_ids H) as (E & Hnd & Hf).
  destruct r as [|data|dev_id|sched]; unfold serve, bind, ret.
  - unfold get_devices, bind, ret.
    destruct (load_devices uuid4 st); exact H1.
  - destruct (add_device_cases uuid4 data st)
      as [(_ & ->)|[(_ & _ & ->)|(_ & _ & ->)]]; cbn [fst snd];
      [exact H|exact H1|].
    split; rewrite known_ids_to_stored; cbn [uuid_calls].
    + rewrite map_app. cbn [map id].
      apply NoDup_snoc; [exact Hnd|]. now apply Hf.
    + intros m Hm Hin. rewrite map_app in Hin. cbn [map id] in Hin.
      apply in_app_or in Hin. destruct Hin as [Hin|[E'|[]]].
      * apply (Hf m); [lia|exact Hin].
      * apply uuid4_inj in E'. lia.
  - destruct (delete_device_cases uuid4 dev_id st) as [(_ & _ & ->)|(_ & ->)];
      cbn [fst snd]; [exact H1|].
    split; rewrite known_ids_to_stored; cbn [uuid_calls].
    + now apply NoDup_map_filter.
    + intros m Hm Hin. apply (Hf m Hm).
      apply in_map_iff in Hin. destruct Hin as (x & Hx & Hin).
      apply filter_In in Hin. rewrite <- Hx. apply in_map. tauto.
  - unfold all_status, bind, ret.
    destruct (load_devices uuid4 st); exact H1.
Qed.

(** X25.  As long as [uuid4] does not repeat itself nor return an id that
    is already on disk, ids stay distinct whatever requests are served:
    the devices loaded afterwards have pairwise different ids, so deleting
    a stored id removes exactly one device and keeps the others in
    place. *)
Theorem X25_ids_stay_distinct (rs : list Request) (st : Store) :
  ids_fresh uuid4 st ->
  let st' := snd (serve_all uuid4 platform_system subprocess_run rs st) in
  let ds := fst (load_devices uuid4 st') in
  ids_fresh uuid4 st' /\ NoDup (map id ds) /\
  (forall dev_id, In dev_id (map id ds) ->
     exists l1 d l2,
       ds = (l1 ++ d :: l2)%list /\ id d = dev_id /\
       fst (load_devices uuid4 (snd (delete_device uuid4 dev_id st')))
       = (l1 ++ l2)%list).
Proof.
  intros H st' ds.
  assert (H' : ids_fresh uuid4 st').
  { subst st'. clear ds. revert st H.
    induction rs as [|r rs' IH]; intros st H; [exact H|].
    cbn [serve_all]. unfold bind.
    pose proof (serve_ids_fresh r H) as H1.
    destruct (serve uuid4 platform_system subprocess_run r st) as [[] st1].
    now apply IH. }
  destruct (load_devices_ids H') as (_ & Hnd & _). fold ds in Hnd.
  split; [exact H'|]. split; [exact Hnd|].
  intros dev_id Hin.
  destruct (@filter_removes_one ds dev_id Hnd Hin)
    as (l1 & d & l2 & E1 & E2 & E3).
  exists l1, d, l2. split; [exact E1|]. split; [exact E2|].
  destruct (delete_device_cases uuid4 dev_id st') as [(Hn & _)|(_ & E)].
  - contradiction.
  - rewrite E. cbn [snd].
    erewrite load_devices_complete by reflexivity. exact E3.
Qed.

End IdsMore.

(** ** Instances *)

Lemma X24_add_device_ignores_padding_witness :
  add_device uuid_seq (mkAdd (Some ("  " ++ "Printer" ++ " "))
                             (Some ("" ++ "10.0.0.7" ++ "  ")))
             (mkStore None [] 0) =
  add_device uuid_seq (mkAdd (Some "Printer") (Some "10.0.0.7"))
             (mkStore None [] 0).
Proof.
  exact (proj1 (@X24_add_device_ignores_padding uuid_seq (mkStore None [] 0)
                  "Printer" "10.0.0.7" "  " " " "" "  "
                  eq_refl eq_refl eq_refl eq_refl)).
Defined.

Lemma X25_ids_stay_distinct_witness :
  NoDup (map id (fst (load_devices uuid_seq
    (snd (serve_all uuid_seq "Linux" always_up
            [ReqAddDevice (mkAdd (Some "A") (Some "10.0.0.1"));
             ReqAddDevice (mkAdd (Some "B") (Some "10.0.0.2"))]
            (mkStore None [] 0)))))).
Proof.
  refine (proj1 (proj2 (@X25_ids_stay_distinct uuid_seq "Linux" always_up
            uuid_seq_inj
            [ReqAddDevice (mkAdd (Some "A") (Some "10.0.0.1"));
             ReqAddDevice (mkAdd (Some "B") (Some "10.0.0.2"))]
            (mkStore None [] 0) _))).
  split; [constructor|]. intros n _ [].
Defined.

(* ===================================================================== *)
(** * Further properties: the report *)
(* ===================================================================== *)

Section ReportMore.
Variable platform_system : string.
Variable subprocess_run : nat -> list string -> result Z.

Local Abbreviation report_of :=
  (bulk_status platform_system subprocess_run).

(** When the outcome of a probe depends on the address only, the report
    is a rearrangement of the devices with the outcome of their address. *)
Lemma bulk_status_perm_outcomes (f : string -> result bool)
      (sched : list nat) (devices : list Device) :
  (forall i d, In d devices ->
     ping_host platform_system (subprocess_run i) (ip d) default_timeout_ms
     = f (ip d)) ->
  Permutation (report_of sched devices)
              (map (fun d => make_result d (f (ip d))) devices).
Proof.
  intros H. rewrite bulk_status_perm.
  now rewrite (@submit_all_outcomes platform_system subprocess_run f devices).
Qed.

(** The device submitted [k]-th is reported with the outcome of the
    [k]-th task. *)
Lemma bulk_status_In_nth (sched : list nat) (devices : list Device)
      (k : nat) (d : Device) :
  nth_error devices k = Some d ->
  In (make_result d (ping_host platform_system (subprocess_run k) (ip d)
                               default_timeout_ms))
     (report_of sched devices).
Proof.
  intros Hk.
  eapply Permutation_in; [apply Permutation_sym, bulk_status_perm|].
  apply in_map_iff.
  exists (ping_host platform_system (subprocess_run k) (ip d)
                    default_timeout_ms, d).
  split; [reflexivity|].
  eapply nth_error_In.
  rewrite (submit_all_nth platform_system subprocess_run devices 0 k Hk).
  reflexivity.
Qed.

(** X16.  The report does not depend on the order in which the devices
    are stored: when no two devices share both lowercased name and ip and
    the outcome of a probe depends on the address only, the same devices
    in another order, probed in whatever completion order, give the same
    report. *)
Theorem X16_report_independent_of_input_order
    (devices devices' : list Device) (sched sched' : list nat) :
  Permutation devices devices' ->
  distinct_keys devices ->
  same_outcomes platform_system devices subprocess_run subprocess_run ->
  report_of sched devices = report_of sched' devices'.
Proof.
  intros P Hk Hs.
  set (f := fun a => ping_host platform_system (subprocess_run 0) a
                               default_timeout_ms).
  set (L := map (fun d => make_result d (f (ip d))) devices).
  assert (P1 : Permutation (report_of sched devices) L).
  { apply bulk_status_perm_outcomes. intros i d Hd. apply (Hs i 0 d Hd). }
  assert (P2 : Permutation (report_of sched' devices') L).
  { rewrite (bulk_status_perm_outcomes f).
    - unfold L. apply Permutation_map, Permutation_sym, P.
    - intros i d Hd. apply (Hs i 0 d).
      eapply Permutation_in; [apply Permutation_sym; exact P|exact Hd]. }
  apply sorted_perm_unique
    with (R := fun x y => key_le (sort_key x) (sort_key y)).
  - apply sort_by_key_sorted.
  - apply sort_by_key_sorted.
  - now rewrite P1, P2.
  - intros a b Ha Hb. apply (@distinct_keys_no_tie devices f a b Hk).
    + eapply Permutation_in; [exact P1|exact Ha].
    + eapply Permutation_in; [exact P1|exact Hb].
Qed.

(** X17.  Results whose keys tie stay in the order in which their probes
    were collected: for every key, the results of the report with that key
    are those of [out], in the order of [out]. *)
Theorem X17_ties_keep_completion_order
    (sched : list nat) (devices : list Device) (k : string * string) :
  PySort.with_key sort_key key_eqb k (report_of sched devices) =
  PySort.with_key sort_key key_eqb k
    (collect platform_system subprocess_run sched devices).
Proof.
  unfold bulk_status. apply sort_stable.
  - exact tuple_lt_asym.
  - exact key_eqb_spec.
Qed.

(** X18.  Every probe of a round is made with the default timeout: the
    device submitted [k]-th is reported online exactly when the command
    [ping -c 1 -W 1 <ip>] (off Windows) or [ping -n 1 -w 1200 <ip>] (on
    Windows), run in the [k]-th task, exits with status 0. *)
Theorem X18_report_online_flags
    (sched : list nat) (devices : list Device) (k : nat) (d : Device) :
  nth_error devices k = Some d ->
  let cmd :=
    if (PyStr.lower platform_system =? "windows")%string
    then ["ping"; "-n"; "1"; "-w"; "1200"; ip d]
    else ["ping"; "-c"; "1"; "-W"; "1"; ip d] in
  In (mkResult (id d) (name d) (ip d)
               match subprocess_run k cmd with
               | Ok rc => (rc =? 0)%Z
               | Raise _ => false
               end)
     (report_of sched devices).
Proof.
  intros Hk cmd.
  pose proof (bulk_status_In_nth sched devices k Hk) as Hin.
  rewrite ping_host_spec in Hin.
  assert (Hc : ping_cmd platform_system (ip d) default_timeout_ms = Ok cmd).
  { subst cmd. unfold ping_cmd.
    destruct (PyStr.lower platform_system =? "windows")%string;
      [reflexivity|].
    rewrite ping_wait_secs_small by (unfold default_timeout_ms; lia).
    reflexivity. }
  rewrite Hc in Hin. exact Hin.
Qed.

End ReportMore.

(** ** Instances *)

Lemma X16_report_independent_of_input_order_witness :
  bulk_status "Linux" only_cloudflare_up [0] [google; cloudflare] =
  bulk_status "Linux" only_cloudflare_up [1] [cloudflare; google].
Proof.
  refine (@X16_report_independent_of_input_order "Linux" only_cloudflare_up
            [google; cloudflare] [cloudflare; google] [0] [1] _ _ _).
  - apply perm_swap.
  - intros d1 d2 [<-|[<-|[]]] [<-|[<-|[]]]; simpl; intros H1 H2;
      try reflexivity; discriminate.
  - intros i j d _. reflexivity.
Defined.

Lemma X18_report_online_flags_witness :
  In (mkResult "c" "Cloudflare DNS" "1.1.1.1" true)
     (bulk_status "Linux" only_cloudflare_up [1] [google; cloudflare]).
Proof.
  exact (@X18_report_online_flags "Linux" only_cloudflare_up [1]
           [google; cloudflare] 1 cloudflare eq_refl).
Defined.

(* ===================================================================== *)
(** * Further properties: the round, step by step *)
(* ===================================================================== *)

Lemma started_app (t1 t2 : list event) :
  started (t1 ++ t2) = (started t1 ++ started t2)%list.
Proof.
  induction t1 as [|e t1 IH]; simpl; [reflexivity|].
  destruct e; simpl; now rewrite IH.
Qed.

Lemma done_ids_app (t1 t2 : list event) :
  done_ids (t1 ++ t2) = (done_ids t1 ++ done_ids t2)%list.
Proof.
  induction t1 as [|e t1 IH]; simpl; [reflexivity|].
  destruct e; simpl; now rewrite IH.
Qed.

Lemma spawned_app (t1 t2 : list event) :
  spawned (t1 ++ t2) = spawned t1 + spawned t2.
Proof.
  induction t1 as [|e t1 IH]; simpl; [reflexivity|].
  destruct e; simpl; now rewrite IH.
Qed.

Section RoundMore.
Variable platform_system : string.
Variable subprocess_run : nat -> list string -> result Z.
Variable devices : list Device.

Local Abbreviation step1 := (step platform_system subprocess_run devices).
Local Abbreviation reach :=
  (reachable platform_system subprocess_run devices).
Local Abbreviation reach_in :=
  (reachable_in platform_system subprocess_run devices).

Ltac trace_simpl :=
  rewrite ?started_app, ?done_ids_app, ?spawned_app;
  cbn [started done_ids spawned]; rewrite ?app_nil_r, ?Nat.add_0_r.

Lemma probe_inv_step (s s' : Round) :
  probe_inv devices s -> step1 s s' -> probe_inv devices s'.
Proof.
  intros (fs & later & H1 & H2 & H3 & H4 & H5 & H6 & H7) Hstep.
  destruct Hstep as [s Hm | s i d rest fs0 Hm Hlt | s i d rest fs0 Hm Hor
                    | s i fs0 Hm | s i addr q Hq Hlt | s i addr r1 r2 Hr
                    | s fs0 w1 i w2 out r d Hm Hfin Hfs | s fs0 out Hm];
    try (rewrite Hm in H7).
  - (* create *)
    subst fs. exists [], (all_futures devices).
    cbn [main queue running finished trace threads]. trace_simpl.
    repeat (split; [assumption || reflexivity|]). split; reflexivity.
  - (* submit, new thread *)
    destruct H7 as (-> & ->).
    exists (fs ++ [(i, d)])%list, (combine (seq (S i) (List.length rest)) rest).
    cbn [main queue running finished trace threads]. trace_simpl.
    split; [now rewrite <- app_assoc|].
    split; [now rewrite app_assoc, H2, map_app|].
    split; [exact H3|]. split; [exact H4|].
    split; [rewrite length_app; simpl; lia|].
    split; [lia|]. split; reflexivity.
  - (* submit, no new thread *)
    destruct H7 as (-> & ->).
    exists (fs ++ [(i, d)])%list, (combine (seq (S i) (List.length rest)) rest).
    cbn [main queue running finished trace threads]. trace_simpl.
    split; [now rewrite <- app_assoc|].
    split; [now rewrite app_assoc, H2, map_app|].
    split; [exact H3|]. split; [exact H4|].
    split; [rewrite length_app; simpl; lia|].
    split; [exact H6|]. split; reflexivity.
  - (* the loop begins *)
    destruct H7 as (-> & ->). exists fs, [].
    cbn [main queue running finished trace threads].
    repeat (split; [assumption|]).
    split; [reflexivity|]. split; [reflexivity|]. auto.
  - (* a probe starts *)
    exists fs, later.
    cbn [main queue running finished trace threads]. trace_simpl.
    split; [exact H1|].
    split; [now rewrite <- app_assoc, <- H2, Hq|].
    split.
    { rewrite !map_app, app_assoc. now apply Permutation_app_tail. }
    repeat (split; [assumption|]). exact H7.
  - (* a probe is over *)
    exists fs, later.
    cbn [main queue running finished trace threads]. trace_simpl.
    split; [exact H1|]. split; [exact H2|].
    split.
    { rewrite <- H3, Hr, !map_app. cbn [map fst].
      change (i :: map fst (finished s) ++ map fst r1 ++ map fst r2)%list
        with ((i :: map fst (finished s)) ++ map fst r1 ++ map fst r2)%list.
      rewrite (app_assoc (map fst (finished s)) (map fst r1)).
      rewrite (app_assoc (i :: map fst (finished s)) (map fst r1)).
      apply Permutation_cons_app. reflexivity. }
    split; [cbn [map fst]; now rewrite rev_app_distr, H4|].
    split; [exact H5|]. split; [exact H6|].
    destruct (main s) as [|i0 rest fs0|fs0 waiting out|report];
      try exact H7.
    + destruct H7 as (E1 & E2 & C). split; [exact E1|]. split; [exact E2|].
      intros j Hj. destruct (C j Hj) as [H|H]; [now left|right; now right].
    + destruct H7 as (E2 & C). split; [exact E2|].
      intros j Hj. right. now apply C.
  - (* a future is yielded *)
    destruct H7 as (-> & -> & C). rewrite app_nil_r in H1. exists fs, [].
    cbn [main queue running finished trace threads]. trace_simpl.
    repeat (split; [assumption|]).
    split; [reflexivity|]. split; [reflexivity|].
    intros j Hj. destruct (C j Hj) as [H|H]; [|now right].
    apply in_app_or in H. destruct H as [H|[<-|H]].
    + left. apply in_or_app. now left.
    + right. apply (in_map fst) in Hfin. exact Hfin.
    + left. apply in_or_app. now right.
  - (* return *)
    destruct H7 as (-> & -> & C). rewrite app_nil_r in H1. exists fs, [].
    cbn [main queue running finished trace threads]. trace_simpl.
    repeat (split; [assumption|]).
    split; [reflexivity|].
    intros j Hj. destruct (C j Hj) as [[]|H]; exact H.
Qed.

Lemma probe_inv_reachable (s : Round) : reach s -> probe_inv devices s.
Proof.
  induction 1 as [|s s' _ IH Hstep].
  - exists [], (all_futures devices). cbn. repeat split; auto.
  - eapply probe_inv_step; eassumption.
Qed.

Lemma reachable_in_reachable (k : nat) (s : Round) : reach_in k s -> reach s.
Proof.
  induction 1 as [|k s s' _ IH Hstep]; [constructor|].
  eapply reach_step; eassumption.
Qed.

Lemma reachable_reachable_in (s : Round) : reach s -> exists k, reach_in k s.
Proof.
  induction 1 as [|s s' _ (k & IH) Hstep].
  - exists 0. constructor.
  - exists (S k). econstructor; eassumption.
Qed.

(** When the round has returned, nothing is queued or running and every
    future has been started. *)
Lemma returned_quiescent (s : Round) (report : list ProbeResult) :
  reach s -> main s = Returned report ->
  queue s = [] /\ running s = [] /\
  started (trace s) = map work_item (all_futures devices) /\
  Permutation (done_ids (trace s)) (seq 0 (List.length devices)).
Proof.
  intros Hr Hm.
  destruct (probe_inv_reachable Hr)
    as (fs & later & H1 & H2 & H3 & H4 & H5 & H6 & H7).
  rewrite Hm in H7. destruct H7 as (-> & C). rewrite app_nil_r in H1.
  subst fs.
  pose proof (all_futures_fst devices) as Hfst.
  assert (Hn : List.length (map fst (all_futures devices))
               <= List.length (map fst (finished s))).
  { apply NoDup_incl_length; [apply all_futures_NoDup|exact C]. }
  rewrite Hfst, length_seq, length_map in Hn.
  pose proof (Permutation_length H3) as L3.
  pose proof (f_equal (@List.length _) H2) as L2.
  rewrite length_app in L3, L2.
  repeat rewrite length_map in L3. repeat rewrite length_map in L2.
  assert (La : List.length (all_futures devices) = List.length devices).
  { rewrite <- (length_map fst), Hfst. apply length_seq. }
  assert (Eq : queue s = []) by (apply length_zero_iff_nil; lia).
  assert (Er : running s = []) by (apply length_zero_iff_nil; lia).
  rewrite Eq, app_nil_r in H2. rewrite Er in H3. cbn [map] in H3.
  rewrite app_nil_r in H3.
  split; [exact Eq|]. split; [exact Er|]. split; [exact H2|].
  rewrite <- Hfst.
  replace (map fst (all_futures devices))
    with (map fst (started (trace s)))
    by (rewrite H2, map_map; reflexivity).
  rewrite <- H3, H4. apply Permutation_rev.
Qed.


(** X20.  The pool starts a thread only when a task is submitted, so it
    never has more threads than devices (nor than its width): a round on
    fewer than four devices runs on fewer than four threads.  The threads
    of the pool are those the trace shows being started. *)
Theorem X20_threads_bounded (s : Round) :
  reach s ->
  spawned (trace s) = threads s /\
  threads s <= List.length devices /\
  (Z.of_nat (threads s) <= max_workers devices)%Z /\
  List.length (running s) <= threads s.
Proof.
  intros Hr.
  destruct (probe_inv_reachable Hr)
    as (fs & later & H1 & _ & _ & _ & H5 & H6 & _).
  pose proof (pool_inv_reachable Hr) as (P1 & P2 & P3 & _).
  split; [exact H6|]. split; [|split; [lia|exact P1]].
  assert (La : List.length (all_futures devices) = List.length devices).
  { rewrite <- (length_map fst), all_futures_fst. apply length_seq. }
  rewrite H1, length_app in La. lia.
Qed.

Lemma steps_left_step (s s' : Round) :
  step1 s s' -> steps_left devices s = S (steps_left devices s').
Proof.
  intros Hstep. destruct Hstep; unfold steps_left; simpl;
    repeat match goal with H : main _ = _ |- _ => rewrite H; clear H end;
    repeat match goal with H : queue _ = _ |- _ => rewrite H; clear H end;
    repeat match goal with H : running _ = _ |- _ => rewrite H; clear H end;
    simpl; rewrite ?length_app, ?length_map; simpl; lia.
Qed.


End RoundMore.

(** ** Instances *)


Lemma X20_threads_bounded_witness :
  threads probing_one <= List.length one_device.
Proof.
  exact (proj1 (proj2 (@X20_threads_bounded "Linux" always_up one_device
                         probing_one probing_one_reachable))).
Defined.

Lemma empty_round_three_steps :
  reachable_in "Linux" always_up [] 3 empty_3.
Proof.
  assert (R1 : reachable_in "Linux" always_up [] 1 empty_1).
  { eapply reach_in_step; [apply reach_in_initial|].
    apply (@step_create "Linux" always_up [] initial). reflexivity. }
  assert (R2 : reachable_in "Linux" always_up [] 2 empty_2).
  { eapply reach_in_step; [exact R1|].
    apply (@step_submitted "Linux" always_up [] empty_1 0 []). reflexivity. }
  eapply reach_in_step; [exact R2|].
  apply (@step_return "Linux" always_up [] empty_2 [] []). reflexivity.
Qed.


(* ===================================================================== *)
(** * Further properties: the prober *)
(* ===================================================================== *)

Lemma round_half_even_div_mono (a a' : Z) :
  (a <= a')%Z ->
  (PyNum.round_half_even_div a 1000 <= PyNum.round_half_even_div a' 1000)%Z.
Proof.
  intros H. destruct (Z.eq_dec a a') as [->|Hne]; [lia|].
  pose proof (@round_half_even_div_nearest a 1000 ltac:(lia)).
  pose proof (@round_half_even_div_nearest a' 1000 ltac:(lia)).
  lia.
Qed.

Lemma round_half_even_div_tie (a : Z) :
  (a mod 1000 = 500)%Z -> Z.even (PyNum.round_half_even_div a 1000) = true.
Proof.
  intros H. unfold PyNum.round_half_even_div. rewrite H. simpl.
  destruct (Z.even (a / 1000)) eqn:E; [exact E|].
  rewrite Z.even_add, E. reflexivity.
Qed.

(** X22.  Off Windows and for a timeout of up to ten seconds, [ping] is
    told to wait the whole number of seconds nearest to the timeout, and
    never less than one: the wait is within half a second of the timeout
    from 500 ms on, it does not decrease when the timeout grows, and a
    timeout half-way between two seconds goes to the even one (2500 ms
    waits 2 s, 3500 ms waits 4 s). *)
Theorem X22_wait_is_nearest_second (timeout_ms : Z) :
  (0 <= timeout_ms <= 10000)%Z ->
  exists secs,
    ping_wait_secs timeout_ms = Ok secs /\
    (1 <= secs <= 10)%Z /\
    (timeout_ms - 500 <= 1000 * secs)%Z /\
    (500 <= timeout_ms -> Z.abs (1000 * secs - timeout_ms) <= 500)%Z /\
    (forall t' secs', (timeout_ms <= t' <= 10000)%Z ->
       ping_wait_secs t' = Ok secs' -> (secs <= secs')%Z) /\
    ((timeout_ms mod 1000 = 500)%Z -> (1500 <= timeout_ms)%Z ->
     Z.even secs = true).
Proof.
  intros Ht.
  exists (Z.max 1 (PyNum.round_half_even_div timeout_ms 1000)).
  pose proof (@round_half_even_div_nearest timeout_ms 1000 ltac:(lia)) as Hn.
  split; [now apply ping_wait_secs_exact|].
  split; [lia|]. split; [lia|]. split; [lia|]. split.
  - intros t' secs' Ht' Hs'.
    rewrite ping_wait_secs_exact in Hs' by lia. injection Hs' as <-.
    pose proof (@round_half_even_div_mono timeout_ms t' ltac:(lia)). lia.
  - intros Hm Hlo. rewrite Z.max_r by lia.
    now apply round_half_even_div_tie.
Qed.

(** The name of the platform matters through its lowercased form only. *)
Lemma ping_cmd_lower (ps ps' ip0 : string) (timeout_ms : Z) :
  PyStr.lower ps' = PyStr.lower ps ->
  ping_cmd ps' ip0 timeout_ms = ping_cmd ps ip0 timeout_ms.
Proof. intros H. unfold ping_cmd. now rewrite H. Qed.

(** X23.  On Windows (the platform name compared without regard to case)
    the timeout goes to [ping] as it is, in milliseconds, neither rounded
    nor raised to a minimum, and no division is made: for a timeout that
    [str] can print, the command is always built, so the answer is
    [True] exactly when [ping -n 1 -w <timeout_ms> <ip>] exits with status
    0, and [False] when it cannot be run. *)
Theorem X23_windows_probe
    (platform_system : string) (run : list string -> result Z)
    (ip0 : string) (timeout_ms : Z) :
  PyStr.lower platform_system = "windows" ->
  (Z.abs timeout_ms < 10 ^ 4300)%Z ->
  let cmd := ["ping"; "-n"; "1"; "-w"; PyStr.str timeout_ms; ip0] in
  ping_cmd platform_system ip0 timeout_ms = Ok cmd /\
  (ping_host platform_system run ip0 timeout_ms = Ok true <->
   run cmd = Ok 0%Z) /\
  (forall e, run cmd = Raise e ->
     ping_host platform_system run ip0 timeout_ms = Ok false) /\
  (forall ps', PyStr.lower ps' = "windows" ->
     ping_host ps' run ip0 timeout_ms =
     ping_host platform_system run ip0 timeout_ms).
Proof.
  intros Hw _ cmd.
  assert (Hc : ping_cmd platform_system ip0 timeout_ms = Ok cmd)
    by (unfold ping_cmd; now rewrite Hw).
  split; [exact Hc|]. rewrite ping_host_spec, Hc. split; [|split].
  - destruct (run cmd) as [rc|e]; split; intros H; try discriminate.
    + injection H as H. apply Z.eqb_eq in H. now subst.
    + injection H as ->. reflexivity.
  - intros e ->. reflexivity.
  - intros ps' Hw'. rewrite ping_host_spec.
    rewrite (@ping_cmd_lower platform_system ps' ip0 timeout_ms)
      by congruence.
    now rewrite Hc.
Qed.

(** ** Instances *)

Lemma X22_wait_is_nearest_second_witness :
  exists secs,
    ping_wait_secs 2500 = Ok secs /\
    (1 <= secs <= 10)%Z /\
    (2500 - 500 <= 1000 * secs)%Z /\
    (500 <= 2500 -> Z.abs (1000 * secs - 2500) <= 500)%Z /\
    (forall t' secs', (2500 <= t' <= 10000)%Z ->
       ping_wait_secs t' = Ok secs' -> (secs <= secs')%Z) /\
    ((2500 mod 1000 = 500)%Z -> (1500 <= 2500)%Z -> Z.even secs = true).
Proof.
  apply (@X22_wait_is_nearest_second 2500%Z). lia.
Defined.

Lemma X23_windows_probe_witness :
  ping_cmd "Windows" "8.8.8.8" 0 =
  Ok ["ping"; "-n"; "1"; "-w"; "0"; "8.8.8.8"].
Proof.
  refine (proj1 (@X23_windows_probe "Windows" (fun _ => Ok 0%Z) "8.8.8.8" 0
                   eq_refl _)).
  simpl Z.abs. apply Z.pow_pos_nonneg; lia.
Defined.
